(** * wispr-flow-lite: hotkey detection, audio capture and transcript cleanup

    A shallow embedding of [voice_transcriber.py]: the hotkey parser and
    manager, the recording loop with its exit conditions, the retrying
    transcription call, the processing pipeline with its temporary
    files, the text cleanup pass, the start-up of the audio device and
    of the hotkey, and the text injection; and of [install_service.py],
    the installer of the systemd user service.

    Conventions.
    - A Python [str] is a list of Unicode code points ([list Z]); the
      case and alphanumeric tables of Python are a parameter ([Unicode]).
    - A Python [bytes] value is a [list Byte.byte].
    - [time.time()] values and the [MAX_MEMORY_MB] float are rationals
      ([Q]); only their comparisons are used.
    - What the operating system, the audio device and the transcription
      backend answer is an explicit input of the function that asks. *)

From Stdlib Require Import ZArith QArith Ascii String List Bool Lia.
From stdpp Require Import base decidable countable gmap strings list.

Open Scope Z_scope.

(** ** Python strings *)

Module PyStr.

Definition str := list Z.

(** An ASCII literal as a Python string. *)
Definition py (s : string) : str :=
  map (fun a => Z.of_nat (nat_of_ascii a)) (list_ascii_of_string s).

Definition in_range (lo hi c : Z) : bool := (lo <=? c) && (c <=? hi).

(** [str.isspace] on one code point (also the regular expression class
    [\s] for [str] patterns): the complete table of CPython. *)
Definition isspace (c : Z) : bool :=
  in_range 9 13 c || in_range 28 32 c || (c =? 133) || (c =? 160)
  || (c =? 5760) || in_range 8192 8202 c || (c =? 8232) || (c =? 8233)
  || (c =? 8239) || (c =? 8287) || (c =? 12288).

(** Python's Unicode data, as far as the program consults it:
    [str.upper] and [str.lower] on one code point (the result may hold
    several code points) and [str.isalnum] on one code point. The
    functions below and the statements about them are over any such
    tables. *)
Class Unicode := {
  upper_cp : Z -> str;
  lower_cp : Z -> str;
  isalnum_cp : Z -> bool
}.

Section Tables.
Context {U : Unicode}.

Definition upper (s : str) : str := flat_map upper_cp s.
Definition lower (s : str) : str := flat_map lower_cp s.

(** [s.isalnum()]: non-empty and every character alphanumeric. *)
Definition isalnum (s : str) : bool :=
  match s with [] => false | _ => forallb isalnum_cp s end.

(** The regular expression class [\w]. *)
Definition is_word (c : Z) : bool := isalnum_cp c || (c =? 95).

End Tables.

(** The tables used where a statement evaluates the program on a given
    text. They follow CPython on Basic Latin, Latin-1, Greek and the
    Cyrillic block; a code point outside these blocks is taken to have
    no case and not to be alphanumeric. *)
Definition py_upper_cp (c : Z) : str :=
  if in_range 97 122 c then [c - 32]
  else if c =? 181 then [924]
  else if c =? 223 then [83; 83]
  else if in_range 224 254 c && negb (c =? 247) then [c - 32]
  else if c =? 255 then [376]
  else if c =? 962 then [931]
  else if in_range 945 969 c then [c - 32]
  else if in_range 1072 1103 c then [c - 32]
  else if in_range 1104 1119 c then [c - 80]
  else [c].

Definition py_lower_cp (c : Z) : str :=
  if in_range 65 90 c then [c + 32]
  else if in_range 192 222 c && negb (c =? 215) then [c + 32]
  else if in_range 913 937 c && negb (c =? 930) then [c + 32]
  else if in_range 1040 1071 c then [c + 32]
  else if in_range 1024 1039 c then [c + 80]
  else [c].

Definition py_isalnum_cp (c : Z) : bool :=
  in_range 48 57 c || in_range 65 90 c || in_range 97 122 c
  || (c =? 170) || in_range 178 179 c || (c =? 181) || in_range 185 186 c
  || in_range 188 190 c
  || (in_range 192 255 c && negb (c =? 215) && negb (c =? 247))
  || (in_range 913 969 c && negb (c =? 930))
  || in_range 1024 1119 c.

#[global] Instance py_unicode : Unicode :=
  {| upper_cp := py_upper_cp; lower_cp := py_lower_cp;
     isalnum_cp := py_isalnum_cp |}.

Definition mem (c : Z) (cs : str) : bool := existsb (Z.eqb c) cs.

Fixpoint lstrip_by (p : Z -> bool) (s : str) : str :=
  match s with
  | c :: r => if p c then lstrip_by p r else s
  | [] => []
  end.

Definition rstrip_by (p : Z -> bool) (s : str) : str :=
  rev (lstrip_by p (rev s)).

(** [s.strip()] and [s.strip(chars)]. *)
Definition strip (s : str) : str := rstrip_by isspace (lstrip_by isspace s).
Definition strip_chars (chars s : str) : str :=
  rstrip_by (fun c => mem c chars) (lstrip_by (fun c => mem c chars) s).

(** [s.split(sep)] for a one-character separator: empty fields are kept. *)
Fixpoint split_on (sep : Z) (s : str) : list str :=
  match s with
  | [] => [[]]
  | c :: r =>
      if c =? sep then [] :: split_on sep r
      else match split_on sep r with
           | w :: ws => (c :: w) :: ws
           | [] => [[c]]
           end
  end.

(** [s.split()]: fields are maximal runs of non-whitespace. *)
Fixpoint split_ws_aux (cur : str) (s : str) : list str :=
  match s with
  | [] => match cur with [] => [] | _ => [rev cur] end
  | c :: r =>
      if isspace c
      then match cur with [] => split_ws_aux [] r | _ => rev cur :: split_ws_aux [] r end
      else split_ws_aux (c :: cur) r
  end.
Definition split_ws (s : str) : list str := split_ws_aux [] s.

(** [sep.join(parts)]. *)
Fixpoint join (sep : str) (parts : list str) : str :=
  match parts with
  | [] => []
  | [w] => w
  | w :: ws => w ++ sep ++ join sep ws
  end.

(** Equality of strings as a boolean. *)
Definition eqb (a b : str) : bool := bool_decide (a = b).

(** [needle in haystack] for strings. *)
Fixpoint is_prefix (p s : str) : bool :=
  match p, s with
  | [], _ => true
  | a :: p', b :: s' => (a =? b) && is_prefix p' s'
  | _ :: _, [] => false
  end.
Fixpoint contains (needle s : str) : bool :=
  is_prefix needle s ||
  match s with
  | [] => false
  | _ :: r => contains needle r
  end.

End PyStr.

Import PyStr.

(** ** Keys and the hotkey parser *)

Module Hotkey.

(** A pynput key: a member of the [keyboard.Key] enumeration, named as in
    the source ([Key "ctrl_l"] is [keyboard.Key.ctrl_l]), or a
    [keyboard.KeyCode] built from a virtual key code or from a
    character. Two keys are equal when they are built the same way. *)
Inductive key :=
  | Key (name : string)
  | KeyCode_from_vk (vk : Z)
  | KeyCode_from_char (char : str).

#[global] Instance key_eq_dec : EqDecision key.
Proof. solve_decision. Defined.

#[global] Instance key_countable : Countable key.
Proof.
  refine (inj_countable'
    (fun k => match k with
              | Key n => inl n
              | KeyCode_from_vk v => inr (inl v)
              | KeyCode_from_char c => inr (inr c)
              end)
    (fun x => match x with
              | inl n => Key n
              | inr (inl v) => KeyCode_from_vk v
              | inr (inr c) => KeyCode_from_char c
              end) _).
  intros []; reflexivity.
Defined.

(** A Python dict with string keys, in insertion order. *)
Fixpoint dict_get {V} (d : list (str * V)) (k : str) : option V :=
  match d with
  | [] => None
  | (k', v) :: r => if PyStr.eqb k' k then Some v else dict_get r k
  end.

Definition MODIFIER_MAP : list (str * key) :=
  [ (py "ctrl", Key "ctrl"); (py "control", Key "ctrl");
    (py "alt", Key "alt"); (py "option", Key "alt");
    (py "shift", Key "shift");
    (py "cmd", Key "cmd"); (py "win", Key "cmd");
    (py "super", Key "cmd"); (py "meta", Key "cmd") ].

Definition SPECIAL_KEYS_MAP : list (str * key) :=
  [ (py "space", Key "space"); (py "tab", Key "tab");
    (py "enter", Key "enter"); (py "return", Key "enter");
    (py "backspace", Key "backspace"); (py "delete", Key "delete");
    (py "esc", Key "esc"); (py "escape", Key "esc") ].

(** [re.match(r'^f([1-9]|1[0-9]|2[0-4])$', s)]: the letter f, then one of
    1..9, 10..19, 20..24; [$] also matches before one final newline. *)
Definition fn_key_match (s : str) : bool :=
  match s with
  | 102 :: r =>
      let body := match rev r with 10 :: b => rev b | _ => r end in
      match body with
      | [d] => in_range 49 57 d
      | [49; d] => in_range 48 57 d
      | [50; d] => in_range 48 52 d
      | _ => false
      end
  | _ => false
  end.

(** [int(s)] on a string of ASCII digits, surrounding whitespace ignored. *)
Definition int_of (s : str) : Z :=
  fold_left (fun acc c => acc * 10 + (c - 48)) (strip s) 0.

Section Parser.
Context {U : Unicode}.

Definition _parse_single_key (key_string : str) : option key :=
  let key_string := strip (lower key_string) in
  match dict_get MODIFIER_MAP key_string with
  | Some k => Some k
  | None =>
  match dict_get SPECIAL_KEYS_MAP key_string with
  | Some k => Some k
  | None =>
  if fn_key_match key_string then
    let fn_num := int_of (tl key_string) in
    Some (KeyCode_from_vk (111 + fn_num))
  else if (Nat.eqb (length key_string) 1) && isalnum key_string then
    Some (KeyCode_from_char key_string)
  else None
  end end.

(** The [for part in parts] loop of [parse_hotkey]. *)
Fixpoint parse_parts (parts : list str) (keys : gset key) : option (gset key) :=
  match parts with
  | [] => Some keys
  | part :: rest =>
      match _parse_single_key part with
      | None => None
      | Some k => parse_parts rest (keys ∪ {[ k ]})
      end
  end.

(** The parts of a hotkey string: split on [+], stripped, lower-cased. *)
Definition hotkey_parts (hotkey_string : str) : list str :=
  map (fun part => lower (strip part)) (split_on 43 hotkey_string).

Definition parse_hotkey (hotkey_string : str) : option (gset key) :=
  if bool_decide (hotkey_string = []) then None
  else
    let parts := hotkey_parts hotkey_string in
    if bool_decide (parts = []) then None
    else match parse_parts parts ∅ with
         | None => None
         | Some keys => if bool_decide (keys = ∅) then None else Some keys
         end.

Definition validate_hotkey (hotkey_string : str) : bool * str :=
  if bool_decide (hotkey_string = []) then
    (false, py "Hotkey string cannot be empty")
  else match parse_hotkey hotkey_string with
  | None =>
      (false, py "Invalid hotkey format: '" ++ hotkey_string ++ py "'")
  | Some keys =>
      if Nat.eqb (size keys) 0 then
        (false, py "No valid keys found in hotkey string")
      else if Nat.ltb 4 (size keys) then
        (false, py "Too many keys in combination (maximum 4)")
      else (true, py "Valid hotkey")
  end.

End Parser.

(** ** The hotkey manager *)

(** A callable handed to [register_hotkey], identified by a number. *)
Definition Callback := nat.

Record HotkeyInfo := mkInfo {
  on_press : option Callback;
  on_release : option Callback;
  hotkey_string : str;
  is_active : bool;
  last_triggered : Z
}.

Definition set_is_active (b : bool) (i : HotkeyInfo) : HotkeyInfo :=
  mkInfo (on_press i) (on_release i) (hotkey_string i) b (last_triggered i).

(** The keyboard listener object; [running] after [start()]. *)
Record Listener := mkListener { running : bool }.

(** What the manager asks of pynput. *)
Inductive ListenerOp := ListenerCreated | ListenerStarted | ListenerStopped.

(** [self.hotkeys] is a dict from [frozenset] of keys to the registration,
    kept in insertion order, which is the order the checks iterate in. *)
Record HotkeyManager := mkManager {
  listener : option Listener;
  is_listening : bool;
  pressed_keys : gset key;
  hotkeys : list (gset key * HotkeyInfo);
  debounce_ms : Z
}.

Definition init : HotkeyManager := mkManager None false ∅ [] 100.

Definition set_pressed (p : gset key) (m : HotkeyManager) : HotkeyManager :=
  mkManager (listener m) (is_listening m) p (hotkeys m) (debounce_ms m).
Definition set_hotkeys (h : list (gset key * HotkeyInfo)) (m : HotkeyManager)
  : HotkeyManager :=
  mkManager (listener m) (is_listening m) (pressed_keys m) h (debounce_ms m).

(** [d[k] = v]: an existing entry is replaced where it stands, a new one
    goes last. *)
Fixpoint dict_set (k : gset key) (v : HotkeyInfo)
    (d : list (gset key * HotkeyInfo)) : list (gset key * HotkeyInfo) :=
  match d with
  | [] => [(k, v)]
  | (k', v') :: r =>
      if decide (k' = k) then (k, v) :: r else (k', v') :: dict_set k v r
  end.

Fixpoint dict_lookup (k : gset key) (d : list (gset key * HotkeyInfo))
  : option HotkeyInfo :=
  match d with
  | [] => None
  | (k', v') :: r => if decide (k' = k) then Some v' else dict_lookup k r
  end.

Definition register_hotkey {U : Unicode} (hotkey_string : str)
    (on_press on_release : option Callback) (m : HotkeyManager)
  : HotkeyManager * bool :=
  match parse_hotkey hotkey_string with
  | None => (m, false)
  | Some keys =>
      let key_set := keys in
      (set_hotkeys
         (dict_set key_set (mkInfo on_press on_release hotkey_string false 0)
                   (hotkeys m)) m,
       true)
  end.

Definition _normalize_key (k : key) : key :=
  if bool_decide (k = Key "ctrl_l") || bool_decide (k = Key "ctrl_r") then Key "ctrl"
  else if bool_decide (k = Key "alt_l") || bool_decide (k = Key "alt_r") then Key "alt"
  else if bool_decide (k = Key "shift_l") || bool_decide (k = Key "shift_r") then Key "shift"
  else if bool_decide (k = Key "cmd_l") || bool_decide (k = Key "cmd_r") then Key "cmd"
  else k.

(** [_trigger_callback] starts a thread that runs the callback; the model
    records the callbacks dispatched, in order. *)
Definition _trigger_callback (cb : Callback) : list Callback := [cb].

Definition fire (cb : option Callback) : list Callback :=
  match cb with
  | Some c => _trigger_callback c
  | None => []
  end.

(** One iteration of the loop of [_check_hotkey_matches]. *)
Definition match_one (pressed : gset key) (e : gset key * HotkeyInfo)
  : (gset key * HotkeyInfo) * list Callback :=
  let '(key_combination, hotkey_info) := e in
  if bool_decide (key_combination ⊆ pressed) then
    if negb (is_active hotkey_info) then
      ((key_combination, set_is_active true hotkey_info),
       fire (on_press hotkey_info))
    else (e, [])
  else (e, []).

(** One iteration of the loop of [_check_hotkey_releases]. *)
Definition release_one (pressed : gset key) (e : gset key * HotkeyInfo)
  : (gset key * HotkeyInfo) * list Callback :=
  let '(key_combination, hotkey_info) := e in
  if is_active hotkey_info then
    if negb (bool_decide (key_combination ⊆ pressed)) then
      ((key_combination, set_is_active false hotkey_info),
       fire (on_release hotkey_info))
    else (e, [])
  else (e, []).

(** A [for ... in self.hotkeys.items()] loop: the entries in order, the
    callbacks dispatched in order. *)
Fixpoint for_items
    (body : gset key * HotkeyInfo -> (gset key * HotkeyInfo) * list Callback)
    (d : list (gset key * HotkeyInfo))
  : list (gset key * HotkeyInfo) * list Callback :=
  match d with
  | [] => ([], [])
  | e :: r =>
      let '(e', fired) := body e in
      let '(r', fired') := for_items body r in
      (e' :: r', fired ++ fired')
  end.

Definition _check_hotkey_matches (m : HotkeyManager)
  : HotkeyManager * list Callback :=
  let '(h, fired) := for_items (match_one (pressed_keys m)) (hotkeys m) in
  (set_hotkeys h m, fired).

Definition _check_hotkey_releases (m : HotkeyManager)
  : HotkeyManager * list Callback :=
  let '(h, fired) := for_items (release_one (pressed_keys m)) (hotkeys m) in
  (set_hotkeys h m, fired).

Definition _on_press (k : key) (m : HotkeyManager)
  : HotkeyManager * list Callback :=
  let k := _normalize_key k in
  _check_hotkey_matches (set_pressed (pressed_keys m ∪ {[ k ]}) m).

Definition _on_release (k : key) (m : HotkeyManager)
  : HotkeyManager * list Callback :=
  let k := _normalize_key k in
  _check_hotkey_releases (set_pressed (pressed_keys m ∖ {[ k ]}) m).


(** [stop_listening] returns the listener operations and the callbacks it
    dispatched: it has no call to [_trigger_callback]. *)
Definition stop_listening (m : HotkeyManager)
  : HotkeyManager * list ListenerOp * list Callback :=
  let ops := match listener m with Some _ => [ListenerStopped] | None => [] end in
  (mkManager None false ∅
             (map (fun e => (fst e, set_is_active false (snd e))) (hotkeys m))
             (debounce_ms m),
   ops, []).

(** A keyboard event as the listener delivers it. *)
Inductive event := Press (k : key) | Release (k : key).

Definition handle (ev : event) (m : HotkeyManager)
  : HotkeyManager * list Callback :=
  match ev with
  | Press k => _on_press k m
  | Release k => _on_release k m
  end.

(** A sequence of events: the final manager and every callback
    dispatched, in order. *)
Fixpoint run (evs : list event) (m : HotkeyManager)
  : HotkeyManager * list Callback :=
  match evs with
  | [] => (m, [])
  | ev :: r =>
      let '(m1, f1) := handle ev m in
      let '(m2, f2) := run r m1 in
      (m2, f1 ++ f2)
  end.

(** *** Vocabulary of the statements about the manager *)

(** A call of [register_hotkey]: the string and the two callbacks. *)
Definition registration : Type := str * option Callback * option Callback.

(** The registrations of a list, made in order. *)
Definition register_all {U : Unicode} (regs : list registration)
    (m : HotkeyManager)
  : HotkeyManager :=
  fold_left
    (fun m r => fst (register_hotkey (fst (fst r)) (snd (fst r)) (snd r) m))
    regs m.

(** Every registration is Active exactly when its keys are all down. *)
Definition consistent (m : HotkeyManager) : Prop :=
  Forall (fun e => is_active (snd e) = bool_decide (fst e ⊆ pressed_keys m))
         (hotkeys m).

(** Every registration is Idle. *)
Definition all_idle (m : HotkeyManager) : Prop :=
  Forall (fun e => is_active (snd e) = false) (hotkeys m).

(** The keys of [e] are not all in [p] and are all in [p']: a press edge
    from [p] to [p']. [falling] is the release edge. *)
Definition rising (p p' : gset key) (e : gset key * HotkeyInfo) : bool :=
  bool_decide (fst e ⊆ p') && negb (bool_decide (fst e ⊆ p)).

Definition falling (p p' : gset key) (e : gset key * HotkeyInfo) : bool :=
  bool_decide (fst e ⊆ p) && negb (bool_decide (fst e ⊆ p')).

(** A hotkey string of five distinct keys, and one with an unknown token. *)
Definition five_keys : str := py "ctrl+alt+shift+cmd+a".
Definition ctrl_foo : str := py "ctrl+foo".

(** *** Vocabulary of further statements *)

(** [str(n)] for a number below 100. *)
Definition decimal (n : Z) : str :=
  if n <? 10 then [48 + n] else [48 + n / 10; 48 + n mod 10].

(** The token resolves to a key. *)
Definition resolved {U : Unicode} (p : str) : bool :=
  match _parse_single_key p with Some _ => true | None => false end.

(** The keys [_normalize_key] rewrites: the left and right variants of
    the four modifiers. *)
Definition sided (k : key) : bool :=
  bool_decide (k ∈ [Key "ctrl_l"; Key "ctrl_r"; Key "alt_l"; Key "alt_r";
                    Key "shift_l"; Key "shift_r"; Key "cmd_l"; Key "cmd_r"]).

(** [l] is [a], [b], [a], [b], ... *)
Fixpoint alternates (a b : Callback) (l : list Callback) : Prop :=
  match l with
  | [] => True
  | x :: r => x = a /\ alternates b a r
  end.

End Hotkey.

(** ** The cleanup pass *)

Module Cleanup.

(** The argument of [strip] in [clean_text]: the thirteen characters
    . , ! ? ; : double-quote ( ) [ ] { and }. *)
Definition STRIP_CHARS : str :=
  [46; 44; 33; 63; 59; 58; 34; 40; 41; 91; 93; 123; 125].

(** The base filler words of [VoiceTranscriber.__init__]. *)
Definition default_filler_words : gset str :=
  list_to_set
    [ py "um"; py "uh"; py "er"; py "ah"; py "like"; py "you know";
      py "so"; py "well"; py "hmm"; py "okay"; py "right"; py "actually";
      py "basically"; py "literally"; py "i mean"; py "sort of";
      py "kind of"; py "you see" ].

Section Passes.
Context {U : Unicode}.

(** [w.strip('.,!?;:...').lower()]. *)
Definition word_lower (w : str) : str := lower (strip_chars STRIP_CHARS w).

(** The [for filler_length in [3, 2, 1]] loop at index [i]: the length of
    the first window whose phrase is a filler, if any. *)
Fixpoint filler_at (filler_words : gset str) (original_words : list str)
    (i : nat) (lengths : list nat) : option nat :=
  match lengths with
  | [] => None
  | filler_length :: rest =>
      if (i + filler_length <=? length original_words)%nat then
        let phrase_words := take filler_length (drop i original_words) in
        let phrase_lower := join (py " ") (map word_lower phrase_words) in
        if bool_decide (phrase_lower ∈ filler_words) then Some filler_length
        else filler_at filler_words original_words i rest
      else filler_at filler_words original_words i rest
  end.

(** The [while i < len(original_words)] loop; each round advances [i], so
    [length original_words] rounds are enough (lemma [remove_loop_fuel]). *)
Fixpoint remove_loop (fuel : nat) (filler_words : gset str)
    (original_words : list str) (i : nat) (cleaned_words : list str)
  : list str :=
  match fuel with
  | O => cleaned_words
  | S fuel' =>
      if (i <? length original_words)%nat then
        match filler_at filler_words original_words i [3; 2; 1]%nat with
        | Some filler_length =>
            remove_loop fuel' filler_words original_words
                        (i + filler_length) cleaned_words
        | None =>
            remove_loop fuel' filler_words original_words (i + 1)
                        (cleaned_words ++ [nth i original_words []])
        end
      else cleaned_words
  end.

(** [re.sub(r'(\. )([a-zа-я])', lambda m: m.group(1) + m.group(2).upper(), text)]:
    a full stop, a space and a character of a..z or of U+0430..U+044F;
    the scan resumes after the three characters of a match. *)
Definition in_az_cyr (c : Z) : bool := in_range 97 122 c || in_range 1072 1103 c.

Fixpoint sub_after_period (s : str) : str :=
  match s with
  | [] => []
  | c0 :: t =>
      match t with
      | c1 :: c2 :: r =>
          if (c0 =? 46) && (c1 =? 32) && in_az_cyr c2
          then c0 :: c1 :: upper [c2] ++ sub_after_period r
          else c0 :: sub_after_period t
      | _ => c0 :: sub_after_period t
      end
  end.

(** [re.sub(r'\s+', ' ', text)]: each maximal run of whitespace becomes
    one space (emitted at the last character of the run). *)
Fixpoint sub_spaces (s : str) : str :=
  match s with
  | [] => []
  | c :: r =>
      if isspace c then
        match r with
        | c' :: _ => if isspace c' then sub_spaces r else 32 :: sub_spaces r
        | [] => [32]
        end
      else c :: sub_spaces r
  end.

(** [re.sub(r'\s+([.!?,:;])', r'\1', text)]: a run of whitespace that
    ends at one of . ! ? , : ; is dropped, character by character. *)
Definition CLOSING : str := [46; 33; 63; 44; 58; 59].

Definition punct_follows (r : str) : bool :=
  match lstrip_by isspace r with
  | p :: _ => mem p CLOSING
  | [] => false
  end.

Fixpoint sub_space_before_punct (s : str) : str :=
  match s with
  | [] => []
  | c :: r =>
      if isspace c && punct_follows r then sub_space_before_punct r
      else c :: sub_space_before_punct r
  end.

(** [re.sub(r'\bi\b', 'I', text)]: a letter i with no word character on
    either side; [prev] is the character before [s]. *)
Fixpoint sub_i (prev : option Z) (s : str) : str :=
  match s with
  | [] => []
  | c :: r =>
      let left := match prev with None => true | Some p => negb (is_word p) end in
      let right := match r with [] => true | n :: _ => negb (is_word n) end in
      (if (c =? 105) && left && right then 73 else c) :: sub_i (Some c) r
  end.

Definition improve_grammar (text : str) : str :=
  match text with
  | [] => []
  | c :: rest =>
      let text := if (1 <? length text)%nat then upper [c] ++ rest else upper text in
      let text := sub_after_period text in
      let text := sub_spaces text in
      let text := sub_space_before_punct text in
      let text := sub_i None text in
      strip text
  end.

(** [remove_fillers] is the [REMOVE_FILLER_WORDS] setting. *)
Definition clean_text (remove_fillers : bool) (filler_words : gset str)
    (text : str) : str :=
  match text with
  | [] => []
  | _ =>
      let original_words := split_ws text in
      let original_words :=
        if remove_fillers
        then remove_loop (length original_words) filler_words original_words 0 []
        else original_words in
      let cleaned_text := join (py " ") original_words in
      improve_grammar cleaned_text
  end.

End Passes.

(** The Greek text alpha, full stop, space, beta; and the Cyrillic text
    a, full stop, space, io (U+0451). *)
Definition alpha_beta : str := [945; 46; 32; 946].
Definition a_io : str := [1072; 46; 32; 1105].

(** *** Vocabulary of further statements *)

(** No two neighbouring characters of [s] are both whitespace. *)
Fixpoint no_ws_pair (s : str) : bool :=
  match s with
  | a :: r =>
      match r with
      | b :: _ => negb (isspace a && isspace b) && no_ws_pair r
      | [] => true
      end
  | [] => true
  end.

(** No whitespace character of [s] comes right before one of . ! ? , : ; *)
Fixpoint no_ws_before_punct (s : str) : bool :=
  match s with
  | a :: r =>
      match r with
      | b :: _ => negb (isspace a && mem b CLOSING) && no_ws_before_punct r
      | [] => true
      end
  | [] => true
  end.

(** [s] has no whitespace at either end, no two whitespace characters in
    a row and no whitespace right before closing punctuation. *)
Definition tidy (s : str) : Prop :=
  no_ws_pair s = true /\ no_ws_before_punct s = true /\
  (forall c, head s = Some c -> isspace c = false) /\
  (forall c, last s = Some c -> isspace c = false).

End Cleanup.

(** ** The transcriber: recording, finalisation, transcription *)

Module Transcriber.

Import Cleanup.

Definition bytes := list Byte.byte.

(** The outcome of a call that may raise; [msg] is [str(e)]. *)
Inductive result (A : Type) :=
  | Ok (a : A)
  | Raise (msg : str).
Arguments Ok {A} a.
Arguments Raise {A} msg.

(** Log records of level INFO and above (the level configured at the top
    of the file); the text is the message without its pictogram and
    without formatted numbers. *)
Inductive Level := INFO | WARNING | ERROR.

#[global] Instance Level_eq_dec : EqDecision Level.
Proof. solve_decision. Defined.

(** The settings read from the environment and fixed at start-up. *)
Record Config := mkConfig {
  chunk : Z;
  channels : Z;
  rate : Z;
  sample_size : Z;          (* audio.get_sample_size(self.format) *)
  record_seconds : Z;       (* MAX_RECORDING_TIME *)
  max_memory_mb : Q;        (* MAX_MEMORY_MB *)
  remove_fillers : bool;    (* REMOVE_FILLER_WORDS *)
  filler_words : gset str
}.

(** What [wave] wrote: the header fields and the frames. *)
Record Wav := mkWav {
  nchannels : Z;
  sampwidth : Z;
  framerate : Z;
  frames : bytes
}.

(** A file: just created and still empty, or a written waveform. *)
Inductive file := EmptyFile | WavFile (w : Wav).

(** An open PyAudio input stream. *)
Inductive Stream := InputStream.

(** The transcriber object together with the world it acts on: the
    file system, the log, the texts handed to [type_text], the number
    of requests the transcription backend has received, and what
    [os.remove] answers for a path that exists. *)
Record VT := mkVT {
  is_recording : bool;
  audio_frames : list bytes;
  stream : option Stream;
  temp_files : gset string;
  hotkey_manager : Hotkey.HotkeyManager;
  fs : gmap string file;
  log : list (Level * str);
  typed : list str;
  api_calls : nat;
  os_remove : string -> result unit
}.

Definition set_is_recording (b : bool) (s : VT) : VT :=
  mkVT b (audio_frames s) (stream s) (temp_files s) (hotkey_manager s)
       (fs s) (log s) (typed s) (api_calls s) (os_remove s).
Definition set_audio_frames (f : list bytes) (s : VT) : VT :=
  mkVT (is_recording s) f (stream s) (temp_files s) (hotkey_manager s)
       (fs s) (log s) (typed s) (api_calls s) (os_remove s).
Definition set_stream (x : option Stream) (s : VT) : VT :=
  mkVT (is_recording s) (audio_frames s) x (temp_files s) (hotkey_manager s)
       (fs s) (log s) (typed s) (api_calls s) (os_remove s).
Definition set_temp_files (t : gset string) (s : VT) : VT :=
  mkVT (is_recording s) (audio_frames s) (stream s) t (hotkey_manager s)
       (fs s) (log s) (typed s) (api_calls s) (os_remove s).
Definition set_hotkey_manager (m : Hotkey.HotkeyManager) (s : VT) : VT :=
  mkVT (is_recording s) (audio_frames s) (stream s) (temp_files s) m
       (fs s) (log s) (typed s) (api_calls s) (os_remove s).
Definition set_fs (f : gmap string file) (s : VT) : VT :=
  mkVT (is_recording s) (audio_frames s) (stream s) (temp_files s)
       (hotkey_manager s) f (log s) (typed s) (api_calls s) (os_remove s).
Definition set_typed (t : list str) (s : VT) : VT :=
  mkVT (is_recording s) (audio_frames s) (stream s) (temp_files s)
       (hotkey_manager s) (fs s) (log s) t (api_calls s) (os_remove s).
Definition set_api_calls (n : nat) (s : VT) : VT :=
  mkVT (is_recording s) (audio_frames s) (stream s) (temp_files s)
       (hotkey_manager s) (fs s) (log s) (typed s) n (os_remove s).

(** [logger.info/warning/error]: the newest record goes last. *)
Definition logger (l : Level) (msg : str) (s : VT) : VT :=
  mkVT (is_recording s) (audio_frames s) (stream s) (temp_files s)
       (hotkey_manager s) (fs s) (log s ++ [(l, msg)]) (typed s) (api_calls s) (os_remove s).

(** A transcriber as [__init__] leaves it, on an empty file system
    where every removal succeeds. *)
Definition fresh (m : Hotkey.HotkeyManager) : VT :=
  mkVT false [] None ∅ m ∅ [] [] 0 (fun _ => Ok ()).

(** [a > b] on rationals. *)
Definition Qgtb (a b : Q) : bool := negb (Qle_bool a b).

(** *** The recording loop *)

(** What one round of the [while self.is_recording] loop meets:
    whether [stop_recording] has cleared the flag by the time of the
    test, the clock at the top of the round, the [maxInputChannels] the
    device reports (or the error of asking), what [stream.is_active()]
    and [stream.read()] answer, and the clock after the read. *)
Record Tick := mkTick {
  tk_stop : bool;
  tk_now : Q;
  tk_channels : result Z;
  tk_active : result bool;
  tk_read : result bytes;
  tk_after : Q
}.

Definition _check_device_available (tk : Tick) : bool :=
  match tk_channels tk with
  | Ok n => n >? 0
  | Raise _ => false
  end.

(** Why the loop was left. The source leaves by [break] or by the loop
    test; the reason names the place. [Running]: the given rounds are
    used up and the loop is still going. *)
Inductive LoopExit :=
  | Running
  | FlagCleared
  | DeviceLost
  | StreamInactive
  | MemoryLimit
  | TimeLimit
  | StreamError
  | OpenFailed.

#[global] Instance LoopExit_eq_dec : EqDecision LoopExit.
Proof. solve_decision. Defined.

Definition _cleanup_stream (s : VT) : VT :=
  match stream s with
  | Some _ => set_stream None s
  | None => s
  end.

Fixpoint record_loop (cfg : Config) (ticks : list Tick)
    (start_time last_device_check : Q) (estimated_memory : Z) (s : VT)
  : LoopExit * VT :=
  match ticks with
  | [] => (Running, s)
  | tk :: rest =>
      let s := if tk_stop tk then set_is_recording false s else s in
      if negb (is_recording s) then (FlagCleared, s)
      else
        let current_time := tk_now tk in
        let due := Qgtb (current_time - last_device_check) 2 in
        if due && negb (_check_device_available tk) then
          (DeviceLost, logger ERROR (py "Audio device became unavailable") s)
        else
          let last_device_check :=
            if due then current_time else last_device_check in
          (* the [except Exception as e] branch of the round *)
          let on_error (e : str) :=
            let s := logger ERROR (py "Error reading audio: " ++ e) s in
            if contains (py "Input overflowed") e then
              record_loop cfg rest start_time last_device_check
                estimated_memory
                (logger WARNING
                   (py "Input overflow detected, continuing recording") s)
            else (StreamError, s) in
          match tk_active tk with
          | Raise e => on_error e
          | Ok false =>
              (StreamInactive,
               logger ERROR (py "Audio stream became inactive") s)
          | Ok true =>
              match tk_read tk with
              | Raise e => on_error e
              | Ok data =>
                  let s := set_audio_frames (audio_frames s ++ [data]) s in
                  let chunk_memory := Z.of_nat (length data) in
                  let estimated_memory := estimated_memory + chunk_memory in
                  if Qgtb (inject_Z estimated_memory)
                          (max_memory_mb cfg * 1024 * 1024) then
                    (MemoryLimit,
                     logger WARNING (py "Memory limit reached") s)
                  else if Qgtb (tk_after tk - start_time)
                               (inject_Z (record_seconds cfg)) then
                    (TimeLimit,
                     logger INFO (py "Maximum recording time reached") s)
                  else
                    record_loop cfg rest start_time last_device_check
                      estimated_memory s
              end
          end
  end.

(** [_record_audio]: [open_result] is what [self.audio.open] answers,
    [start_time] and [last_device_check] the two clock readings before
    the loop. The [finally] clause runs once the loop is left.
    [max_memory_mb cfg] is what [float] makes of [MAX_MEMORY_MB]: a
    value [float] rejects is not covered. *)
Definition _record_audio (cfg : Config) (open_result : result unit)
    (start_time last_device_check : Q) (ticks : list Tick) (s : VT)
  : LoopExit * VT :=
  let s := _cleanup_stream s in
  match open_result with
  | Raise e =>
      let s := logger ERROR (py "Error during recording: " ++ e) s in
      let s :=
        if contains (py "Invalid sample rate") e then
          logger INFO (py "Try adjusting the sample rate in your .env file") s
        else if contains (py "Device unavailable") e then
          logger INFO (py "Check your microphone connection and permissions") s
        else s in
      (OpenFailed, _cleanup_stream s)
  | Ok _ =>
      let s := set_stream (Some InputStream) s in
      let s := set_is_recording true s in
      let s := set_audio_frames [] s in
      let s := logger INFO (py "Recording...") s in
      match record_loop cfg ticks start_time last_device_check 0 s with
      | (Running, s) => (Running, s)
      | (why, s) => (why, _cleanup_stream s)
      end
  end.

(** [stop_recording]: the boolean tells whether the processing thread
    was started. *)
Definition stop_recording (s : VT) : VT * bool :=
  let s := set_is_recording false s in
  let s := _cleanup_stream s in
  match audio_frames s with
  | [] => (logger WARNING (py "No audio data recorded") s, false)
  | _ => (s, true)
  end.

(** *** Finalisation: the audio file *)

(** [save_audio_to_file]: [tmp] is what [tempfile.NamedTemporaryFile]
    answers (the name of the file it created), [write] what writing the
    waveform answers. When [NamedTemporaryFile] itself raises, the
    handler reads the unbound local [temp_file] and the function raises.
    When the writing raises, the handler removes the file if it can: an
    [os.remove] that raises is passed over and leaves the file. *)
Definition save_audio_to_file (cfg : Config) (tmp : result string)
    (write : result unit) (s : VT) : result (option string) * VT :=
  match audio_frames s with
  | [] => (Ok None, s)
  | _ =>
      match tmp with
      | Raise e =>
          (Raise (py "local variable 'temp_file' is not bound"),
           logger ERROR (py "Error saving audio file: " ++ e) s)
      | Ok name =>
          let s := set_fs (<[name := EmptyFile]> (fs s)) s in
          let s := set_temp_files (temp_files s ∪ {[ name ]}) s in
          match write with
          | Ok _ =>
              let w := mkWav (channels cfg) (sample_size cfg) (rate cfg)
                             (concat (audio_frames s)) in
              (Ok (Some name), set_fs (<[name := WavFile w]> (fs s)) s)
          | Raise e =>
              let s := logger ERROR (py "Error saving audio file: " ++ e) s in
              let s :=
                if bool_decide (is_Some (fs s !! name)) then
                  match os_remove s name with
                  | Ok _ => set_fs (delete name (fs s)) s
                  | Raise _ => s
                  end
                else s in
              (Ok None, s)
          end
      end
  end.

(** *** The transcription call *)

(** The transcription backend: its answer to the request numbered [n]
    (counting from 0) that carries the given file. *)
Definition Backend := nat -> file -> result str.

(** The body of [transcribe_audio]: one attempt. *)
Definition transcribe_once (backend : Backend) (audio_file_path : string)
    (s : VT) : result str * VT :=
  match fs s !! audio_file_path with
  | None =>
      let e := py "No such file or directory" in
      (Raise e, logger ERROR (py "Error during transcription: " ++ e) s)
  | Some audio_file =>
      let n := api_calls s in
      let s := set_api_calls (S n) s in
      match backend n audio_file with
      | Ok text =>
          (Ok text,
           logger INFO (py "Raw transcription: '" ++ text ++ py "'") s)
      | Raise e =>
          (Raise e, logger ERROR (py "Error during transcription: " ++ e) s)
      end
  end.

(** [@retry(stop=stop_after_attempt(n), wait=...)] around [body]: [body]
    is called again after each exception until [n] attempts were made,
    then tenacity raises [RetryError]. The waits between the attempts
    change nothing the model observes. *)
Fixpoint retry (stop_after_attempt : nat) (body : VT -> result str * VT)
    (s : VT) : result str * VT :=
  match stop_after_attempt with
  | O => (Raise (py "RetryError"), s)
  | S n =>
      match body s with
      | (Ok text, s) => (Ok text, s)
      | (Raise _, s) => retry n body s
      end
  end.

Definition transcribe_audio (backend : Backend) (audio_file_path : string)
    (s : VT) : result str * VT :=
  retry 3 (transcribe_once backend audio_file_path) s.

(** [type_text], the injection step: the model records the text it was
    called with; whatever fails inside is caught inside. *)
Definition type_text (text : str) (s : VT) : VT :=
  set_typed (typed s ++ [text])
            (logger INFO (py "Typing text: '" ++ text ++ py "'") s).

Section Pipeline.
Context {U : Unicode}.

(** [self.clean_text] with its two log records. *)
Definition clean_text_logged (cfg : Config) (text : str) (s : VT) : str * VT :=
  match text with
  | [] => ([], s)
  | _ =>
      let s := logger INFO (py "Cleaning text: '" ++ text ++ py "'") s in
      let cleaned_text := clean_text (remove_fillers cfg) (filler_words cfg) text in
      (cleaned_text,
       logger INFO (py "Cleaned text: '" ++ cleaned_text ++ py "'") s)
  end.

(** [_process_audio]: the [finally] clause is [pass]. *)
Definition _process_audio (cfg : Config) (tmp : result string)
    (write : result unit) (backend : Backend) (s : VT) : VT :=
  match save_audio_to_file cfg tmp write s with
  | (Raise e, s) => logger ERROR (py "Processing error: " ++ e) s
  | (Ok None, s) => logger ERROR (py "Failed to save audio file") s
  | (Ok (Some audio_file), s) =>
      let s := logger INFO (py "Transcribing audio...") s in
      match transcribe_audio backend audio_file s with
      | (Raise e, s) => logger ERROR (py "Processing error: " ++ e) s
      | (Ok [], s) => logger WARNING (py "No text transcribed") s
      | (Ok text, s) =>
          let '(cleaned_text, s) := clean_text_logged cfg text s in
          match cleaned_text with
          | [] => logger WARNING (py "No text to type after cleaning") s
          | _ => type_text cleaned_text s
          end
      end
  end.

(** The release of the hotkey: [stop_recording], then the processing
    thread when it was started. *)
Definition release (cfg : Config) (tmp : result string)
    (write : result unit) (backend : Backend) (s : VT) : VT :=
  let '(s, started) := stop_recording s in
  if started then _process_audio cfg tmp write backend s else s.

End Pipeline.

(** *** Shutdown *)

(** The body of the [for temp_file in self.temp_files] loop: a file
    that exists is removed; when [os.remove] raises, the file stays and
    a warning is logged. *)
Definition remove_if_exists (s : VT) (temp_file : string) : VT :=
  if bool_decide (is_Some (fs s !! temp_file)) then
    match os_remove s temp_file with
    | Ok _ => set_fs (delete temp_file (fs s)) s
    | Raise e =>
        logger WARNING
          (py "Failed to remove temporary file " ++ py temp_file
           ++ py ": " ++ e) s
    end
  else s.

(** [cleanup]: [listener_stop] is what [self.listener.stop()] answers
    and [terminate] what [self.audio.terminate()] answers ([Ok] also
    stands for no call, when [self.audio] is [None]). An exception
    of either leaves the [try] block for its handler, which logs it: a
    [stop()] that raises leaves the manager as it is, and either skips
    the removal of the files. The boolean tells whether [stop_recording]
    started a processing thread on the way. *)
Definition cleanup (listener_stop terminate : result unit) (s : VT)
  : VT * bool :=
  let '(s, started) :=
    if is_recording s then stop_recording s else (s, false) in
  match Hotkey.listener (hotkey_manager s), listener_stop with
  | Some _, Raise e =>
      (logger ERROR (py "Error during cleanup: " ++ e) s, started)
  | _, _ =>
      let '(m, _, _) := Hotkey.stop_listening (hotkey_manager s) in
      let s := set_hotkey_manager m s in
      let s := _cleanup_stream s in
      match terminate with
      | Raise e =>
          (logger ERROR (py "Error during cleanup: " ++ e) s, started)
      | Ok _ =>
          (fold_left remove_if_exists (elements (temp_files s)) s, started)
      end
  end.

(** *** Vocabulary of the statements about the transcriber *)

(** The chunk a round appends to [audio_frames] when the loop goes on
    after it: the data read, or nothing when the round ended in the
    overflow handler. *)
Definition tick_chunk (tk : Tick) : option bytes :=
  match tk_active tk, tk_read tk with
  | Ok true, Ok data => Some data
  | _, _ => None
  end.

(** [len(b''.join(frames))]. *)
Definition total_bytes (fr : list bytes) : Z := Z.of_nat (length (concat fr)).

(** The file [save_audio_to_file] writes for the frames [fr]. *)
Definition wav_of (cfg : Config) (fr : list bytes) : file :=
  WavFile (mkWav (channels cfg) (sample_size cfg) (rate cfg) (concat fr)).

Definition files_of (s : VT) : gmap string file * gset string :=
  (fs s, temp_files s).

(** [cleanup] gets as far as its removal loop: [listener.stop()], which
    is called when there is a listener, does not raise, and
    [terminate()] does not raise. *)
Definition reaches_removal (listener_stop terminate : result unit) (s : VT)
  : bool :=
  match Hotkey.listener (hotkey_manager s), listener_stop, terminate with
  | Some _, Raise _, _ => false
  | _, _, Raise _ => false
  | _, _, Ok _ => true
  end.

(** The backend raises on its request number [k]; it answers [text]. *)
Definition fails (backend : Backend) (k : nat) : Prop :=
  forall f : file, exists e : str, backend k f = Raise e.

Definition answers (backend : Backend) (k : nat) (text : str) : Prop :=
  forall f : file, backend k f = Ok text.

(** *** Concrete sessions *)

(** The default settings: chunk 2048, mono, 16 kHz, 16-bit samples, 30
    seconds, 100 MB. [cfg_tiny] has a ceiling of one byte. *)
Definition cfg0 : Config :=
  mkConfig 2048 1 16000 2 30 100 true default_filler_words.
Definition cfg_tiny : Config :=
  mkConfig 2048 1 16000 2 30 (1 # 1048576) true default_filler_words.

Definition chunk0 : bytes := [Byte.x01; Byte.x02].

(** A round one second in that reads [chunk0]; a round at 3.5 seconds
    in which the device reports no input channel. *)
Definition tick_ok : Tick := mkTick false 1 (Ok 1) (Ok true) (Ok chunk0) 1.
Definition tick_lost : Tick :=
  mkTick false (7 # 2) (Ok 0) (Ok true) (Ok chunk0) (7 # 2).

Definition vt0 : VT := fresh Hotkey.init.

(** A transcriber holding one recorded chunk. *)
Definition vt_recorded : VT := set_audio_frames [chunk0] vt0.

(** A transcriber holding one recorded chunk, on a system that refuses
    every removal. *)
Definition vt_locked : VT :=
  mkVT false [chunk0] None ∅ Hotkey.init ∅ [] [] 0
       (fun _ => Raise (py "Permission denied")).

(** A transcriber whose file system holds the written file [tmp.wav]. *)
Definition vt_saved : VT :=
  set_fs {[ "tmp.wav"%string := wav_of cfg0 [chunk0] ]} vt0.

(** Backends: one that always answers, one that raises twice and then
    answers, one that always raises. *)
Definition backend_hello : Backend := fun _ _ => Ok (py "uh hello world").
Definition backend_third : Backend :=
  fun n _ => match n with
             | 2%nat => Ok (py "uh hello world")
             | _ => Raise (py "rate limited")
             end.
Definition backend_down : Backend := fun _ _ => Raise (py "rate limited").

(** The session of the two rounds above; the release that follows it;
    a one-round session under the one-byte ceiling; the processing of one
    recorded chunk with a backend that answers and with one that is down. *)
Definition session_lost : LoopExit * VT :=
  _record_audio cfg0 (Ok ()) 0 0 [tick_ok; tick_lost] vt0.
Definition session_lost_released : VT :=
  release cfg0 (Ok "tmp.wav"%string) (Ok ()) backend_hello (snd session_lost).
Definition session_full : LoopExit * VT :=
  _record_audio cfg_tiny (Ok ()) 0 0 [tick_ok] vt0.
Definition processed_hello : VT :=
  _process_audio cfg0 (Ok "tmp.wav"%string) (Ok ()) backend_hello vt_recorded.
Definition processed_down : VT :=
  _process_audio cfg0 (Ok "tmp.wav"%string) (Ok ()) backend_down vt_recorded.

(** *** Start-up: the input device, PyAudio and the hotkey *)

Definition MAX_RETRIES : nat := 3.
Definition RETRY_WAIT_SECONDS : Z := 2.

Record DeviceInfo := mkDevice {
  dev_name : str;
  maxInputChannels : Z
}.

(** What PyAudio answers during one call of [get_input_device]. *)
Record AudioHost := mkAudioHost {
  pa_new : result unit;                    (* pyaudio.PyAudio() *)
  default_input : result (str * Z);        (* name and index of the default device *)
  device_count : result nat;               (* audio.get_device_count() *)
  device_info : nat -> result DeviceInfo;  (* audio.get_device_info_by_index(i) *)
  pa_terminate : result unit               (* audio.terminate() *)
}.

(** The [for i in range(...)] loop of the fallback, from index [i] over
    [n] more indices: the first device that reports an input channel. *)
Fixpoint find_input (info : nat -> result DeviceInfo) (i n : nat)
  : option (nat * str) :=
  match n with
  | O => None
  | S n' =>
      match info i with
      | Ok d =>
          if maxInputChannels d >? 0 then Some (i, dev_name d)
          else find_input info (S i) n'
      | Raise _ => find_input info (S i) n'
      end
  end.

(** [get_input_device]: the value returned (or the exception that
    leaves the handler) and the records logged. *)
Definition get_input_device (h : AudioHost)
  : result (option Z) * list (Level * str) :=
  match pa_new h with
  | Raise e =>
      (Ok None,
       [(WARNING, py "Warning: Could not get default input device: " ++ e)])
  | Ok _ =>
      let '(r, l) :=
        match default_input h with
        | Ok (name, index) =>
            (Ok (Some index), [(INFO, py "Using input device: " ++ name)])
        | Raise e =>
            let w :=
              (WARNING, py "Warning: Could not get default input device: " ++ e) in
            match device_count h with
            | Raise e' => (Raise e', [w])
            | Ok n =>
                match find_input (device_info h) 0 n with
                | Some (i, name) =>
                    (Ok (Some (Z.of_nat i)),
                     [w; (INFO, py "Using alternative input device: " ++ name)])
                | None => (Ok None, [w])
                end
            end
        end in
      (r, l ++ match pa_terminate h with
               | Ok _ => []
               | Raise e => [(ERROR, py "Failed to terminate PyAudio: " ++ e)]
               end)
  end.

(** What one round of [_initialize_audio] meets: the answers to
    [get_input_device], to [pyaudio.PyAudio()], to opening the test
    stream and to closing it. *)
Record Attempt := mkAttempt {
  at_host : AudioHost;
  at_new : result unit;
  at_open : result unit;
  at_close : result unit
}.

(** The part of the transcriber [_initialize_audio] works on, with the
    calls to [terminate] and to [time.sleep] counted. *)
Record AudioInit := mkInit {
  input_device_index : option Z;
  audio : bool;
  terminations : nat;
  sleeps : nat;
  init_log : list (Level * str)
}.

Definition init0 : AudioInit := mkInit None false 0 0 [].

Definition init_logged (l : list (Level * str)) (st : AudioInit) : AudioInit :=
  mkInit (input_device_index st) (audio st) (terminations st) (sleeps st)
         (init_log st ++ l).

(** The [try] body of one round. *)
Definition try_audio (a : Attempt) (st : AudioInit) : result unit * AudioInit :=
  let '(r, l) := get_input_device (at_host a) in
  let st := init_logged l st in
  match r with
  | Raise e => (Raise e, st)
  | Ok idx =>
      let st := mkInit idx (audio st) (terminations st) (sleeps st) (init_log st) in
      match idx with
      | None => (Raise (py "No working input device found"), st)
      | Some _ =>
          match at_new a with
          | Raise e => (Raise e, st)
          | Ok _ =>
              let st := mkInit (input_device_index st) true (terminations st)
                               (sleeps st) (init_log st) in
              match at_open a with
              | Raise e => (Raise e, st)
              | Ok _ =>
                  match at_close a with
                  | Raise e => (Raise e, st)
                  | Ok _ => (Ok (), st)
                  end
              end
          end
      end
  end.

(** The [except] clause of a round up to the test of the count: the
    warning, and [terminate] when [self.audio] is set. *)
Definition failed_round (e : str) (st : AudioInit) : AudioInit :=
  let st :=
    init_logged [(WARNING, py "Failed to initialize audio: " ++ e)] st in
  if audio st
  then mkInit (input_device_index st) (audio st) (S (terminations st))
              (sleeps st) (init_log st)
  else st.

(** [time.sleep(RETRY_WAIT_SECONDS)]. *)
Definition slept (st : AudioInit) : AudioInit :=
  mkInit (input_device_index st) (audio st) (terminations st)
         (S (sleeps st)) (init_log st).

(** The [while retry_count < MAX_RETRIES] loop; [fuel] bounds the
    rounds. *)
Fixpoint initialize_loop (fuel : nat) (attempts : nat -> Attempt)
    (retry_count : nat) (st : AudioInit) : result unit * AudioInit :=
  match fuel with
  | O => (Ok (), st)
  | S fuel' =>
      if (retry_count <? MAX_RETRIES)%nat then
        match try_audio (attempts retry_count) st with
        | (Ok _, st) => (Ok (), st)
        | (Raise e, st) =>
            let retry_count := S retry_count in
            let st := failed_round e st in
            if (retry_count <? MAX_RETRIES)%nat then
              initialize_loop fuel' attempts retry_count (slept st)
            else
              (Raise e,
               init_logged
                 [(ERROR, py "Failed to initialize audio after multiple attempts")]
                 st)
        end
      else (Ok (), st)
  end.

Definition _initialize_audio (attempts : nat -> Attempt) (st : AudioInit)
  : result unit * AudioInit :=
  initialize_loop MAX_RETRIES attempts 0 st.

Section Setup.
Context {U : Unicode}.

(** [_setup_hotkey]: the outcome, [self.hotkey_string], the manager and
    the records logged. *)
Definition _setup_hotkey (hotkey_string : str)
    (start_recording stop_recording : Hotkey.Callback) (m : Hotkey.HotkeyManager)
  : result unit * (str * Hotkey.HotkeyManager * list (Level * str)) :=
  let '(is_valid, error_msg) := Hotkey.validate_hotkey hotkey_string in
  let '(hotkey_string, l) :=
    if negb is_valid then
      (py "alt",
       [(WARNING, py "Invalid hotkey '" ++ hotkey_string ++ py "': " ++ error_msg);
        (INFO, py "Falling back to default 'alt' hotkey")])
    else (hotkey_string, []) in
  let '(m, success) :=
    Hotkey.register_hotkey hotkey_string (Some start_recording) (Some stop_recording) m in
  if negb success then
    let l := l ++ [(ERROR, py "Failed to register hotkey: " ++ hotkey_string)] in
    let hotkey_string := py "alt" in
    let '(m, success) :=
      Hotkey.register_hotkey hotkey_string (Some start_recording) (Some stop_recording) m in
    if success then
      (Ok (), (hotkey_string, m,
               l ++ [(INFO, py "Fallback to 'alt' hotkey successful")]))
    else (Raise (py "Failed to setup any working hotkey"), (hotkey_string, m, l))
  else (Ok (), (hotkey_string, m, l)).

End Setup.

(** A host with no default device whose first device is an output and
    whose second is a microphone. *)
Definition host_alt : AudioHost :=
  mkAudioHost (Ok ()) (Raise (py "no default")) (Ok 2%nat)
         (fun i => match i with
                   | O => Ok (mkDevice (py "speakers") 0)
                   | _ => Ok (mkDevice (py "mic") 2)
                   end)
         (Ok ()).

(** A round that fails on the test stream and one that succeeds. *)
Definition attempt_bad : Attempt :=
  mkAttempt host_alt (Ok ()) (Raise (py "Invalid sample rate")) (Ok ()).
Definition attempt_good : Attempt := mkAttempt host_alt (Ok ()) (Ok ()) (Ok ()).
Definition attempts_second : nat -> Attempt :=
  fun i => match i with O => attempt_bad | _ => attempt_good end.

(** Device [i] answers and reports an input channel. *)
Definition usable (h : AudioHost) (i : nat) : bool :=
  match device_info h i with
  | Ok d => maxInputChannels d >? 0
  | Raise _ => false
  end.


(** *** Further vocabulary and sessions *)

(** Everything outside the recorder itself. *)
Definition world (s : VT) :=
  (fs s, temp_files s, typed s, api_calls s, hotkey_manager s).

(** Everything but the log and the request counter. *)
Definition rest_of (s : VT) :=
  (is_recording s, audio_frames s, stream s, temp_files s, hotkey_manager s,
   fs s, typed s).

(** A round 31 seconds in that reads [chunk0]; a round whose read raises
    an error that is no overflow; the sessions that end on them. *)
Definition tick_late : Tick := mkTick false 31 (Ok 1) (Ok true) (Ok chunk0) 31.
Definition tick_broken : Tick :=
  mkTick false 1 (Ok 1) (Ok true) (Raise (py "Stream closed")) 1.
Definition session_timed : LoopExit * VT :=
  _record_audio cfg0 (Ok ()) 0 0 [tick_ok; tick_late] vt0.
Definition session_broken : LoopExit * VT :=
  _record_audio cfg0 (Ok ()) 0 0 [tick_ok; tick_broken] vt0.

End Transcriber.

(** ** Text injection *)

Module Typing.

Import Transcriber.

(** What [type_text] asks of the desktop. *)
Inductive Action :=
  | Copy (text : str)        (* pyperclip.copy(text) *)
  | PasteHotkey              (* pyautogui.hotkey('ctrl', 'v') *)
  | WriteText (text : str)       (* pyautogui.write(text, interval=interval) *)
  | WriteChar (c : Z)        (* pyautogui.write(char) *)
  | TypewriteKey (c : Z).    (* pyautogui.typewrite([char]) *)

#[global] Instance Action_eq_dec : EqDecision Action.
Proof. solve_decision. Defined.

(** What [pyautogui.write] of a whole text answers: it returns, or it
    raises after having typed some of the characters. *)
Inductive WriteAnswer :=
  | Wrote
  | WriteRaised (typed_before : nat) (e : str).

(** What the desktop answers during one call of [type_text]. *)
Record Desktop := mkDesktop {
  interval : result unit;            (* float(os.getenv('TYPING_INTERVAL', 0.01)) *)
  pyperclip : result unit;           (* import pyperclip *)
  copy : result unit;
  paste : result unit;
  write : WriteAnswer;
  write_char : nat -> result unit    (* typing character number [i] in the fallback *)
}.

(** [str.isascii]. *)
Definition isascii (s : str) : bool := forallb (fun c => c <? 128) s.

(** The [for char in text] loop of the fallback, from position [i]. *)
Fixpoint char_by_char (d : Desktop) (i : nat) (text : str)
  : list Action * list (Level * str) :=
  match text with
  | [] => ([], [])
  | c :: rest =>
      let '(acts, l) := char_by_char d (S i) rest in
      match write_char d i with
      | Ok _ => ((if c <? 128 then WriteChar c else TypewriteKey c) :: acts, l)
      | Raise e =>
          (acts,
           (WARNING, py "Failed to type character '" ++ [c] ++ py "': " ++ e) :: l)
      end
  end.

Section Methods.
Context {U : Unicode}.

(** Method 3, entered with the actions and records so far. *)
Definition fallback (d : Desktop) (text : str) (acts : list Action)
    (l : list (Level * str)) : list Action * list (Level * str) :=
  let l := l ++ [(INFO, py "Using character-by-character fallback...")] in
  let '(acts3, l3) := char_by_char d 0 text in
  (acts ++ acts3,
   l ++ l3 ++ [(INFO, py "Text typed using character-by-character method")]).

(** Method 2. *)
Definition direct (d : Desktop) (text : str) (acts : list Action)
    (l : list (Level * str)) : list Action * list (Level * str) :=
  match write d with
  | Wrote =>
      (acts ++ [WriteText text], l ++ [(INFO, py "Text typed using direct method")])
  | WriteRaised n e =>
      fallback d text (acts ++ [WriteText (take n text)])
        (l ++ [(WARNING, py "Direct method failed: " ++ e);
               (INFO, py "Falling back to character-by-character method...")])
  end.

(** The code after the clipboard block. *)
Definition after_clipboard (typing_method : str) (d : Desktop) (text : str)
    (acts : list Action) (l : list (Level * str))
  : list Action * list (Level * str) :=
  if bool_decide (typing_method = py "direct") then direct d text acts l
  else fallback d text acts l.

(** [type_text]: [typing_method] is the value of [TYPING_METHOD] (or its
    default [auto]). The result is what was asked of the desktop and
    what was logged. *)
Definition type_text (typing_method : str) (d : Desktop) (text : str)
  : list Action * list (Level * str) :=
  match interval d with
  | Raise e => ([], [(ERROR, py "Error typing text: " ++ e)])
  | Ok _ =>
      let l := [(INFO, py "Typing text: '" ++ text ++ py "'")] in
      let typing_method := lower typing_method in
      let '(typing_method, l) :=
        if bool_decide (typing_method = py "auto") then
          if negb (isascii text) then
            (py "clipboard",
             l ++ [(INFO, py "Detected non-ASCII characters, using clipboard method")])
          else
            (py "direct",
             l ++ [(INFO, py "Text is ASCII-only, using direct method")])
        else (typing_method, l) in
      if bool_decide (typing_method = py "clipboard") then
        let failed (e : str) (acts : list Action) :=
          after_clipboard (py "direct") d text acts
            (l ++ [(WARNING, py "Clipboard method failed: " ++ e);
                   (INFO, py "Falling back to direct method...")]) in
        match pyperclip d with
        | Raise e => failed e []
        | Ok _ =>
            match copy d with
            | Raise e => failed e []
            | Ok _ =>
                match paste d with
                | Raise e => failed e [Copy text]
                | Ok _ =>
                    ([Copy text; PasteHotkey],
                     l ++ [(INFO, py "Text typed using clipboard method")])
                end
            end
        end
      else after_clipboard typing_method d text [] l
  end.

(** The method [type_text] settles on before it tries any. *)
Definition chosen_method (typing_method : str) (text : str) : str :=
  let typing_method := lower typing_method in
  if bool_decide (typing_method = py "auto") then
    if negb (isascii text) then py "clipboard" else py "direct"
  else typing_method.

End Methods.

(** The characters the writing actions put on the screen. *)
Definition on_screen (a : Action) : str :=
  match a with
  | WriteText t => t
  | WriteChar c => [c]
  | _ => []
  end.

Definition uses_clipboard (a : Action) : bool :=
  match a with
  | Copy _ | PasteHotkey => true
  | _ => false
  end.

(** A desktop on which the whole-text write raises after two characters
    and everything else works. *)
Definition desktop_stuck : Desktop :=
  mkDesktop (Ok ()) (Ok ()) (Ok ()) (Ok ()) (WriteRaised 2 (py "fail-safe"))
            (fun _ => Ok ()).

End Typing.

(** ** The service installer ([install_service.py]) *)

Module Installer.

(** The commands the installer runs. *)
Inductive Cmd :=
  | ShowLoadState (service : string) (* systemctl --user show <service> --property=LoadState *)
  | DaemonReload                     (* systemctl --user daemon-reload *)
  | ImportEnvironment (var : string) (* systemctl --user import-environment <var> *)
  | Enable                           (* systemctl --user enable voice-transcriber.service *)
  | Start                            (* systemctl --user start voice-transcriber *)
  | IsActive                         (* systemctl --user is-active voice-transcriber *)
  | Stop                             (* systemctl --user stop voice-transcriber *)
  | Disable                          (* systemctl --user disable voice-transcriber *)
  | Status                           (* systemctl --user status voice-transcriber *)
  | Logs.                            (* journalctl --user -u voice-transcriber -f *)

#[global] Instance Cmd_eq_dec : EqDecision Cmd.
Proof. solve_decision. Defined.

(** What [subprocess.run] meets: the command returns with a code, the
    executable is not there ([FileNotFoundError]), or the user
    interrupts it. *)
Inductive Answer :=
  | Returned (code : Z)
  | NotFound
  | Interrupted.

(** The exceptions [main] tells apart; [OtherError] is any other
    [Exception]. *)
Inductive Exn :=
  | CalledProcessError
  | KeyboardInterrupt
  | OtherError
  | SystemExit (code : Z).

(** The unit file: the two paths of [ExecStart] and the [Environment]
    lines; the rest of the text is fixed. *)
Record ServiceFile := mkService {
  exec_start : option string * string;
  environment : list (string * string)
}.

(** The machine the installer runs on. *)
Record Host := mkHost {
  user_id : string;                  (* os.getuid(), in decimal *)
  script_path : string;
  script_exists : bool;
  python_path : option string;       (* the venv's python, else shutil.which("python3") *)
  python_exists : bool;              (* Path(python_path).exists() *)
  systemctl : bool;                  (* shutil.which("systemctl") *)
  groups_known : bool;               (* grp.getgrgid answers for every group *)
  environ : list (string * string);  (* os.environ *)
  can_write : bool;                  (* the unit file can be created and removed *)
  answer : Cmd -> Answer
}.

(** What the installer changes: the unit file and the commands run. *)
Record World := mkWorld {
  service_file : option ServiceFile;
  trace : list Cmd
}.

(** Code that may raise, over the world. *)
Definition M (A : Type) : Type := World -> (A + Exn) * World.

Definition ret {A} (a : A) : M A := fun w => (inl a, w).
Definition raise {A} (e : Exn) : M A := fun w => (inr e, w).
Definition bind {A B} (m : M A) (f : A -> M B) : M B :=
  fun w =>
    match m w with
    | (inl a, w') => f a w'
    | (inr e, w') => (inr e, w')
    end.

Declare Scope inst_scope.
Delimit Scope inst_scope with inst.
Notation "x <- m ;; k" := (bind m (fun x => k))
  (at level 100, m at next level, right associativity) : inst_scope.
Notation "m ;; k" := (bind m (fun _ => k))
  (at level 100, right associativity) : inst_scope.
Local Open Scope inst_scope.

(** [os.environ.get(k, default)] and [k in os.environ]. *)
Fixpoint getenv (env : list (string * string)) (k default : string) : string :=
  match env with
  | [] => default
  | (k', v) :: r => if String.eqb k' k then v else getenv r k default
  end.

Definition in_environ (env : list (string * string)) (k : string) : bool :=
  existsb (fun e => String.eqb (fst e) k) env.

(** [subprocess.run(cmd, check=check)]. *)
Definition run (h : Host) (c : Cmd) (check : bool) : M Z :=
  fun w =>
    match answer h c with
    | NotFound => (inr OtherError, w)
    | Interrupted =>
        (inr KeyboardInterrupt, mkWorld (service_file w) (trace w ++ [c]))
    | Returned code =>
        let w := mkWorld (service_file w) (trace w ++ [c]) in
        if check && negb (code =? 0) then (inr CalledProcessError, w)
        else (inl code, w)
    end.

(** One round of the PipeWire loop: [except Exception] swallows every
    error of the probe. *)
Definition probe (h : Host) (service : string) : M unit :=
  fun w =>
    match run h (ShowLoadState service) false w with
    | (inl _, w) => (inl (), w)
    | (inr KeyboardInterrupt, w) => (inr KeyboardInterrupt, w)
    | (inr (SystemExit c), w) => (inr (SystemExit c), w)
    | (inr _, w) => (inl (), w)
    end.

Definition check_requirements (h : Host) : M bool :=
  if negb (script_exists h) then ret false
  else
    match python_path h with
    | None => raise OtherError     (* Path(None) is a TypeError *)
    | Some _ =>
        if negb (python_exists h) then ret false
        else if negb (systemctl h) then ret false
        else
          probe h "pipewire.service" ;;
          probe h "pipewire-pulse.service" ;;
          probe h "wireplumber.service" ;;
          ret true
    end.

Definition check_user_groups (h : Host) : M bool :=
  if groups_known h then ret true else raise OtherError.

Definition detect_session_type (h : Host) : list (string * string) :=
  let session_type := getenv (environ h) "XDG_SESSION_TYPE" "unknown" in
  let display := getenv (environ h) "DISPLAY" ":0" in
  let wayland_display := getenv (environ h) "WAYLAND_DISPLAY" "wayland-0" in
  let xauthority := getenv (environ h) "XAUTHORITY" "" in
  let run_dir := ("/run/user/" ++ user_id h)%string in
  [("XDG_RUNTIME_DIR", run_dir);
   ("PIPEWIRE_RUNTIME_DIR", run_dir ++ "/pipewire-0");
   ("PULSE_RUNTIME_PATH", run_dir ++ "/pulse");
   ("DISPLAY", display);
   ("WAYLAND_DISPLAY", wayland_display)]%string
  ++ (if String.eqb session_type "wayland" && String.eqb xauthority "" then
        [("XAUTHORITY", run_dir ++ "/.mutter-Xwaylandauth.XXXXXX")]%string
      else if negb (String.eqb xauthority "") then
        [("XAUTHORITY"%string, xauthority)]
      else []).

Definition generate_service_content (h : Host) : ServiceFile :=
  mkService (python_path h, script_path h) (detect_session_type h).

(** [mkdir] and the writing of the unit file. *)
Definition write_service (h : Host) : M unit :=
  fun w =>
    if can_write h
    then (inl (), mkWorld (Some (generate_service_content h)) (trace w))
    else (inr OtherError, w).

(** The [for var in env_vars] loop. *)
Fixpoint import_environment (h : Host) (vars : list string) : M unit :=
  match vars with
  | [] => ret ()
  | var :: rest =>
      (if in_environ (environ h) var
       then run h (ImportEnvironment var) false ;; ret ()
       else ret ()) ;;
      import_environment h rest
  end.

(** The [try] block around the start, with its handler. *)
Definition start_service (h : Host) : M unit :=
  fun w =>
    match (run h Start true ;; run h IsActive false ;; ret ()) w with
    | (inr CalledProcessError, w) => (inl (), w)
    | r => r
    end.

Definition install_service (h : Host) : M unit :=
  write_service h ;;
  run h DaemonReload true ;;
  import_environment h
    ["DISPLAY"; "WAYLAND_DISPLAY"; "XAUTHORITY"; "XDG_RUNTIME_DIR"]%string ;;
  run h Enable true ;;
  start_service h.

(** [self.service_path.unlink()] when the file exists. *)
Definition remove_service (h : Host) : M unit :=
  fun w =>
    match service_file w with
    | None => (inl (), w)
    | Some _ =>
        if can_write h then (inl (), mkWorld None (trace w))
        else (inr OtherError, w)
    end.

Definition uninstall_service (h : Host) : M unit :=
  run h Stop false ;;
  run h Disable false ;;
  remove_service h ;;
  run h DaemonReload true ;;
  ret ().

Definition show_status (h : Host) : M unit := run h Status false ;; ret ().
Definition show_logs (h : Host) : M unit := run h Logs false ;; ret ().

Inductive Action := Install | Uninstall | ShowStatus | ShowLogs.

(** The [try] body of [main]. *)
Definition dispatch (h : Host) (action : Action) (force : bool) : M unit :=
  match action with
  | Install =>
      ok <- check_requirements h ;;
      if negb ok && negb force then raise (SystemExit 1)
      else
        ok <- check_user_groups h ;;
        if negb ok && negb force then raise (SystemExit 1)
        else install_service h
  | Uninstall => uninstall_service h
  | ShowStatus => show_status h
  | ShowLogs => show_logs h
  end.

(** [main]: the exit code of the process and the world it leaves. *)
Definition main (h : Host) (action : Action) (force : bool) (w : World)
  : Z * World :=
  match dispatch h action force w with
  | (inl _, w) => (0, w)
  | (inr CalledProcessError, w) => (1, w)
  | (inr KeyboardInterrupt, w) => (0, w)
  | (inr OtherError, w) => (1, w)
  | (inr (SystemExit code), w) => (code, w)
  end.

(** *** Vocabulary *)

(** The three tests of [check_requirements] that can fail it. *)
Definition requirements_met (h : Host) : bool :=
  script_exists h && bool_decide (is_Some (python_path h)) && python_exists h
  && systemctl h.

(** Every command returns. *)
Definition all_return (h : Host) : Prop :=
  forall c : Cmd, exists code : Z, answer h c = Returned code.

(** The return code of a command. *)
Definition code_of (h : Host) (c : Cmd) : Z :=
  match answer h c with
  | Returned code => code
  | _ => 0
  end.

Definition is_import (c : Cmd) : bool :=
  match c with
  | ImportEnvironment _ => true
  | _ => false
  end.

(** A host where everything is in place and the service fails to
    start. *)
Definition host_nostart : Host :=
  mkHost "1000" "/opt/wispr/voice_transcriber.py" true
         (Some "/usr/bin/python3"%string) true true true
         [("DISPLAY", ":1")]%string true
         (fun c => match c with Start => Returned 1 | _ => Returned 0 end).

(** A host with neither the script nor any Python, where every command
    returns 0. *)
Definition host_bare : Host :=
  mkHost "1000" "/opt/wispr/voice_transcriber.py" false None false true true
         [] true (fun _ => Returned 0).

Definition world0 : World := mkWorld None [].

End Installer.

(** * Properties *)

Import Hotkey Cleanup Transcriber.

(** ** The hotkey parser *)

Lemma parse_parts_unresolved {U : Unicode} (parts : list str) (acc : gset key) (p : str) :
  p ∈ parts -> _parse_single_key p = None -> parse_parts parts acc = None.
Proof.
  intros Hin Hnone. revert acc.
  induction parts as [| q parts IH]; intros acc.
  - inversion Hin.
  - simpl. apply elem_of_cons in Hin as [<- | Hin].
    + now rewrite Hnone.
    + destruct (_parse_single_key q); [now apply IH | reflexivity].
Qed.

Lemma parse_parts_resolved {U : Unicode} (parts : list str) :
  Forall (fun p => is_Some (_parse_single_key p)) parts ->
  forall acc : gset key, exists keys : gset key,
    parse_parts parts acc = Some keys /\ acc ⊆ keys /\ (parts <> [] -> keys <> ∅).
Proof.
  induction 1 as [| p parts [k Hk] _ IH]; intros acc; simpl.
  - exists acc. split; [reflexivity | split; [set_solver | congruence]].
  - rewrite Hk. destruct (IH (acc ∪ {[ k ]})) as (keys & Hp & Hsub & _).
    exists keys. split; [exact Hp | split; [set_solver | intros _; set_solver]].
Qed.

Lemma split_on_nonempty (sep : Z) (s : str) : split_on sep s <> [].
Proof.
  destruct s as [| c r]; simpl; [discriminate |].
  destruct (c =? sep); [discriminate |].
  destruct (split_on sep r); discriminate.
Qed.

(** A stored combination is never empty. *)
Lemma parse_hotkey_nonempty {U : Unicode} (s : str) (keys : gset key) :
  parse_hotkey s = Some keys -> keys <> ∅.
Proof.
  unfold parse_hotkey. repeat case_bool_decide; try discriminate.
  destruct (parse_parts _ _); [| discriminate].
  case_bool_decide; [discriminate |]. congruence.
Qed.

(** What "resolves to no key" means: no entry in either table, no
    function-key pattern, not a single alphanumeric character. *)
Lemma parse_single_key_None {U : Unicode} (key_string : str) :
  _parse_single_key key_string = None <->
  let k := strip (lower key_string) in
  dict_get MODIFIER_MAP k = None /\ dict_get SPECIAL_KEYS_MAP k = None /\
  fn_key_match k = false /\ Nat.eqb (length k) 1 && isalnum k = false.
Proof.
  unfold _parse_single_key. cbv zeta.
  destruct (dict_get MODIFIER_MAP _); [split; [discriminate | intros [? _]; discriminate] |].
  destruct (dict_get SPECIAL_KEYS_MAP _);
    [split; [discriminate | intros (_ & ? & _); discriminate] |].
  destruct (fn_key_match _);
    [split; [discriminate | intros (_ & _ & ? & _); discriminate] |].
  destruct (_ && _);
    [split; [discriminate | intros (_ & _ & _ & ?); discriminate] |].
  split; auto.
Qed.

(** C7. A hotkey string one of whose [+]-separated tokens resolves to no
    key does not parse at all, and registering it leaves the manager as it
    was and returns [False]. *)
Theorem unrecognized_token_fails {U : Unicode} (s tok : str)
    (on_p on_r : option Callback) (m : HotkeyManager) :
  tok ∈ split_on 43 s ->
  _parse_single_key (lower (strip tok)) = None ->
  parse_hotkey s = None /\ register_hotkey s on_p on_r m = (m, false).
Proof.
  intros Hin Hnone.
  assert (Hp : parse_hotkey s = None).
  { unfold parse_hotkey. repeat case_bool_decide; try reflexivity.
    rewrite (parse_parts_unresolved (hotkey_parts s) ∅ (lower (strip tok))); auto.
    unfold hotkey_parts. apply list_elem_of_fmap. eauto. }
  split; [exact Hp |]. unfold register_hotkey. now rewrite Hp.
Qed.

Lemma unrecognized_token_fails_witness :
  py "foo" ∈ split_on 43 ctrl_foo /\
  _parse_single_key (lower (strip (py "foo"))) = None /\
  parse_hotkey ctrl_foo = None /\
  register_hotkey ctrl_foo (Some 1%nat) (Some 2%nat) init = (init, false).
Proof.
  assert (Hin : py "foo" ∈ split_on 43 ctrl_foo) by (vm_compute; right; left).
  assert (Hno : _parse_single_key (lower (strip (py "foo"))) = None)
    by (vm_compute; reflexivity).
  split; [exact Hin |]. split; [exact Hno |].
  exact (unrecognized_token_fails ctrl_foo (py "foo") (Some 1%nat) (Some 2%nat)
                                  init Hin Hno).
Defined.

Lemma dict_lookup_set (k : gset key) (v : HotkeyInfo)
    (d : list (gset key * HotkeyInfo)) :
  dict_lookup k (dict_set k v d) = Some v.
Proof.
  induction d as [| [k' v'] d IH]; simpl.
  - now rewrite decide_True.
  - destruct (decide (k' = k)); simpl.
    + now rewrite decide_True.
    + now rewrite decide_False.
Qed.

(** C10. When every token of a hotkey string resolves, [register_hotkey]
    stores the combination under its key set and returns [True], whatever
    the number of keys; [validate_hotkey], which it does not call, is the
    one that rejects the string when the combination has more than four
    keys. *)
Theorem register_hotkey_any_size {U : Unicode} (s : str) (on_p on_r : option Callback)
    (m : HotkeyManager) :
  Forall (fun tok => is_Some (_parse_single_key (lower (strip tok))))
         (split_on 43 s) ->
  exists keys : gset key,
    parse_hotkey s = Some keys /\
    register_hotkey s on_p on_r m
      = (set_hotkeys (dict_set keys (mkInfo on_p on_r s false 0) (hotkeys m)) m,
         true) /\
    dict_lookup keys (hotkeys (fst (register_hotkey s on_p on_r m)))
      = Some (mkInfo on_p on_r s false 0) /\
    fst (validate_hotkey s) = negb (4 <? size keys)%nat.
Proof.
  intros Hall.
  assert (Hs : s <> []).
  { intros ->. simpl in Hall. apply Forall_inv in Hall.
    vm_compute in Hall. destruct Hall as [x Hx]. discriminate. }
  assert (Hparts : Forall (fun p => is_Some (_parse_single_key p)) (hotkey_parts s)).
  { unfold hotkey_parts. rewrite Forall_map. exact Hall. }
  destruct (parse_parts_resolved _ Hparts ∅) as (keys & Hp & _ & Hne).
  assert (Hpne : hotkey_parts s <> []).
  { unfold hotkey_parts. intros H. apply map_eq_nil in H.
    now apply split_on_nonempty in H. }
  specialize (Hne Hpne).
  assert (Hparse : parse_hotkey s = Some keys).
  { unfold parse_hotkey. rewrite !bool_decide_eq_false_2 by assumption.
    rewrite Hp. now rewrite bool_decide_eq_false_2. }
  exists keys. split; [exact Hparse |].
  unfold register_hotkey. rewrite Hparse. split; [reflexivity |].
  split; [simpl; apply dict_lookup_set |].
  unfold validate_hotkey. rewrite bool_decide_eq_false_2 by assumption.
  rewrite Hparse.
  assert (Hsz : size keys <> 0%nat).
  { intros H0. apply size_empty_iff in H0. apply Hne. now apply leibniz_equiv. }
  destruct (Nat.eqb_spec (size keys) 0); [contradiction |].
  unfold Nat.ltb. destruct (Nat.leb 5 (size keys)); reflexivity.
Qed.

Lemma is_Some_true {A} (o : option A) :
  match o with Some _ => true | None => false end = true -> is_Some o.
Proof. destruct o; [eauto | discriminate]. Qed.

Lemma register_hotkey_any_size_witness :
  Forall (fun tok => is_Some (_parse_single_key (lower (strip tok))))
         (split_on 43 five_keys) /\
  fst (validate_hotkey five_keys) = false /\
  exists keys : gset key,
    parse_hotkey five_keys = Some keys /\
    register_hotkey five_keys (Some 1%nat) (Some 2%nat) init
      = (set_hotkeys
           (dict_set keys (mkInfo (Some 1%nat) (Some 2%nat) five_keys false 0)
                     (hotkeys init)) init, true) /\
    dict_lookup keys
      (hotkeys (fst (register_hotkey five_keys (Some 1%nat) (Some 2%nat) init)))
      = Some (mkInfo (Some 1%nat) (Some 2%nat) five_keys false 0) /\
    fst (validate_hotkey five_keys) = negb (4 <? size keys)%nat.
Proof.
  assert (Hsplit : split_on 43 five_keys
                   = [py "ctrl"; py "alt"; py "shift"; py "cmd"; py "a"])
    by (vm_compute; reflexivity).
  assert (Hall : Forall (fun tok => is_Some (_parse_single_key (lower (strip tok))))
                        (split_on 43 five_keys)).
  { rewrite Hsplit.
    repeat (apply Forall_cons; split;
            [apply is_Some_true; vm_compute; reflexivity |]).
    apply Forall_nil_2. }
  split; [exact Hall |]. split; [vm_compute; reflexivity |].
  exact (register_hotkey_any_size five_keys (Some 1%nat) (Some 2%nat) init Hall).
Defined.

(** ** The hotkey manager *)


Lemma for_items_map body d :
  for_items body d
  = (map (fun e => fst (body e)) d, flat_map (fun e => snd (body e)) d).
Proof.
  induction d as [| e d IH]; simpl; [reflexivity |].
  rewrite IH. destruct (body e); reflexivity.
Qed.

Lemma on_press_eq (k : key) (m : HotkeyManager) :
  let p' := pressed_keys m ∪ {[ _normalize_key k ]} in
  _on_press k m =
    (set_hotkeys (map (fun e => fst (match_one p' e)) (hotkeys m))
                 (set_pressed p' m),
     flat_map (fun e => snd (match_one p' e)) (hotkeys m)).
Proof.
  unfold _on_press, _check_hotkey_matches; simpl. now rewrite for_items_map.
Qed.

Lemma on_release_eq (k : key) (m : HotkeyManager) :
  let p' := pressed_keys m ∖ {[ _normalize_key k ]} in
  _on_release k m =
    (set_hotkeys (map (fun e => fst (release_one p' e)) (hotkeys m))
                 (set_pressed p' m),
     flat_map (fun e => snd (release_one p' e)) (hotkeys m)).
Proof.
  unfold _on_release, _check_hotkey_releases; simpl. now rewrite for_items_map.
Qed.

Lemma flat_map_ext_Forall {A B} (f g : A -> list B) (l : list A) :
  Forall (fun x => f x = g x) l -> flat_map f l = flat_map g l.
Proof. induction 1; simpl; congruence. Qed.

Lemma consistent_press (k : key) (m : HotkeyManager) :
  consistent m -> consistent (fst (_on_press k m)).
Proof.
  rewrite on_press_eq; unfold consistent; simpl. intros H.
  apply Forall_map. eapply Forall_impl; [exact H |].
  intros [kc info] Hc. simpl in Hc. unfold match_one. cbn [fst snd].
  destruct (bool_decide_reflect (kc ⊆ pressed_keys m ∪ {[ _normalize_key k ]}))
    as [Hs | Hs].
  - destruct (is_active info) eqn:Ea; simpl; rewrite ?Ea; symmetry;
      now apply bool_decide_eq_true_2.
  - simpl. rewrite Hc. transitivity false.
    + apply bool_decide_eq_false_2. set_solver.
    + symmetry. now apply bool_decide_eq_false_2.
Qed.

Lemma consistent_release (k : key) (m : HotkeyManager) :
  consistent m -> consistent (fst (_on_release k m)).
Proof.
  rewrite on_release_eq; unfold consistent; simpl. intros H.
  apply Forall_map. eapply Forall_impl; [exact H |].
  intros [kc info] Hc. simpl in Hc. unfold release_one. cbn [fst snd].
  destruct (is_active info) eqn:Ea.
  - destruct (bool_decide_reflect (kc ⊆ pressed_keys m ∖ {[ _normalize_key k ]}))
      as [Hs | Hs]; simpl.
    + rewrite Ea. symmetry. now apply bool_decide_eq_true_2.
    + symmetry. now apply bool_decide_eq_false_2.
  - simpl. rewrite Ea. symmetry in Hc. apply bool_decide_eq_false_1 in Hc.
    symmetry. apply bool_decide_eq_false_2. set_solver.
Qed.

Lemma consistent_run (evs : list event) (m : HotkeyManager) :
  consistent m -> consistent (fst (run evs m)).
Proof.
  revert m. induction evs as [| ev evs IH]; intros m H; simpl; [exact H |].
  destruct (handle ev m) as [m1 f1] eqn:E1.
  destruct (run evs m1) as [m2 f2] eqn:E2. simpl.
  change m2 with (fst (m2, f2)). rewrite <- E2. apply IH.
  change m1 with (fst (m1, f1)). rewrite <- E1.
  destruct ev; simpl; [now apply consistent_press | now apply consistent_release].
Qed.

Lemma consistent_register {U : Unicode} (s : str) (p r : option Callback) (m : HotkeyManager) :
  pressed_keys m = ∅ -> consistent m ->
  consistent (fst (register_hotkey s p r m)) /\
  pressed_keys (fst (register_hotkey s p r m)) = ∅.
Proof.
  intros Hp H. unfold register_hotkey.
  destruct (parse_hotkey s) as [keys |] eqn:E; simpl; [| auto].
  split; [| exact Hp].
  apply parse_hotkey_nonempty in E.
  unfold consistent in *; simpl. rewrite Hp in *.
  induction (hotkeys m) as [| [k' v'] d IH]; simpl.
  - constructor; [| constructor]. simpl. symmetry.
    apply bool_decide_eq_false_2. set_solver.
  - inversion H; subst. destruct (decide (k' = keys)).
    + constructor; [| assumption]. simpl. symmetry.
      apply bool_decide_eq_false_2. set_solver.
    + constructor; [assumption | now apply IH].
Qed.

Lemma consistent_register_all {U : Unicode} (regs : list registration) (m : HotkeyManager) :
  pressed_keys m = ∅ -> consistent m -> consistent (register_all regs m).
Proof.
  revert m. induction regs as [| [[s p] r] regs IH]; intros m Hp H; simpl;
    [exact H |].
  destruct (consistent_register s p r m Hp H) as [H1 H2]. now apply IH.
Qed.

Lemma dict_set_keys (k : gset key) (v : HotkeyInfo)
    (d : list (gset key * HotkeyInfo)) :
  forall x, x ∈ map fst (dict_set k v d) -> x = k \/ x ∈ map fst d.
Proof.
  induction d as [| [k' v'] d IH]; simpl; intros x Hx.
  - apply elem_of_cons in Hx as [-> | Hx]; [now left | now right].
  - destruct (decide (k' = k)) as [-> |]; simpl in Hx.
    + right. exact Hx.
    + apply elem_of_cons in Hx as [-> | Hx]; [right; left |].
      destruct (IH x Hx); [now left | right; now right].
Qed.

Lemma dict_set_NoDup (k : gset key) (v : HotkeyInfo)
    (d : list (gset key * HotkeyInfo)) :
  NoDup (map fst d) -> NoDup (map fst (dict_set k v d)).
Proof.
  induction d as [| [k' v'] d IH]; simpl; intros H.
  - constructor; [apply not_elem_of_nil | constructor].
  - apply NoDup_cons in H as [Hn Hd].
    destruct (decide (k' = k)) as [-> |]; simpl.
    + apply NoDup_cons; auto.
    + apply NoDup_cons. split; [| now apply IH].
      intros Hin. apply dict_set_keys in Hin as [-> | Hin];
        [congruence | contradiction].
Qed.

Lemma register_all_NoDup {U : Unicode} (regs : list registration) (m : HotkeyManager) :
  NoDup (map fst (hotkeys m)) -> NoDup (map fst (hotkeys (register_all regs m))).
Proof.
  revert m. induction regs as [| [[s p] r] regs IH]; intros m H; simpl;
    [exact H |].
  apply IH. unfold register_hotkey. destruct (parse_hotkey s); simpl; [| exact H].
  now apply dict_set_NoDup.
Qed.

Lemma handle_keys (ev : event) (m : HotkeyManager) :
  map fst (hotkeys (fst (handle ev m))) = map fst (hotkeys m).
Proof.
  destruct ev; simpl; [rewrite on_press_eq | rewrite on_release_eq]; simpl;
    rewrite map_map; apply map_ext; intros [kc info]; simpl.
  - unfold match_one. case_bool_decide; [destruct (is_active info) |]; reflexivity.
  - unfold release_one. destruct (is_active info); [case_bool_decide |]; reflexivity.
Qed.

Lemma run_keys (evs : list event) (m : HotkeyManager) :
  map fst (hotkeys (fst (run evs m))) = map fst (hotkeys m).
Proof.
  revert m. induction evs as [| ev evs IH]; intros m; simpl; [reflexivity |].
  destruct (handle ev m) as [m1 f1] eqn:E1.
  destruct (run evs m1) as [m2 f2] eqn:E2. simpl.
  change m2 with (fst (m2, f2)). rewrite <- E2, IH.
  change m1 with (fst (m1, f1)). rewrite <- E1. apply handle_keys.
Qed.

(** Left control down, x down, x repeated, right control up, on a
    manager with the hotkey ctrl+x: one press callback, then one release
    callback. *)
Example ctrl_x_left_right :
  snd (run [Press (Key "ctrl_l"); Press (KeyCode_from_char (py "x"));
            Press (KeyCode_from_char (py "x")); Release (Key "ctrl_r")]
           (fst (register_hotkey (py "ctrl+x") (Some 1%nat) (Some 2%nat) init)))
  = [1%nat; 2%nat].
Proof. vm_compute. reflexivity. Qed.

(** C4. Take any registrations and any sequence of press and release
    events after them, and let [m] be the manager then. Each combination
    has one registration. The list of the callbacks that a further press
    event dispatches is made, registration by registration in turn, of
    the one-element list of its [on_press] callback if it has one and
    the combination's keys were not all down before the event and are
    all down after it, and of nothing otherwise; for a release event, of
    the one-element list of its [on_release] callback if it has one and
    the keys were all down before and are not after, and of nothing
    otherwise. A press event repeated at once dispatches nothing. After
    either event every registration is Active exactly when its keys are
    all down. *)
Theorem hotkey_edges_fire_once {U : Unicode} (regs : list registration) (evs : list event)
    (k : key) :
  let m := fst (run evs (register_all regs init)) in
  let p := pressed_keys m in
  let p_down := p ∪ {[ _normalize_key k ]} in
  let p_up := p ∖ {[ _normalize_key k ]} in
  NoDup (map fst (hotkeys m)) /\
  snd (_on_press k m)
    = flat_map (fun e => if rising p p_down e
                         then match on_press (snd e) with
                              | Some cb => [cb]
                              | None => []
                              end
                         else [])
               (hotkeys m) /\
  snd (_on_release k m)
    = flat_map (fun e => if falling p p_up e
                         then match on_release (snd e) with
                              | Some cb => [cb]
                              | None => []
                              end
                         else [])
               (hotkeys m) /\
  snd (_on_press k (fst (_on_press k m))) = [] /\
  consistent (fst (_on_press k m)) /\ consistent (fst (_on_release k m)).
Proof.
  intros m p p_down p_up.
  assert (Hm : consistent m).
  { apply consistent_run, consistent_register_all; [reflexivity | constructor]. }
  assert (Hpress : forall m0 : HotkeyManager, consistent m0 ->
    snd (_on_press k m0)
    = flat_map (fun e => if rising (pressed_keys m0)
                                   (pressed_keys m0 ∪ {[ _normalize_key k ]}) e
                         then match on_press (snd e) with
                              | Some cb => [cb]
                              | None => []
                              end
                         else []) (hotkeys m0)).
  { intros m0 H0. rewrite on_press_eq. cbn [snd]. apply flat_map_ext_Forall.
    eapply Forall_impl; [exact H0 |]. intros [kc info] Hc. simpl in Hc.
    unfold match_one, rising. cbn [fst snd]. rewrite Hc.
    destruct (bool_decide (kc ⊆ pressed_keys m0 ∪ {[ _normalize_key k ]}));
      destruct (bool_decide (kc ⊆ pressed_keys m0)); reflexivity. }
  split.
  { subst m. rewrite run_keys. apply register_all_NoDup. constructor. }
  split; [now apply Hpress |].
  split.
  { rewrite on_release_eq. cbn [snd]. apply flat_map_ext_Forall.
    eapply Forall_impl; [exact Hm |]. intros [kc info] Hc. simpl in Hc.
    unfold release_one, falling. cbn [fst snd]. rewrite Hc. fold p. fold p_up.
    destruct (bool_decide (kc ⊆ p)); destruct (bool_decide (kc ⊆ p_up));
      reflexivity. }
  split.
  { rewrite Hpress by now apply consistent_press.
    rewrite on_press_eq. cbn [fst]. unfold set_hotkeys. cbn [pressed_keys hotkeys].
    unfold set_pressed. cbn [pressed_keys]. fold p. fold p_down.
    replace (p_down ∪ {[ _normalize_key k ]}) with p_down
      by (subst p_down; rewrite <- (assoc_L (∪)); now rewrite union_idemp_L).
    induction (map (fun e => fst (match_one p_down e)) (hotkeys m))
      as [| e d IH]; [reflexivity |].
    cbn [flat_map]. rewrite IH, app_nil_r. unfold rising.
    destruct (bool_decide (fst e ⊆ p_down)); reflexivity. }
  split; [now apply consistent_press | now apply consistent_release].
Qed.

(** ** The cleanup pass *)

Lemma filler_at_bounds {U : Unicode} (fw : gset str) (ws : list str) (i : nat)
    (lengths : list nat) (n : nat) :
  filler_at fw ws i lengths = Some n -> n ∈ lengths /\ (i + n <= length ws)%nat.
Proof.
  induction lengths as [| k lengths IH]; simpl; [discriminate |].
  destruct (Nat.leb_spec (i + k) (length ws)).
  - case_bool_decide.
    + intros [= <-]. split; [left | assumption].
    + intros H1. destruct (IH H1). split; [now right | assumption].
  - intros H1. destruct (IH H1). split; [now right | assumption].
Qed.

Lemma remove_loop_S {U : Unicode} (fuel : nat) (fw : gset str) (ws : list str) (i : nat)
    (cleaned : list str) :
  remove_loop (S fuel) fw ws i cleaned =
    if (i <? length ws)%nat then
      match filler_at fw ws i [3; 2; 1]%nat with
      | Some n => remove_loop fuel fw ws (i + n) cleaned
      | None => remove_loop fuel fw ws (i + 1) (cleaned ++ [nth i ws []])
      end
    else cleaned.
Proof. reflexivity. Qed.

(** The [while] loop of [clean_text] ends within [len(original_words) - i]
    rounds: more rounds than that change nothing. *)
Lemma remove_loop_fuel {U : Unicode} (fw : gset str) (ws : list str) :
  forall (fuel i : nat) (cleaned : list str),
    (length ws - i <= fuel)%nat ->
    remove_loop fuel fw ws i cleaned
    = remove_loop (length ws - i) fw ws i cleaned.
Proof.
  induction fuel as [fuel IH] using lt_wf_ind. intros i cleaned Hle.
  destruct (Nat.ltb_spec i (length ws)) as [Hlt | Hge].
  - destruct fuel as [| fuel]; [lia |].
    destruct (length ws - i)%nat as [| k] eqn:Ek; [lia |].
    rewrite !remove_loop_S. destruct (Nat.ltb_spec i (length ws)); [| lia].
    destruct (filler_at fw ws i [3; 2; 1]%nat) as [n |] eqn:Ef.
    + apply filler_at_bounds in Ef as [Hn Hb].
      assert (1 <= n)%nat.
      { repeat (apply elem_of_cons in Hn as [-> | Hn]; [lia |]). inversion Hn. }
      rewrite (IH fuel) by lia. rewrite (IH k) by lia. reflexivity.
    + rewrite (IH fuel) by lia. rewrite (IH k) by lia. reflexivity.
  - replace (length ws - i)%nat with 0%nat by lia.
    destruct fuel; [reflexivity |]. rewrite remove_loop_S.
    destruct (Nat.ltb_spec i (length ws)); [lia | reflexivity].
Qed.

(** The passes on small inputs. *)
Example sub_spaces_runs : sub_spaces (py "a  b   c ") = py "a b c ".
Proof. reflexivity. Qed.

Example sub_space_before_punct_runs :
  sub_space_before_punct (py "a , b  . c d") = py "a, b. c d".
Proof. reflexivity. Qed.

Example sub_i_word : sub_i None (py "i think i'm in") = py "I think I'm in".
Proof. reflexivity. Qed.

Example clean_text_multiword :
  clean_text true default_filler_words (py "um so I think, uh, this is correct")
  = py "I think, this is correct".
Proof. vm_compute. reflexivity. Qed.

Example clean_text_inside_word :
  clean_text true default_filler_words (py "sordid") = py "Sordid".
Proof. vm_compute. reflexivity. Qed.

(** C2, as stated: the cleanup of "uh hello world" is not the string
    "Hello world." with a full stop. *)
Lemma hello_world_has_no_period :
  clean_text true default_filler_words (py "uh hello world") <> py "Hello world.".
Proof. vm_compute. discriminate. Qed.

(** C2, amended. With the default filler set the filler loop turns the
    words of "uh hello world" into hello, world; the grammar pass
    capitalises the first letter and appends nothing; the cleanup pass
    returns exactly "Hello world". *)
Theorem hello_world_cleanup :
  remove_loop 3 default_filler_words [py "uh"; py "hello"; py "world"] 0 []
    = [py "hello"; py "world"] /\
  improve_grammar (py "hello world") = py "Hello world" /\
  clean_text true default_filler_words (py "uh hello world") = py "Hello world".
Proof. vm_compute. repeat split. Qed.

(** C9, on the code. For the Greek text alpha, full stop, space, beta the
    grammar pass capitalises the first letter and leaves the beta after
    the full stop in lower case, although [upper] maps it to capital
    beta; the same happens to the Cyrillic letter io. The character class
    of the substitution holds a..z and U+0430..U+044F only. *)
Theorem greek_after_period_not_capitalised :
  upper [945] = [913] /\ upper [946] = [914] /\
  improve_grammar alpha_beta = [913; 46; 32; 946] /\
  upper [1105] = [1025] /\
  improve_grammar a_io = [1040; 46; 32; 1105].
Proof. vm_compute. repeat split. Qed.

(** ** The recording loop *)

Ltac loop_cases H :=
  repeat match type of H with
    | context [if ?b then _ else _] => destruct b eqn:?
    | context [match ?x with _ => _ end] => destruct x eqn:?
    end; try discriminate.

Lemma total_bytes_cons (d : bytes) (fr : list bytes) :
  total_bytes (d :: fr) = Z.of_nat (length d) + total_bytes fr.
Proof. unfold total_bytes. simpl. rewrite length_app. lia. Qed.

Lemma total_bytes_snoc (fr : list bytes) (d : bytes) :
  total_bytes (fr ++ [d]) = total_bytes fr + Z.of_nat (length d).
Proof.
  unfold total_bytes. rewrite concat_app, length_app. simpl.
  rewrite app_nil_r. lia.
Qed.

Lemma Qgtb_lt (a b : Q) : Qgtb a b = true <-> (b < a)%Q.
Proof.
  unfold Qgtb. rewrite negb_true_iff. split.
  - intros H. apply Qnot_le_lt. intros Hle. apply Qle_bool_iff in Hle. congruence.
  - intros H. destruct (Qle_bool a b) eqn:E; [| reflexivity].
    apply Qle_bool_iff in E. exfalso. now apply (Qlt_not_le b a).
Qed.

(** A round whose device check is due and fails leaves the loop at once,
    whatever the stream would have answered. *)
Lemma record_loop_check_fails (cfg : Config) (tk : Tick) (rest : list Tick)
    (start last0 : Q) (mem : Z) (s : VT) :
  tk_stop tk = false -> is_recording s = true ->
  Qgtb (tk_now tk - last0) 2 = true -> _check_device_available tk = false ->
  record_loop cfg (tk :: rest) start last0 mem s
  = (DeviceLost, logger ERROR (py "Audio device became unavailable") s).
Proof.
  intros Hstop Hrec Hdue Hdev. simpl. rewrite Hstop. simpl.
  rewrite Hrec. simpl. rewrite Hdue, Hdev. reflexivity.
Qed.

(** The loop left on a lost device: the check of that round was due,
    more than two seconds after the last one (made before the loop or in
    an earlier round); the round read nothing, and the frames are the
    chunks of the rounds before it. *)
Lemma record_loop_device_lost (cfg : Config) (ticks : list Tick) :
  forall (start last0 : Q) (mem : Z) (s s' : VT),
    record_loop cfg ticks start last0 mem s = (DeviceLost, s') ->
    exists (pre : list Tick) (tk : Tick) (post : list Tick) (checked : Q),
      ticks = pre ++ tk :: post /\
      (checked = last0 \/ exists tk0 : Tick, tk0 ∈ pre /\ checked = tk_now tk0) /\
      Qgtb (tk_now tk - checked) 2 = true /\
      _check_device_available tk = false /\
      audio_frames s' = audio_frames s ++ omap tick_chunk pre /\
      last (log s') = Some (ERROR, py "Audio device became unavailable").
Proof.
  induction ticks as [| tk rest IH]; intros start last0 mem s s' H; simpl in H;
    [discriminate |].
  destruct (tk_stop tk) eqn:Estop; simpl in H.
  { discriminate. }
  destruct (is_recording s) eqn:Erec; simpl in H; [| discriminate].
  destruct (Qgtb (tk_now tk - last0) 2) eqn:Edue; simpl in H.
  - destruct (_check_device_available tk) eqn:Eav; simpl in H.
    + destruct (tk_active tk) as [[|] | e] eqn:Eact; try discriminate;
        [destruct (tk_read tk) as [data | e] eqn:Eread |];
        loop_cases H;
        apply IH in H as (pre & tk' & post & c & -> & Hc & Hdue & Hd & Hf & Hl);
        exists (tk :: pre), tk', post, c;
        (split; [reflexivity |]);
        (split; [destruct Hc as [-> | (tk0 & Hin & ->)];
                 [right; exists tk; split; [left | reflexivity]
                 | right; exists tk0; split; [now right | reflexivity]] |]);
        (split; [exact Hdue |]); (split; [exact Hd |]); (split; [| exact Hl]);
        simpl; unfold tick_chunk at 1; rewrite Eact, ?Eread;
        rewrite Hf; simpl; rewrite <- ?app_assoc; reflexivity.
    + injection H as <-. exists [], tk, rest, last0.
      repeat split; auto.
      * simpl. now rewrite app_nil_r.
      * simpl. apply last_snoc.
  - destruct (tk_active tk) as [[|] | e] eqn:Eact; try discriminate;
      [destruct (tk_read tk) as [data | e] eqn:Eread |];
      loop_cases H;
      apply IH in H as (pre & tk' & post & c & -> & Hc & Hdue & Hd & Hf & Hl);
      exists (tk :: pre), tk', post, c;
      (split; [reflexivity |]);
      (split; [destruct Hc as [-> | (tk0 & Hin & ->)];
               [now left | right; exists tk0; split; [now right | reflexivity]] |]);
      (split; [exact Hdue |]); (split; [exact Hd |]); (split; [| exact Hl]);
      simpl; unfold tick_chunk at 1; rewrite Eact, ?Eread;
      rewrite Hf; simpl; rewrite <- ?app_assoc; reflexivity.
Qed.

(** The loop left on the memory ceiling: the last round read the chunk
    that took the estimate over the ceiling, and that chunk is kept. *)
Lemma record_loop_memory_limit (cfg : Config) (ticks : list Tick) :
  forall (start last0 : Q) (mem : Z) (s s' : VT),
    record_loop cfg ticks start last0 mem s = (MemoryLimit, s') ->
    exists (pre : list Tick) (tk : Tick) (post : list Tick) (data : bytes),
      ticks = pre ++ tk :: post /\
      tk_read tk = Ok data /\
      audio_frames s' = audio_frames s ++ omap tick_chunk pre ++ [data] /\
      Qgtb (inject_Z (mem + total_bytes (omap tick_chunk pre ++ [data])))
           (max_memory_mb cfg * 1024 * 1024) = true /\
      last (log s') = Some (WARNING, py "Memory limit reached").
Proof.
  induction ticks as [| tk rest IH]; intros start last0 mem s s' H; simpl in H;
    [discriminate |].
  destruct (tk_stop tk) eqn:Estop; simpl in H; [discriminate |].
  destruct (is_recording s) eqn:Erec; simpl in H; [| discriminate].
  destruct (Qgtb (tk_now tk - last0) 2 && negb (_check_device_available tk)) eqn:Edue;
    [discriminate |].
  destruct (tk_active tk) as [[|] | e] eqn:Eact; try discriminate;
    [destruct (tk_read tk) as [data | e] eqn:Eread;
     [destruct (Qgtb (inject_Z (mem + Z.of_nat (length data)))
                     (max_memory_mb cfg * 1024 * 1024)) eqn:Emem |] |].
  - injection H as <-. exists [], tk, rest, data. simpl.
    rewrite total_bytes_cons. unfold total_bytes; simpl.
    rewrite Z.add_0_r. repeat split; auto. apply last_snoc.
  - loop_cases H;
      apply IH in H as (pre & tk' & post & d' & -> & Hr & Hf & Hm & Hl);
      exists (tk :: pre), tk', post, d'; repeat split; auto;
      simpl; unfold tick_chunk at 1; rewrite Eact, Eread; simpl.
    + rewrite Hf. simpl. now rewrite <- app_assoc.
    + rewrite total_bytes_cons. now rewrite Z.add_assoc.
    + rewrite Hf. simpl. now rewrite <- app_assoc.
    + rewrite total_bytes_cons. now rewrite Z.add_assoc.
  - loop_cases H;
      apply IH in H as (pre & tk' & post & d' & -> & Hr & Hf & Hm & Hl);
      exists (tk :: pre), tk', post, d'; repeat split; auto;
      simpl; unfold tick_chunk at 1; rewrite Eact, Eread; simpl; assumption.
  - loop_cases H;
      apply IH in H as (pre & tk' & post & d' & -> & Hr & Hf & Hm & Hl);
      exists (tk :: pre), tk', post, d'; repeat split; auto;
      simpl; unfold tick_chunk at 1; rewrite Eact; simpl; assumption.
Qed.

(** While the loop goes on, and when it is left for another reason, the
    bytes of the frames do not exceed the ceiling. *)
Lemma record_loop_within_limit (cfg : Config) (ticks : list Tick) :
  forall (start last0 : Q) (mem : Z) (s s' : VT) (why : LoopExit),
    record_loop cfg ticks start last0 mem s = (why, s') ->
    mem = total_bytes (audio_frames s) ->
    audio_frames s = [] \/
      Qgtb (inject_Z mem) (max_memory_mb cfg * 1024 * 1024) = false ->
    why <> MemoryLimit ->
    audio_frames s' = [] \/
      Qgtb (inject_Z (total_bytes (audio_frames s')))
           (max_memory_mb cfg * 1024 * 1024) = false.
Proof.
  induction ticks as [| tk rest IH];
    intros start last0 mem s s' why H Hmem Hinv Hwhy; simpl in H.
  { injection H as <- <-. now rewrite <- Hmem. }
  destruct (tk_stop tk) eqn:Estop; simpl in H.
  { injection H as <- <-. simpl. now rewrite <- Hmem. }
  destruct (is_recording s) eqn:Erec; simpl in H;
    [| injection H as <- <-; now rewrite <- Hmem].
  destruct (Qgtb (tk_now tk - last0) 2 && negb (_check_device_available tk)) eqn:Edue.
  { injection H as <- <-. simpl. now rewrite <- Hmem. }
  destruct (tk_active tk) as [[|] | e] eqn:Eact;
    [destruct (tk_read tk) as [data | e] eqn:Eread;
     [destruct (Qgtb (inject_Z (mem + Z.of_nat (length data)))
                     (max_memory_mb cfg * 1024 * 1024)) eqn:Emem;
      [| destruct (Qgtb (tk_after tk - start) (inject_Z (record_seconds cfg)))
           eqn:Etime]
     | destruct (contains (py "Input overflowed") e) eqn:Eover]
    | | destruct (contains (py "Input overflowed") e) eqn:Eover].
  - injection H as <- _. contradiction.
  - injection H as <- <-. simpl. right. rewrite total_bytes_snoc, <- Hmem. exact Emem.
  - eapply IH; [exact H | | | exact Hwhy]; simpl.
    + rewrite total_bytes_snoc. now rewrite Hmem.
    + right. exact Emem.
  - eapply IH; [exact H | | | exact Hwhy]; simpl; assumption.
  - injection H as <- <-. simpl. now rewrite <- Hmem.
  - injection H as <- <-. simpl. now rewrite <- Hmem.
  - eapply IH; [exact H | | | exact Hwhy]; simpl; assumption.
  - injection H as <- <-. simpl. now rewrite <- Hmem.
Qed.

Lemma cleanup_stream_eq (s : VT) :
  audio_frames (_cleanup_stream s) = audio_frames s /\
  log (_cleanup_stream s) = log s /\
  stream (_cleanup_stream s) = None.
Proof. unfold _cleanup_stream. destruct (stream s) eqn:E; simpl; auto. Qed.

(** [_record_audio] once the stream is open: the loop starts on no frame
    and a zero estimate; the [finally] clause closes the stream. *)
Lemma record_audio_loop (cfg : Config) (open_result : result unit)
    (t0 t1 : Q) (ticks : list Tick) (s s' : VT) (why : LoopExit) :
  _record_audio cfg open_result t0 t1 ticks s = (why, s') ->
  why <> OpenFailed ->
  exists s0 s1 : VT,
    audio_frames s0 = [] /\
    record_loop cfg ticks t0 t1 0 s0 = (why, s1) /\
    audio_frames s' = audio_frames s1 /\
    log s' = log s1 /\
    (why <> Running -> stream s' = None).
Proof.
  unfold _record_audio. intros H Ho.
  destruct open_result as [u | e].
  - match type of H with
    | context [record_loop cfg ticks t0 t1 0 ?x] =>
        exists x; destruct (record_loop cfg ticks t0 t1 0 x) as [w s1] eqn:E
    end.
    exists s1. split; [reflexivity |].
    destruct (cleanup_stream_eq s1) as (Ef & El & Es).
    destruct w; injection H as <- <-; repeat split; auto; contradiction.
  - injection H as <- _. contradiction.
Qed.

Lemma stop_recording_eq (s : VT) :
  audio_frames (fst (stop_recording s)) = audio_frames s /\
  snd (stop_recording s) = match audio_frames s with [] => false | _ => true end.
Proof.
  unfold stop_recording, _cleanup_stream. simpl.
  destruct (stream s), (audio_frames s) eqn:E; simpl; rewrite ?E; auto.
Qed.

Lemma save_audio_written (cfg : Config) (name : string) (s : VT) :
  audio_frames s <> [] ->
  fst (save_audio_to_file cfg (Ok name) (Ok ()) s) = Ok (Some name) /\
  fs (snd (save_audio_to_file cfg (Ok name) (Ok ()) s)) !! name
    = Some (wav_of cfg (audio_frames s)).
Proof.
  intros Hne. unfold save_audio_to_file.
  destruct (audio_frames s) eqn:E; [contradiction |]. simpl.
  rewrite E. split; [reflexivity | apply lookup_insert_eq].
Qed.

(** C1, as stated. One chunk is read, then the device check of a round
    3.5 seconds in finds no input channel: the loop is left for
    [DeviceLost], and the release that follows still writes that chunk to
    a file, sends it to the backend once and types the cleaned answer. *)
Lemma device_loss_blob_reaches_transcription :
  fst session_lost = DeviceLost /\
  audio_frames (snd session_lost) = [chunk0] /\
  fs session_lost_released !! "tmp.wav"%string = Some (wav_of cfg0 [chunk0]) /\
  api_calls session_lost_released = 1%nat /\
  typed session_lost_released = [py "Hello world"].
Proof. vm_compute. repeat split. Qed.

(** C1, amended. When the loop is left for a lost device, it is at a
    round whose device check came more than two seconds after the last
    one and failed; the record is an error and the stream is closed;
    the frames are the chunks of the rounds before it, and
    [stop_recording] keeps them. It starts no processing when there is
    none; when there is at least one it starts the processing, which
    writes all of them to the audio file. *)
Theorem device_loss_keeps_frames (cfg : Config) (open_result : result unit)
    (t0 t1 : Q) (ticks : list Tick) (s s' : VT) :
  _record_audio cfg open_result t0 t1 ticks s = (DeviceLost, s') ->
  (exists (pre : list Tick) (tk : Tick) (post : list Tick) (checked : Q),
      ticks = pre ++ tk :: post /\
      (checked = t1 \/ exists tk0 : Tick, tk0 ∈ pre /\ checked = tk_now tk0) /\
      (2 < tk_now tk - checked)%Q /\
      _check_device_available tk = false /\
      audio_frames s' = omap tick_chunk pre) /\
  last (log s') = Some (ERROR, py "Audio device became unavailable") /\
  stream s' = None /\
  audio_frames (fst (stop_recording s')) = audio_frames s' /\
  (audio_frames s' = [] -> snd (stop_recording s') = false) /\
  (audio_frames s' <> [] ->
   snd (stop_recording s') = true /\
   forall name : string,
     fst (save_audio_to_file cfg (Ok name) (Ok ()) (fst (stop_recording s')))
       = Ok (Some name) /\
     fs (snd (save_audio_to_file cfg (Ok name) (Ok ()) (fst (stop_recording s'))))
       !! name = Some (wav_of cfg (audio_frames s'))).
Proof.
  intros H.
  apply record_audio_loop in H as (s0 & s1 & H0 & Hloop & Ef & El & Es);
    [| discriminate].
  apply record_loop_device_lost in Hloop
    as (pre & tk & post & c & -> & Hc & Hdue & Hd & Hf & Hl).
  destruct (stop_recording_eq s') as [Ef2 Es2].
  rewrite H0 in Hf; simpl in Hf. apply Qgtb_lt in Hdue.
  split; [exists pre, tk, post, c; repeat split; auto; now rewrite Ef |].
  repeat split.
  - now rewrite El.
  - apply Es. discriminate.
  - exact Ef2.
  - intros E. rewrite Es2, E. reflexivity.
  - rewrite Es2. destruct (audio_frames s'); [contradiction | reflexivity].
  - apply save_audio_written. now rewrite Ef2.
  - rewrite <- Ef2 at 1. apply save_audio_written. now rewrite Ef2.
Qed.

Lemma device_loss_keeps_frames_witness :
  _record_audio cfg0 (Ok ()) 0 0 [tick_ok; tick_lost] vt0
    = (DeviceLost, snd session_lost) /\
  audio_frames (snd session_lost) <> [] /\
  last (log (snd session_lost))
    = Some (ERROR, py "Audio device became unavailable") /\
  snd (stop_recording (snd session_lost)) = true.
Proof.
  assert (H : _record_audio cfg0 (Ok ()) 0 0 [tick_ok; tick_lost] vt0
              = (DeviceLost, snd session_lost)) by (vm_compute; reflexivity).
  assert (Hne : audio_frames (snd session_lost) <> []) by (vm_compute; discriminate).
  destruct (device_loss_keeps_frames cfg0 (Ok ()) 0 0 [tick_ok; tick_lost] vt0
              (snd session_lost) H) as (_ & Hlog & _ & _ & _ & Hstart).
  split; [exact H |]. split; [exact Hne |]. split; [exact Hlog |].
  exact (proj1 (Hstart Hne)).
Defined.

(** C5. A session whose stream opened has frames of more bytes than the
    ceiling exactly when the loop was left for [MemoryLimit] (frames
    present). When it was: the record of the stop is a warning; the
    frames are the chunks of the rounds before the last one followed by
    the chunk the last round read; they hold more bytes than the ceiling,
    so they are not empty when the ceiling is not negative; and
    [stop_recording] keeps them and starts the processing, which writes
    all of them to the audio file. *)
Theorem memory_limit_keeps_blob (cfg : Config) (open_result : result unit)
    (t0 t1 : Q) (ticks : list Tick) (s s' : VT) (why : LoopExit) :
  _record_audio cfg open_result t0 t1 ticks s = (why, s') ->
  why <> OpenFailed ->
  (audio_frames s' <> [] ->
   (why = MemoryLimit <->
    (max_memory_mb cfg * 1024 * 1024 < inject_Z (total_bytes (audio_frames s')))%Q)) /\
  (why = MemoryLimit ->
   (exists (pre : list Tick) (tk : Tick) (post : list Tick) (data : bytes),
       ticks = pre ++ tk :: post /\
       tk_read tk = Ok data /\
       audio_frames s' = omap tick_chunk pre ++ [data]) /\
   audio_frames s' <> [] /\
   ((0 <= max_memory_mb cfg)%Q -> concat (audio_frames s') <> []) /\
   last (log s') = Some (WARNING, py "Memory limit reached") /\
   stream s' = None /\
   snd (stop_recording s') = true /\
   audio_frames (fst (stop_recording s')) = audio_frames s' /\
   forall name : string,
     fst (save_audio_to_file cfg (Ok name) (Ok ()) (fst (stop_recording s')))
       = Ok (Some name) /\
     fs (snd (save_audio_to_file cfg (Ok name) (Ok ()) (fst (stop_recording s'))))
       !! name = Some (wav_of cfg (audio_frames s'))).
Proof.
  intros H Hopen.
  apply record_audio_loop in H as (s0 & s1 & H0 & Hloop & Ef & El & Es);
    [| exact Hopen].
  destruct (stop_recording_eq s') as [Ef2 Es2].
  assert (Hfull : why = MemoryLimit ->
    (exists (pre : list Tick) (tk : Tick) (post : list Tick) (data : bytes),
       ticks = pre ++ tk :: post /\ tk_read tk = Ok data /\
       audio_frames s' = omap tick_chunk pre ++ [data]) /\
    (max_memory_mb cfg * 1024 * 1024 < inject_Z (total_bytes (audio_frames s')))%Q /\
    last (log s') = Some (WARNING, py "Memory limit reached")).
  { intros ->.
    apply record_loop_memory_limit in Hloop
      as (pre & tk & post & data & -> & Hr & Hf & Hm & Hl).
    rewrite H0 in Hf; simpl in Hf. rewrite Z.add_0_l in Hm.
    apply Qgtb_lt in Hm.
    split; [exists pre, tk, post, data; repeat split; auto; now rewrite Ef |].
    split; [now rewrite Ef, Hf | now rewrite El]. }
  split.
  - intros Hne. split; [intros E; apply (Hfull E) |].
    intros Hover. destruct (decide (why = MemoryLimit)) as [E | Hwhy]; [exact E |].
    exfalso.
    destruct (record_loop_within_limit cfg ticks t0 t1 0 s0 s1 why Hloop)
      as [Hnil | Hle]; auto.
    + now rewrite H0.
    + apply Hne. now rewrite Ef.
    + rewrite <- Ef in Hle. apply Qgtb_lt in Hover. congruence.
  - intros E. destruct (Hfull E) as (Hex & Hover & Hlog).
    assert (Hne : audio_frames s' <> []).
    { destruct Hex as (pre & tk & post & data & _ & _ & ->).
      intros E'. now apply app_eq_nil in E' as [_ E']. }
    split; [exact Hex |]. split; [exact Hne |].
    split.
    { intros Hpos E'. unfold total_bytes in Hover. rewrite E' in Hover.
      simpl in Hover.
      assert (Hc : (0 <= max_memory_mb cfg * 1024 * 1024)%Q).
      { repeat apply Qmult_le_0_compat; [exact Hpos | discriminate | discriminate]. }
      apply (Qlt_irrefl 0). eapply Qle_lt_trans; [exact Hc | exact Hover]. }
    split; [exact Hlog |].
    split; [apply Es; subst why; discriminate |].
    split.
    { rewrite Es2. destruct (audio_frames s'); [contradiction | reflexivity]. }
    split; [exact Ef2 |].
    intros name. split.
    + apply save_audio_written. now rewrite Ef2.
    + rewrite <- Ef2 at 1. apply save_audio_written. now rewrite Ef2.
Qed.

Lemma memory_limit_keeps_blob_witness :
  _record_audio cfg_tiny (Ok ()) 0 0 [tick_ok] vt0
    = (MemoryLimit, snd session_full) /\
  audio_frames (snd session_full) = [chunk0] /\
  last (log (snd session_full)) = Some (WARNING, py "Memory limit reached") /\
  snd (stop_recording (snd session_full)) = true /\
  fs (snd (save_audio_to_file cfg_tiny (Ok "tmp.wav"%string) (Ok ())
             (fst (stop_recording (snd session_full)))))
    !! "tmp.wav"%string = Some (wav_of cfg_tiny [chunk0]).
Proof.
  assert (H : _record_audio cfg_tiny (Ok ()) 0 0 [tick_ok] vt0
              = (MemoryLimit, snd session_full)) by (vm_compute; reflexivity).
  assert (Ho : MemoryLimit <> OpenFailed) by discriminate.
  assert (Hf : audio_frames (snd session_full) = [chunk0])
    by (vm_compute; reflexivity).
  destruct (memory_limit_keeps_blob cfg_tiny (Ok ()) 0 0 [tick_ok] vt0
              (snd session_full) MemoryLimit H Ho) as [_ Hfull].
  destruct (Hfull eq_refl) as (_ & _ & _ & Hlog & _ & Hstart & _ & Hsave).
  split; [exact H |]. split; [exact Hf |]. split; [exact Hlog |].
  split; [exact Hstart |].
  rewrite <- Hf. exact (proj2 (Hsave "tmp.wav"%string)).
Defined.

(** ** The processing pipeline and its temporary file *)

Lemma transcribe_once_files (backend : Backend) (path : string) (s : VT) :
  files_of (snd (transcribe_once backend path s)) = files_of s.
Proof.
  unfold transcribe_once. destruct (fs s !! path); [| reflexivity].
  destruct (backend _ _); reflexivity.
Qed.

Lemma retry_files (n : nat) (body : VT -> result str * VT) :
  (forall s, files_of (snd (body s)) = files_of s) ->
  forall s, files_of (snd (retry n body s)) = files_of s.
Proof.
  intros Hb. induction n as [| n IH]; intros s; simpl; [reflexivity |].
  specialize (Hb s). destruct (body s) as [[t | e] s1]; simpl in *; [exact Hb |].
  now rewrite IH.
Qed.

Lemma transcribe_audio_files (backend : Backend) (path : string) (s : VT) :
  files_of (snd (transcribe_audio backend path s)) = files_of s.
Proof. apply retry_files. apply transcribe_once_files. Qed.

(** Whatever the backend does, a processing run whose file was written
    leaves the file in place and its name in [temp_files]. *)
Lemma process_audio_files {U : Unicode} (cfg : Config) (name : string) (backend : Backend)
    (s : VT) :
  audio_frames s <> [] ->
  files_of (_process_audio cfg (Ok name) (Ok ()) backend s)
  = (<[name := wav_of cfg (audio_frames s)]> (<[name := EmptyFile]> (fs s)),
     temp_files s ∪ {[ name ]}).
Proof.
  intros Hne. unfold _process_audio, save_audio_to_file.
  destruct (audio_frames s) eqn:E; [contradiction |]. simpl. rewrite E.
  match goal with
  | |- context [transcribe_audio backend name ?x] =>
      pose proof (transcribe_audio_files backend name x) as Ht;
      destruct (transcribe_audio backend name x) as [[t | e] s1]
  end; simpl in Ht.
  - destruct t as [| c t]; [exact Ht |].
    unfold clean_text_logged.
    destruct (clean_text _ _ _); exact Ht.
  - exact Ht.
Qed.

Lemma retry_keeps {X : Type} (f : VT -> X) (n : nat)
    (body : VT -> result str * VT) :
  (forall s, f (snd (body s)) = f s) ->
  forall s, f (snd (retry n body s)) = f s.
Proof.
  intros Hb. induction n as [| n IH]; intros s; simpl; [reflexivity |].
  specialize (Hb s). destruct (body s) as [[t | e] s1]; simpl in *; [exact Hb |].
  now rewrite IH.
Qed.

(** A processing run leaves the hotkey manager alone and does not change
    what [os.remove] answers. *)
Lemma process_audio_env {U : Unicode} (cfg : Config) (tmp : result string)
    (write : result unit) (backend : Backend) (s : VT) :
  hotkey_manager (_process_audio cfg tmp write backend s) = hotkey_manager s /\
  os_remove (_process_audio cfg tmp write backend s) = os_remove s.
Proof.
  assert (Hgen : forall s0 : VT,
    (hotkey_manager (_process_audio cfg tmp write backend s0),
     os_remove (_process_audio cfg tmp write backend s0))
    = (hotkey_manager s0, os_remove s0)).
  { intros s0. unfold _process_audio.
    assert (Hsave :
      (hotkey_manager (snd (save_audio_to_file cfg tmp write s0)),
       os_remove (snd (save_audio_to_file cfg tmp write s0)))
      = (hotkey_manager s0, os_remove s0)).
    { unfold save_audio_to_file. destruct (audio_frames s0); [reflexivity |].
      destruct tmp as [name | e]; [| reflexivity].
      destruct write as [u | e]; [reflexivity |]. cbn [snd].
      destruct (bool_decide _); [| reflexivity].
      cbn [os_remove logger set_fs set_temp_files].
      destruct (os_remove s0 name); reflexivity. }
    destruct (save_audio_to_file cfg tmp write s0) as [[[name |] | e] s1];
      cbn [snd] in Hsave; try exact Hsave.
    set (f := fun x : VT => (hotkey_manager x, os_remove x)).
    match goal with
    | |- context [transcribe_audio backend name ?x] =>
        assert (Ht : f (snd (transcribe_audio backend name x)) = f x)
    end.
    { apply (retry_keeps f). intros x. unfold transcribe_once.
      destruct (fs x !! name); [| reflexivity].
      destruct (backend _ _); reflexivity. }
    unfold f in Ht. cbn [hotkey_manager os_remove logger] in Ht.
    destruct (transcribe_audio backend name _) as [[t | e] s2];
      cbn [snd] in Ht; [| rewrite <- Hsave; exact Ht].
    destruct t as [| c t]; [rewrite <- Hsave; exact Ht |].
    unfold clean_text_logged.
    destruct (clean_text _ _ _); rewrite <- Hsave; exact Ht. }
  specialize (Hgen s). now injection Hgen as -> ->.
Qed.

(** One round of the removal loop: the file at [p] is gone when
    [os.remove] answers and stays when it raises; no other file
    changes. *)
Lemma remove_if_exists_lookup (s : VT) (p q : string) :
  fs (remove_if_exists s p) !! q
  = if bool_decide (q = p)
    then match os_remove s p with Ok _ => None | Raise _ => fs s !! p end
    else fs s !! q.
Proof.
  unfold remove_if_exists.
  destruct (bool_decide_reflect (is_Some (fs s !! p))) as [Hs | Hn];
    destruct (bool_decide_reflect (q = p)) as [-> | Hne].
  - destruct (os_remove s p); cbn [fs set_fs logger];
      [apply lookup_delete_eq | reflexivity].
  - destruct (os_remove s p); cbn [fs set_fs logger];
      [now apply lookup_delete_ne | reflexivity].
  - destruct (fs s !! p) eqn:E; [exfalso; apply Hn; eauto |].
    now destruct (os_remove s p).
  - reflexivity.
Qed.

Lemma remove_if_exists_rest (s : VT) (p : string) :
  let s1 := remove_if_exists s p in
  is_recording s1 = is_recording s /\ audio_frames s1 = audio_frames s /\
  stream s1 = stream s /\ temp_files s1 = temp_files s /\
  hotkey_manager s1 = hotkey_manager s /\
  typed s1 = typed s /\ api_calls s1 = api_calls s /\
  os_remove s1 = os_remove s.
Proof.
  cbv zeta. unfold remove_if_exists. destruct (bool_decide _); [| auto 10].
  destruct (os_remove s p); cbn; auto 10.
Qed.

Lemma fold_remove_rest (l : list string) :
  forall s : VT,
    let s1 := fold_left remove_if_exists l s in
    is_recording s1 = is_recording s /\ audio_frames s1 = audio_frames s /\
    stream s1 = stream s /\ temp_files s1 = temp_files s /\
    hotkey_manager s1 = hotkey_manager s /\
    typed s1 = typed s /\ api_calls s1 = api_calls s /\
    os_remove s1 = os_remove s.
Proof.
  induction l as [| p l IH]; intros s; cbn [fold_left]; [cbv zeta; auto 10 |].
  cbv zeta. specialize (IH (remove_if_exists s p)). cbv zeta in IH.
  destruct IH as (-> & -> & -> & -> & -> & -> & -> & ->).
  apply remove_if_exists_rest.
Qed.

(** The removal loop over the paths of [l]. *)
Lemma fold_remove_lookup (l : list string) :
  forall (s : VT) (q : string),
    fs (fold_left remove_if_exists l s) !! q
    = if bool_decide (q ∈ l)
      then match os_remove s q with Ok _ => None | Raise _ => fs s !! q end
      else fs s !! q.
Proof.
  induction l as [| p l IH]; intros s q; cbn [fold_left].
  - rewrite bool_decide_eq_false_2; [reflexivity | apply not_elem_of_nil].
  - rewrite IH, remove_if_exists_lookup.
    destruct (remove_if_exists_rest s p) as (_ & _ & _ & _ & _ & _ & _ & ->).
    destruct (bool_decide_reflect (q ∈ l)) as [Hin | Hnin].
    + rewrite (bool_decide_eq_true_2 (q ∈ p :: l))
        by (apply elem_of_cons; now right).
      destruct (os_remove s q) as [u | e] eqn:Eq; [reflexivity |].
      destruct (bool_decide_reflect (q = p)) as [-> | Hne]; [| reflexivity].
      now rewrite Eq.
    + destruct (bool_decide_reflect (q = p)) as [-> | Hne].
      * rewrite (bool_decide_eq_true_2 (p ∈ p :: l)); [reflexivity |].
        apply elem_of_cons; now left.
      * rewrite (bool_decide_eq_false_2 (q ∈ p :: l)); [reflexivity |].
        intros [? | ?]%elem_of_cons; contradiction.
Qed.

Lemma stop_recording_rest (s : VT) :
  let s1 := fst (stop_recording s) in
  is_recording s1 = false /\ stream s1 = None /\
  fs s1 = fs s /\ temp_files s1 = temp_files s /\
  hotkey_manager s1 = hotkey_manager s /\
  typed s1 = typed s /\ api_calls s1 = api_calls s /\
  os_remove s1 = os_remove s.
Proof.
  cbv zeta. unfold stop_recording, _cleanup_stream.
  cbn [stream set_is_recording].
  destruct (stream s) eqn:Es; cbn [audio_frames set_stream set_is_recording];
    destruct (audio_frames s); cbn; auto 10.
Qed.

(** What [cleanup] does to the files: when it reaches its removal loop,
    a tracked file is gone if [os.remove] answers and stays if it
    raises; every other file, and every file when the loop is not
    reached, stays as it is. *)
Lemma cleanup_lookup (listener_stop terminate : result unit) (s : VT)
    (p : string) :
  fs (fst (cleanup listener_stop terminate s)) !! p
  = if reaches_removal listener_stop terminate s
       && bool_decide (p ∈ temp_files s)
    then match os_remove s p with Ok _ => None | Raise _ => fs s !! p end
    else fs s !! p.
Proof.
  unfold cleanup, reaches_removal.
  assert (Hsr : let s1 := fst (if is_recording s then stop_recording s
                               else (s, false)) in
            fs s1 = fs s /\ temp_files s1 = temp_files s /\
            hotkey_manager s1 = hotkey_manager s /\ os_remove s1 = os_remove s).
  { cbv zeta. destruct (is_recording s); [| auto].
    destruct (stop_recording_rest s) as (_ & _ & ? & ? & ? & _ & _ & ?). auto. }
  cbv zeta in Hsr.
  destruct (if is_recording s then stop_recording s else (s, false))
    as [s1 started].
  cbn [fst] in Hsr. destruct Hsr as (Hfs & Htf & Hhm & Hrm).
  rewrite Hhm.
  assert (Hloop : forall m : Hotkey.HotkeyManager,
    fs (fst (match terminate with
             | Ok _ =>
                 (fold_left remove_if_exists
                    (elements (temp_files (_cleanup_stream (set_hotkey_manager m s1))))
                    (_cleanup_stream (set_hotkey_manager m s1)), started)
             | Raise e =>
                 (logger ERROR (py "Error during cleanup: " ++ e)
                    (_cleanup_stream (set_hotkey_manager m s1)), started)
             end)) !! p
    = if match terminate with Ok _ => true | Raise _ => false end
         && bool_decide (p ∈ temp_files s)
      then match os_remove s p with Ok _ => None | Raise _ => fs s !! p end
      else fs s !! p).
  { intros m.
    assert (Hc : fs (_cleanup_stream (set_hotkey_manager m s1)) = fs s /\
                 temp_files (_cleanup_stream (set_hotkey_manager m s1))
                 = temp_files s /\
                 os_remove (_cleanup_stream (set_hotkey_manager m s1))
                 = os_remove s).
    { unfold _cleanup_stream. cbn [stream set_hotkey_manager].
      destruct (stream s1); cbn; auto. }
    destruct Hc as (Hc1 & Hc2 & Hc3).
    destruct terminate as [u | e]; cbn [fst andb].
    - rewrite fold_remove_lookup, Hc1, Hc2, Hc3.
      destruct (bool_decide_reflect (p ∈ temp_files s)) as [Hin | Hnin].
      + rewrite bool_decide_eq_true_2 by now apply elem_of_elements.
        reflexivity.
      + rewrite bool_decide_eq_false_2 by now rewrite elem_of_elements.
        reflexivity.
    - cbn [fs logger]. now rewrite Hc1. }
  unfold Hotkey.stop_listening.
  destruct (Hotkey.listener (hotkey_manager s)) as [l |];
    [destruct listener_stop as [u | e] |].
  - rewrite Hloop. now destruct terminate.
  - cbn [fst fs logger andb]. exact (f_equal (fun x => x !! p) Hfs).
  - rewrite Hloop. now destruct listener_stop, terminate.
Qed.

(** C3, as stated. A processing run whose transcription succeeds, and one
    whose transcription fails on all three attempts, both return with the
    audio file still on disk. *)
Lemma temp_file_survives_processing :
  typed processed_hello = [py "Hello world"] /\
  fs processed_hello !! "tmp.wav"%string = Some (wav_of cfg0 [chunk0]) /\
  api_calls processed_down = 3%nat /\
  fs processed_down !! "tmp.wav"%string = Some (wav_of cfg0 [chunk0]).
Proof. vm_compute. repeat split. Qed.

(** A file no removal succeeds on outlives the shutdown: the processing
    run on a system that refuses every removal leaves [tmp.wav], and
    [cleanup] leaves it too, with a warning; after a failed write the
    handler leaves the file where it is. *)
Example locked_file_survives_cleanup :
  let s' := _process_audio cfg0 (Ok "tmp.wav"%string) (Ok ()) backend_hello
              vt_locked in
  fs (fst (cleanup (Ok ()) (Ok ()) s')) !! "tmp.wav"%string
    = Some (wav_of cfg0 [chunk0]) /\
  last (log (fst (cleanup (Ok ()) (Ok ()) s')))
    = Some (WARNING,
            py "Failed to remove temporary file tmp.wav: Permission denied") /\
  is_Some
    (fs (_process_audio cfg0 (Ok "tmp.wav"%string) (Raise (py "disk full"))
           backend_hello vt_locked) !! "tmp.wav"%string).
Proof.
  cbv zeta. split; [vm_compute; reflexivity |].
  split; [vm_compute; reflexivity |].
  exists EmptyFile. vm_compute. reflexivity.
Qed.

(** C3, amended. Whatever the backend answers, once the audio file of a
    processing run is written it is still there when the run returns, and
    its name is in [temp_files]. At shutdown [cleanup] removes it when
    it reaches its removal loop (neither the stop of the listener nor
    [terminate] raises) and [os.remove] answers for the file; when
    [os.remove] raises, or the loop is not reached, the file stays. When
    writing the file fails, the run removes the file itself, again only
    if [os.remove] answers: otherwise the file stays. *)
Theorem temp_file_kept_until_cleanup {U : Unicode} (cfg : Config) (name : string)
    (backend : Backend) (s : VT) :
  audio_frames s <> [] ->
  let s' := _process_audio cfg (Ok name) (Ok ()) backend s in
  fs s' !! name = Some (wav_of cfg (audio_frames s)) /\
  name ∈ temp_files s' /\
  (forall listener_stop terminate : result unit,
     fs (fst (cleanup listener_stop terminate s')) !! name
     = if reaches_removal listener_stop terminate s
       then match os_remove s name with
            | Ok _ => None
            | Raise _ => Some (wav_of cfg (audio_frames s))
            end
       else Some (wav_of cfg (audio_frames s))) /\
  forall e : str,
    match os_remove s name with
    | Ok _ => fs (_process_audio cfg (Ok name) (Raise e) backend s) !! name = None
    | Raise _ =>
        is_Some (fs (_process_audio cfg (Ok name) (Raise e) backend s) !! name)
    end.
Proof.
  intros Hne s'.
  pose proof (process_audio_files cfg name backend s Hne) as Hf.
  fold s' in Hf. unfold files_of in Hf.
  assert (Hfs := f_equal fst Hf). assert (Htf := f_equal snd Hf).
  simpl in Hfs, Htf.
  assert (Hin : name ∈ temp_files s').
  { rewrite Htf. apply elem_of_union_r. now apply elem_of_singleton. }
  assert (Hkept : fs s' !! name = Some (wav_of cfg (audio_frames s))).
  { rewrite Hfs. apply lookup_insert_eq. }
  destruct (process_audio_env cfg (Ok name) (Ok ()) backend s) as [Hhm Hrm].
  fold s' in Hhm, Hrm.
  split; [exact Hkept |].
  split; [exact Hin |].
  split.
  - intros listener_stop terminate. rewrite cleanup_lookup.
    assert (Hreach : reaches_removal listener_stop terminate s'
                     = reaches_removal listener_stop terminate s).
    { unfold reaches_removal. now rewrite Hhm. }
    rewrite Hreach, Hrm, Hkept.
    rewrite (bool_decide_eq_true_2 _ Hin), andb_true_r. reflexivity.
  - intros e. unfold _process_audio, save_audio_to_file.
    destruct (audio_frames s) eqn:E; [contradiction |]. cbn [fst snd].
    cbn [fs logger set_fs set_temp_files os_remove].
    rewrite lookup_insert_eq. rewrite bool_decide_eq_true_2 by eauto.
    destruct (os_remove s name); cbn [fs logger set_fs];
      [apply lookup_delete_eq | eexists; apply lookup_insert_eq].
Qed.

Lemma temp_file_kept_until_cleanup_witness :
  audio_frames vt_recorded <> [] /\
  fs processed_down !! "tmp.wav"%string = Some (wav_of cfg0 [chunk0]) /\
  "tmp.wav"%string ∈ temp_files processed_down /\
  fs (fst (cleanup (Ok ()) (Ok ()) processed_down)) !! "tmp.wav"%string = None /\
  fs (fst (cleanup (Ok ()) (Raise (py "terminate failed")) processed_down))
    !! "tmp.wav"%string = Some (wav_of cfg0 [chunk0]).
Proof.
  assert (Hne : audio_frames vt_recorded <> []) by (vm_compute; discriminate).
  destruct (temp_file_kept_until_cleanup cfg0 "tmp.wav"%string backend_down
              vt_recorded Hne) as (Hkept & Hin & Hshut & _).
  split; [exact Hne |]. split; [exact Hkept |]. split; [exact Hin |].
  split.
  - exact (Hshut (Ok ()) (Ok ())).
  - exact (Hshut (Ok ()) (Raise (py "terminate failed"))).
Defined.

(** ** The retrying transcription call *)

Lemma transcribe_once_calls (backend : Backend) (path : string) (s : VT) :
  (api_calls (snd (transcribe_once backend path s)) <= S (api_calls s))%nat.
Proof.
  unfold transcribe_once. destruct (fs s !! path); simpl; [| lia].
  destruct (backend _ _); simpl; lia.
Qed.

Lemma retry_calls (n : nat) (body : VT -> result str * VT) :
  (forall s, (api_calls (snd (body s)) <= S (api_calls s))%nat) ->
  forall s, (api_calls (snd (retry n body s)) <= api_calls s + n)%nat.
Proof.
  intros Hb. induction n as [| n IH]; intros s; simpl; [lia |].
  specialize (Hb s). destruct (body s) as [[t | e] s1]; simpl in *; [lia |].
  specialize (IH s1). lia.
Qed.

Lemma transcribe_once_fails (backend : Backend) (path : string) (s : VT)
    (f : file) :
  fs s !! path = Some f -> fails backend (api_calls s) ->
  exists e s1, transcribe_once backend path s = (Raise e, s1) /\
    api_calls s1 = S (api_calls s) /\ fs s1 = fs s /\ typed s1 = typed s.
Proof.
  intros Hf Hb. destruct (Hb f) as [e He]. unfold transcribe_once.
  rewrite Hf, He. eexists _, _. split; [reflexivity |]. auto.
Qed.

Lemma transcribe_once_answers (backend : Backend) (path : string) (s : VT)
    (f : file) (text : str) :
  fs s !! path = Some f -> answers backend (api_calls s) text ->
  exists s1, transcribe_once backend path s = (Ok text, s1) /\
    api_calls s1 = S (api_calls s).
Proof.
  intros Hf Hb. unfold transcribe_once. rewrite Hf, (Hb f).
  eexists. split; [reflexivity |]. auto.
Qed.

Lemma transcribe_audio_exhausted (backend : Backend) (path : string) (s : VT)
    (f : file) :
  fs s !! path = Some f ->
  fails backend (api_calls s) -> fails backend (api_calls s + 1) ->
  fails backend (api_calls s + 2) ->
  exists s3, transcribe_audio backend path s = (Raise (py "RetryError"), s3) /\
    api_calls s3 = (api_calls s + 3)%nat /\ typed s3 = typed s.
Proof.
  intros Hf H0 H1 H2. unfold transcribe_audio. simpl.
  destruct (transcribe_once_fails backend path s f Hf H0)
    as (e1 & s1 & -> & Hc1 & Hf1 & Ht1).
  rewrite <- Hf1 in Hf.
  replace (api_calls s + 1)%nat with (api_calls s1) in H1 by lia.
  destruct (transcribe_once_fails backend path s1 f Hf H1)
    as (e2 & s2 & -> & Hc2 & Hf2 & Ht2).
  rewrite <- Hf2 in Hf.
  replace (api_calls s + 2)%nat with (api_calls s2) in H2 by lia.
  destruct (transcribe_once_fails backend path s2 f Hf H2)
    as (e3 & s3 & -> & Hc3 & Hf3 & Ht3).
  exists s3. split; [reflexivity |]. split; [lia | congruence].
Qed.

(** C6. With the audio file in place and [n] requests made so far, the
    transcription call makes at most three more. If the backend raises
    on requests [n] and [n+1] and answers request [n+2], the call returns
    that answer after exactly three requests. If it raises on all three,
    the call raises after exactly three requests; the processing run then
    logs the error, has made three requests and types nothing. *)
Theorem transcription_at_most_three_attempts {U : Unicode} (backend : Backend)
    (path : string) (s : VT) (f : file) :
  fs s !! path = Some f ->
  let n := api_calls s in
  (api_calls (snd (transcribe_audio backend path s)) <= n + 3)%nat /\
  (forall text : str,
     fails backend n -> fails backend (n + 1) -> answers backend (n + 2) text ->
     fst (transcribe_audio backend path s) = Ok text /\
     api_calls (snd (transcribe_audio backend path s)) = (n + 3)%nat) /\
  (fails backend n -> fails backend (n + 1) -> fails backend (n + 2) ->
     fst (transcribe_audio backend path s) = Raise (py "RetryError") /\
     api_calls (snd (transcribe_audio backend path s)) = (n + 3)%nat) /\
  (forall (cfg : Config) (name : string),
     audio_frames s <> [] ->
     fails backend n -> fails backend (n + 1) -> fails backend (n + 2) ->
     api_calls (_process_audio cfg (Ok name) (Ok ()) backend s) = (n + 3)%nat /\
     typed (_process_audio cfg (Ok name) (Ok ()) backend s) = typed s /\
     last (log (_process_audio cfg (Ok name) (Ok ()) backend s))
       = Some (ERROR, py "Processing error: RetryError")).
Proof.
  intros Hf n. split; [| split; [| split]].
  - apply retry_calls, transcribe_once_calls.
  - intros text H0 H1 H2. unfold transcribe_audio. simpl.
    destruct (transcribe_once_fails backend path s f Hf H0)
      as (e1 & s1 & -> & Hc1 & Hf1 & Ht1).
    rewrite <- Hf1 in Hf.
    replace (n + 1)%nat with (api_calls s1) in H1 by (subst n; lia).
    destruct (transcribe_once_fails backend path s1 f Hf H1)
      as (e2 & s2 & -> & Hc2 & Hf2 & Ht2).
    rewrite <- Hf2 in Hf.
    replace (n + 2)%nat with (api_calls s2) in H2 by (subst n; lia).
    destruct (transcribe_once_answers backend path s2 f text Hf H2)
      as (s3 & -> & Hc3).
    simpl. split; [reflexivity | subst n; lia].
  - intros H0 H1 H2.
    destruct (transcribe_audio_exhausted backend path s f Hf H0 H1 H2)
      as (s3 & -> & Hc & _).
    simpl. auto.
  - intros cfg name Hne H0 H1 H2.
    unfold _process_audio, save_audio_to_file.
    destruct (audio_frames s) eqn:E; [contradiction |]. simpl. rewrite E.
    match goal with
    | |- context [transcribe_audio backend name ?x] =>
        destruct (transcribe_audio_exhausted backend name x
                    (wav_of cfg (audio_frames s)))
          as (s3 & -> & Hc & Ht)
    end; simpl; try assumption.
    + rewrite E. apply lookup_insert_eq.
    + split; [exact Hc |]. split; [exact Ht |]. apply last_snoc.
Qed.

Lemma transcription_at_most_three_attempts_witness :
  fs vt_saved !! "tmp.wav"%string = Some (wav_of cfg0 [chunk0]) /\
  fst (transcribe_audio backend_third "tmp.wav"%string vt_saved)
    = Ok (py "uh hello world") /\
  api_calls (snd (transcribe_audio backend_third "tmp.wav"%string vt_saved))
    = 3%nat /\
  fst (transcribe_audio backend_down "tmp.wav"%string vt_saved)
    = Raise (py "RetryError") /\
  api_calls (snd (transcribe_audio backend_down "tmp.wav"%string vt_saved))
    = 3%nat.
Proof.
  assert (Hf : fs vt_saved !! "tmp.wav"%string = Some (wav_of cfg0 [chunk0]))
    by (vm_compute; reflexivity).
  assert (Hdown : forall k, fails backend_down k)
    by (intros k f; eexists; reflexivity).
  assert (H0 : fails backend_third 0) by (intros f; eexists; reflexivity).
  assert (H1 : fails backend_third 1) by (intros f; eexists; reflexivity).
  assert (H2 : answers backend_third 2 (py "uh hello world"))
    by (intros f; reflexivity).
  destruct (transcription_at_most_three_attempts backend_third "tmp.wav"%string
              vt_saved _ Hf) as (_ & Hthird & _ & _).
  destruct (transcription_at_most_three_attempts backend_down "tmp.wav"%string
              vt_saved _ Hf) as (_ & _ & Hall & _).
  destruct (Hthird (py "uh hello world") H0 H1 H2) as [Ha Hb].
  destruct (Hall (Hdown _) (Hdown _) (Hdown _)) as [Hc Hd].
  split; [exact Hf |]. repeat split; assumption.
Defined.

(** ** More on the hotkey parser *)

Lemma digit_cases (lo hi d : Z) :
  in_range lo hi d = true -> lo <= d <= hi.
Proof. unfold in_range. intros H. apply andb_true_iff in H as [H1 H2]. lia. Qed.

Lemma isspace_digit (d : Z) : 48 <= d <= 57 -> isspace d = false.
Proof.
  intros H. unfold isspace, in_range.
  repeat (apply orb_false_iff; split); try (apply andb_false_iff); lia.
Qed.

Lemma strip_digits_1 (d : Z) : 48 <= d <= 57 -> strip [d] = [d].
Proof.
  intros H. unfold strip, rstrip_by. simpl. rewrite (isspace_digit d H). simpl.
  now rewrite (isspace_digit d H).
Qed.

Lemma strip_digits_2 (a d : Z) :
  48 <= a <= 57 -> 48 <= d <= 57 -> strip [a; d] = [a; d].
Proof.
  intros Ha H. unfold strip, rstrip_by. simpl. rewrite (isspace_digit a Ha). simpl.
  now rewrite (isspace_digit d H).
Qed.

Lemma strip_snoc_newline (s : str) : strip (s ++ [10]) = strip s.
Proof.
  unfold strip, rstrip_by.
  assert (forall t, lstrip_by isspace (t ++ [10]) = 
                    match lstrip_by isspace t with [] => [] | r => r ++ [10] end).
  { induction t as [| c t IH]; simpl; [reflexivity |].
    destruct (isspace c); [exact IH | reflexivity]. }
  rewrite H. destruct (lstrip_by isspace s) eqn:E; [reflexivity |].
  rewrite rev_app_distr. simpl. reflexivity.
Qed.

(** Case analysis on a number the code matches against a literal below
    256: every branch off the literal is closed by [tac]. *)
Ltac lit_cases z tac :=
  destruct z as [| z | z]; try (now tac);
  do 8 (try (destruct z as [z | z |]; try (now tac))).

Lemma fn_key_match_true (k : str) :
  fn_key_match k = true ->
  exists body : str,
    (k = 102 :: body \/ k = 102 :: body ++ [10]) /\
    exists d : Z,
      (body = [d] /\ 49 <= d <= 57) \/
      (body = [49; d] /\ 48 <= d <= 57) \/
      (body = [50; d] /\ 48 <= d <= 52).
Proof.
  unfold fn_key_match. destruct k as [| c r]; [discriminate |].
  lit_cases c ltac:(intros H0; discriminate H0).
  set (body := match rev r with 10 :: b => rev b | _ => r end).
  assert (Hb : r = body \/ r = body ++ [10]).
  { subst body. destruct (rev r) as [| x b] eqn:E; [now left |].
    assert (Hr : r = rev b ++ [x]).
    { rewrite <- (rev_involutive r), E. reflexivity. }
    destruct (Z.eq_dec x 10) as [-> | Hx].
    - right. exact Hr.
    - left. lit_cases x ltac:(reflexivity). contradiction. }
  clearbody body. intros H. exists body. split.
  { destruct Hb as [-> | ->]; [now left | now right]. }
  destruct body as [| a [| d [| ? ?]]]; try discriminate.
  - exists a. left. split; [reflexivity |]. apply digit_cases.
    lit_cases a ltac:(exact H).
  - destruct (Z.eq_dec a 49) as [-> | Ha49].
    + exists d. right. left. split; [reflexivity | now apply digit_cases].
    + destruct (Z.eq_dec a 50) as [-> | Ha50].
      * exists d. right. right. split; [reflexivity | now apply digit_cases].
      * exfalso. lit_cases a ltac:(discriminate H); contradiction.
  - exfalso. lit_cases a ltac:(discriminate H).
Qed.

Lemma fn_key_number (k : str) :
  fn_key_match k = true -> 1 <= int_of (tl k) <= 24.
Proof.
  intros H. apply fn_key_match_true in H as (body & Hk & d & Hd).
  assert (Hint : int_of (tl k) = int_of body).
  { destruct Hk as [-> | ->]; simpl; [reflexivity |].
    unfold int_of. now rewrite strip_snoc_newline. }
  rewrite Hint. unfold int_of.
  destruct Hd as [[-> Hd] | [[-> Hd] | [-> Hd]]].
  - rewrite strip_digits_1 by lia. simpl. lia.
  - rewrite strip_digits_2 by lia. simpl. lia.
  - rewrite strip_digits_2 by lia. simpl. lia.
Qed.

Lemma dict_get_Key (d : list (str * key)) (k : str) (x : key) :
  Forall (fun kv => exists n, snd kv = Key n) d ->
  dict_get d k = Some x -> exists n, x = Key n.
Proof.
  induction 1 as [| [k' v] d [n Hn] _ IH]; simpl; [discriminate |].
  destruct (PyStr.eqb k' k); [| exact IH].
  intros [= <-]. exists n. exact Hn.
Qed.

Lemma MODIFIER_MAP_Key : Forall (fun kv => exists n, snd kv = Key n) MODIFIER_MAP.
Proof. unfold MODIFIER_MAP. repeat constructor; simpl; eauto. Qed.

Lemma SPECIAL_KEYS_MAP_Key :
  Forall (fun kv => exists n, snd kv = Key n) SPECIAL_KEYS_MAP.
Proof. unfold SPECIAL_KEYS_MAP. repeat constructor; simpl; eauto. Qed.

Lemma function_keys_parse (n : Z) :
  1 <= n <= 24 ->
  @_parse_single_key py_unicode (102 :: decimal n)
    = Some (KeyCode_from_vk (111 + n)).
Proof.
  intros Hn.
  assert (Hall : forallb (fun n => bool_decide
                   (@_parse_single_key py_unicode (102 :: decimal n)
                    = Some (KeyCode_from_vk (111 + n))))
                   (map Z.of_nat (seq 1 24)) = true)
    by (vm_compute; reflexivity).
  rewrite forallb_forall in Hall.
  assert (Hin : In n (map Z.of_nat (seq 1 24))).
  { apply in_map_iff. exists (Z.to_nat n). split; [lia |]. apply in_seq. lia. }
  apply Hall in Hin. now apply bool_decide_eq_true_1 in Hin.
Qed.

(** X1. A key code given by its virtual-key number comes from the
    function-key pattern only: whatever the case table, when a token
    parses to the key code [vk], [vk] lies between 112 and 135 (F1 to
    F24), and with the case table of Python the token [f] followed by
    [vk - 111] in decimal parses to it. *)
Theorem function_key_codes {U : Unicode} (key_string : str) (vk : Z) :
  _parse_single_key key_string = Some (KeyCode_from_vk vk) ->
  112 <= vk <= 135 /\
  @_parse_single_key py_unicode (102 :: decimal (vk - 111))
    = Some (KeyCode_from_vk vk).
Proof.
  intros H.
  assert (Hr : 112 <= vk <= 135).
  { revert H. unfold _parse_single_key. cbv zeta.
    destruct (dict_get MODIFIER_MAP _) as [x |] eqn:Em.
    { intros [= ->]. apply dict_get_Key in Em as [n Hn];
        [discriminate | apply MODIFIER_MAP_Key]. }
    destruct (dict_get SPECIAL_KEYS_MAP _) as [x |] eqn:Es.
    { intros [= ->]. apply dict_get_Key in Es as [n Hn];
        [discriminate | apply SPECIAL_KEYS_MAP_Key]. }
    destruct (fn_key_match _) eqn:Ef.
    + intros [= <-]. apply fn_key_number in Ef. lia.
    + destruct (_ && _); discriminate. }
  split; [exact Hr |].
  rewrite function_keys_parse by lia. do 2 f_equal. lia.
Qed.

Lemma function_key_codes_witness :
  @_parse_single_key py_unicode (py "F13") = Some (KeyCode_from_vk 124) /\
  112 <= 124 <= 135.
Proof.
  assert (H : @_parse_single_key py_unicode (py "F13") = Some (KeyCode_from_vk 124))
    by (vm_compute; reflexivity).
  split; [exact H |].
  exact (proj1 (@function_key_codes py_unicode (py "F13") 124 H)).
Defined.

Lemma split_on_no_sep (sep : Z) (t : str) :
  mem sep t = false -> split_on sep t = [t].
Proof.
  induction t as [| c t IH]; simpl; [reflexivity |].
  intros H. apply orb_false_iff in H as [Hc Ht].
  rewrite Z.eqb_sym, Hc. now rewrite IH.
Qed.

Lemma split_on_app (sep : Z) (t rest : str) :
  mem sep t = false ->
  split_on sep (t ++ sep :: rest) = t :: split_on sep rest.
Proof.
  induction t as [| c t IH]; simpl.
  - intros _. now rewrite Z.eqb_refl.
  - intros H. apply orb_false_iff in H as [Hc Ht].
    rewrite Z.eqb_sym, Hc. now rewrite IH.
Qed.

(** Joining fields that hold no separator and splitting again gives the
    fields back. *)
Lemma split_on_join (sep : Z) (toks : list str) :
  toks <> [] -> Forall (fun t => mem sep t = false) toks ->
  split_on sep (join [sep] toks) = toks.
Proof.
  induction toks as [| t toks IH]; [congruence |]. intros _ H.
  apply Forall_cons in H as [Ht Hts].
  destruct toks as [| t' toks].
  - simpl. now apply split_on_no_sep.
  - change (join [sep] (t :: t' :: toks)) with (t ++ [sep] ++ join [sep] (t' :: toks)).
    simpl app. rewrite split_on_app by assumption.
    f_equal. apply IH; [discriminate | assumption].
Qed.

Lemma parse_parts_spec {U : Unicode} (parts : list str) (acc : gset key) :
  parse_parts parts acc =
    if forallb resolved parts
    then Some (acc ∪ list_to_set (omap _parse_single_key parts))
    else None.
Proof.
  revert acc. induction parts as [| p parts IH]; intros acc;
    cbn [parse_parts forallb omap list_omap].
  - f_equal. rewrite list_to_set_nil. now rewrite (right_id_L ∅ (∪)).
  - unfold resolved at 1. destruct (_parse_single_key p) as [k |];
      cbn [andb]; [| reflexivity].
    rewrite IH. destruct (forallb resolved parts); [| reflexivity].
    f_equal. rewrite list_to_set_cons. now rewrite (assoc_L (∪)).
Qed.

Lemma parse_parts_same_tokens {U : Unicode} (parts parts' : list str) (acc : gset key) :
  (forall p, p ∈ parts <-> p ∈ parts') ->
  parse_parts parts acc = parse_parts parts' acc.
Proof.
  intros Hsame. rewrite !parse_parts_spec.
  assert (Hall : forallb resolved parts = forallb resolved parts').
  { apply eq_true_iff_eq. rewrite !forallb_forall. split; intros H p Hp;
      apply H; apply list_elem_of_In; apply Hsame; now apply list_elem_of_In. }
  rewrite Hall. destruct (forallb resolved parts'); [| reflexivity].
  f_equal. f_equal. apply set_eq. intros k.
  rewrite !elem_of_list_to_set, !list_elem_of_omap.
  split; intros (p & Hp & Hk); exists p; (split; [now apply Hsame | exact Hk]).
Qed.

(** X2. A hotkey string names a set of keys: two strings whose tokens
    between the [+] signs are the same up to order and repetition parse
    to the same result (the same key set, or the same failure). *)
Theorem parse_hotkey_order_irrelevant {U : Unicode} (toks toks' : list str) :
  toks <> [] -> toks' <> [] ->
  Forall (fun t => mem 43 t = false) toks ->
  Forall (fun t => mem 43 t = false) toks' ->
  (forall t, t ∈ toks <-> t ∈ toks') ->
  parse_hotkey (join [43] toks) = parse_hotkey (join [43] toks').
Proof.
  intros Hne Hne' Hs Hs' Hsame.
  assert (Hgen : forall l, l <> [] -> Forall (fun t => mem 43 t = false) l ->
            parse_hotkey (join [43] l)
            = match parse_parts (map (fun part => lower (strip part)) l) ∅ with
              | Some keys => if bool_decide (keys = ∅) then None else Some keys
              | None => None
              end).
  { intros l Hl Hf. unfold parse_hotkey, hotkey_parts.
    rewrite (split_on_join 43 l Hl Hf).
    case_bool_decide as Hempty.
    - (* the joined string is empty: the only token is the empty one *)
      assert (Hin : [] ∈ l).
      { destruct l as [| t [| t2 l2]]; [congruence | |].
        - simpl in Hempty. subst t. left.
        - exfalso. simpl in Hempty. destruct t; discriminate. }
      rewrite (parse_parts_unresolved _ ∅ (lower (strip []))); [reflexivity | |].
      + apply list_elem_of_fmap. exists []. auto.
      + reflexivity.
    - rewrite bool_decide_eq_false_2; [reflexivity |].
      intros Hm. apply map_eq_nil in Hm. contradiction. }
  rewrite (Hgen toks Hne Hs), (Hgen toks' Hne' Hs').
  rewrite (parse_parts_same_tokens _ (map (fun part => lower (strip part)) toks') ∅);
    [reflexivity |].
  intros p. rewrite !list_elem_of_fmap.
  split; intros (t & -> & Ht); exists t; (split; [reflexivity | now apply Hsame]).
Qed.

Lemma parse_hotkey_order_irrelevant_witness :
  parse_hotkey (join [43] [py "a"; py "ctrl"; py "a"])
  = parse_hotkey (join [43] [py "ctrl"; py "a"]).
Proof.
  apply (@parse_hotkey_order_irrelevant py_unicode).
  - discriminate.
  - discriminate.
  - repeat (apply Forall_cons; split; [vm_compute; reflexivity |]). apply Forall_nil_2.
  - repeat (apply Forall_cons; split; [vm_compute; reflexivity |]). apply Forall_nil_2.
  - intros t. rewrite !elem_of_cons, !elem_of_nil. tauto.
Defined.

(** ** More on the hotkey manager *)

(** X3. [validate_hotkey] has exactly four outcomes: the empty string, a
    string that does not parse, more than four keys, and a valid string
    of one to four keys, which [register_hotkey] then accepts. The
    message [No valid keys found in hotkey string] is never returned. *)
Theorem validate_hotkey_outcomes {U : Unicode} (s : str) :
  (s = [] /\ validate_hotkey s = (false, py "Hotkey string cannot be empty")) \/
  (s <> [] /\ parse_hotkey s = None /\
   validate_hotkey s = (false, py "Invalid hotkey format: '" ++ s ++ py "'")) \/
  (exists keys : gset key,
     parse_hotkey s = Some keys /\ (4 < size keys)%nat /\
     validate_hotkey s = (false, py "Too many keys in combination (maximum 4)")) \/
  (exists keys : gset key,
     parse_hotkey s = Some keys /\ (1 <= size keys <= 4)%nat /\
     validate_hotkey s = (true, py "Valid hotkey") /\
     forall (p r : option Callback) (m : HotkeyManager),
       snd (register_hotkey s p r m) = true).
Proof.
  unfold validate_hotkey. case_bool_decide as Hs; [left; auto |]. right.
  destruct (parse_hotkey s) as [keys |] eqn:Ep; [right | left; auto].
  assert (Hsz : size keys <> 0%nat).
  { intros H0. apply size_empty_iff in H0.
    apply (parse_hotkey_nonempty s keys Ep). now apply leibniz_equiv. }
  destruct (Nat.eqb_spec (size keys) 0); [contradiction |].
  destruct (Nat.ltb_spec 4 (size keys)).
  - left. exists keys. auto.
  - right. exists keys. repeat split; auto; try lia.
    intros p r m. unfold register_hotkey. now rewrite Ep.
Qed.

Lemma dict_lookup_set_ne (k k' : gset key) (v : HotkeyInfo)
    (d : list (gset key * HotkeyInfo)) :
  k' <> k -> dict_lookup k' (dict_set k v d) = dict_lookup k' d.
Proof.
  intros Hne. induction d as [| [k0 v0] d IH]; simpl.
  - now rewrite decide_False by congruence.
  - destruct (decide (k0 = k)) as [-> |]; simpl.
    + rewrite !decide_False by congruence. reflexivity.
    + destruct (decide (k0 = k')); [reflexivity | exact IH].
Qed.

Lemma dict_set_length (k : gset key) (v : HotkeyInfo)
    (d : list (gset key * HotkeyInfo)) :
  length (dict_set k v d)
  = match dict_lookup k d with Some _ => length d | None => S (length d) end.
Proof.
  induction d as [| [k0 v0] d IH]; simpl; [reflexivity |].
  destruct (decide (k0 = k)); simpl; [reflexivity |].
  rewrite IH. destruct (dict_lookup k d); reflexivity.
Qed.

(** X4. Registering a string that parses stores the new registration
    (inactive, with the given callbacks) under its key set, replacing
    what was registered under the same set; every other registration and
    the pressed keys stay as they were, and the table grows by one entry
    exactly when the key set was new. *)
Theorem register_hotkey_overwrites {U : Unicode} (s : str)
    (p r : option Callback) (m : HotkeyManager) (keys : gset key) :
  parse_hotkey s = Some keys ->
  let m' := fst (register_hotkey s p r m) in
  dict_lookup keys (hotkeys m') = Some (mkInfo p r s false 0) /\
  (forall k' : gset key, k' <> keys ->
     dict_lookup k' (hotkeys m') = dict_lookup k' (hotkeys m)) /\
  length (hotkeys m')
    = match dict_lookup keys (hotkeys m) with
      | Some _ => length (hotkeys m)
      | None => S (length (hotkeys m))
      end /\
  pressed_keys m' = pressed_keys m.
Proof.
  intros Hp. unfold register_hotkey. rewrite Hp. simpl.
  split; [apply dict_lookup_set |].
  split; [intros k' Hk; now apply dict_lookup_set_ne |].
  split; [apply dict_set_length | reflexivity].
Qed.

Lemma register_hotkey_overwrites_witness :
  @parse_hotkey py_unicode (py "alt") = Some {[ Key "alt" ]} /\
  dict_lookup {[ Key "alt" ]}
    (hotkeys (fst (@register_hotkey py_unicode (py "alt") (Some 1%nat)
                     (Some 2%nat) init)))
  = Some (mkInfo (Some 1%nat) (Some 2%nat) (py "alt") false 0).
Proof.
  assert (Hp : @parse_hotkey py_unicode (py "alt") = Some {[ Key "alt" ]})
    by (vm_compute; reflexivity).
  destruct (@register_hotkey_overwrites py_unicode (py "alt") (Some 1%nat)
              (Some 2%nat) init {[ Key "alt" ]} Hp) as (Hl & _).
  split; [exact Hp | exact Hl].
Defined.

Ltac norm_cases k :=
  unfold _normalize_key;
  destruct (bool_decide_reflect (k = Key "ctrl_l")) as [-> | ?]; [reflexivity |];
  destruct (bool_decide_reflect (k = Key "ctrl_r")) as [-> | ?]; [reflexivity |];
  destruct (bool_decide_reflect (k = Key "alt_l")) as [-> | ?]; [reflexivity |];
  destruct (bool_decide_reflect (k = Key "alt_r")) as [-> | ?]; [reflexivity |];
  destruct (bool_decide_reflect (k = Key "shift_l")) as [-> | ?]; [reflexivity |];
  destruct (bool_decide_reflect (k = Key "shift_r")) as [-> | ?]; [reflexivity |];
  destruct (bool_decide_reflect (k = Key "cmd_l")) as [-> | ?]; [reflexivity |];
  destruct (bool_decide_reflect (k = Key "cmd_r")) as [-> | ?]; [reflexivity |];
  cbn [orb].

Lemma normalize_not_sided (k : key) : sided (_normalize_key k) = false.
Proof.
  norm_cases k. unfold sided. apply bool_decide_eq_false_2.
  rewrite !elem_of_cons, elem_of_nil. intuition congruence.
Qed.

Lemma normalize_unsided (k : key) : sided k = false -> _normalize_key k = k.
Proof.
  unfold sided. intros H. apply bool_decide_eq_false_1 in H.
  rewrite !elem_of_cons, elem_of_nil in H.
  unfold _normalize_key.
  repeat (rewrite (bool_decide_eq_false_2 (k = _)) by (intros ->; tauto)).
  reflexivity.
Qed.

Lemma normalize_idempotent (k : key) :
  _normalize_key (_normalize_key k) = _normalize_key k.
Proof. apply normalize_unsided, normalize_not_sided. Qed.

Lemma pressed_after_press (k : key) (m : HotkeyManager) :
  pressed_keys (fst (_on_press k m)) = pressed_keys m ∪ {[ _normalize_key k ]}.
Proof. rewrite on_press_eq. reflexivity. Qed.

Lemma pressed_after_release (k : key) (m : HotkeyManager) :
  pressed_keys (fst (_on_release k m)) = pressed_keys m ∖ {[ _normalize_key k ]}.
Proof. rewrite on_release_eq. reflexivity. Qed.

Lemma pressed_register_all {U : Unicode} (regs : list registration) (m : HotkeyManager) :
  pressed_keys (register_all regs m) = pressed_keys m.
Proof.
  revert m. induction regs as [| [[s p] r] regs IH]; intros m; simpl; [reflexivity |].
  rewrite IH. unfold register_hotkey. destruct (parse_hotkey s); reflexivity.
Qed.

Lemma pressed_unsided_run (evs : list event) (m : HotkeyManager) :
  (forall k, k ∈ pressed_keys m -> sided k = false) ->
  forall k, k ∈ pressed_keys (fst (run evs m)) -> sided k = false.
Proof.
  revert m. induction evs as [| ev evs IH]; intros m H; simpl; [exact H |].
  destruct (handle ev m) as [m1 f1] eqn:E1.
  destruct (run evs m1) as [m2 f2] eqn:E2. simpl.
  change m2 with (fst (m2, f2)). rewrite <- E2. apply IH.
  change m1 with (fst (m1, f1)). rewrite <- E1.
  intros k. destruct ev as [k0 | k0]; simpl.
  - rewrite pressed_after_press. intros Hk. apply elem_of_union in Hk as [Hk | Hk].
    + now apply H.
    + apply elem_of_singleton in Hk as ->. apply normalize_not_sided.
  - rewrite pressed_after_release. intros Hk.
    apply elem_of_difference in Hk as [Hk _]. now apply H.
Qed.

(** X5. [_normalize_key] is idempotent and never returns a left or right
    modifier; so after any registrations and any key events every
    pressed key is a key normalisation leaves alone. *)
Theorem pressed_keys_never_sided {U : Unicode} (regs : list registration)
    (evs : list event) (k : key) :
  _normalize_key (_normalize_key k) = _normalize_key k /\
  sided (_normalize_key k) = false /\
  (k ∈ pressed_keys (fst (run evs (register_all regs init))) ->
   sided k = false /\ _normalize_key k = k).
Proof.
  split; [apply normalize_idempotent |]. split; [apply normalize_not_sided |].
  intros Hk.
  assert (Hs : sided k = false).
  { apply (pressed_unsided_run evs (register_all regs init)); [| exact Hk].
    intros k0. rewrite pressed_register_all. simpl. intros H0.
    now apply elem_of_empty in H0. }
  split; [exact Hs | now apply normalize_unsided].
Qed.

Lemma run_single_alternates (a b : Callback) (evs : list event) :
  forall (m : HotkeyManager) (kc : gset key) (info : HotkeyInfo),
    hotkeys m = [(kc, info)] ->
    on_press info = Some a -> on_release info = Some b ->
    if is_active info then alternates b a (snd (run evs m))
    else alternates a b (snd (run evs m)).
Proof.
  induction evs as [| ev evs IH]; intros m kc info Hh Hp Hr; simpl.
  { destruct (is_active info); exact I. }
  destruct (handle ev m) as [m1 f1] eqn:E1.
  destruct (run evs m1) as [m2 f2] eqn:E2. simpl.
  assert (Hstep : exists info1,
            hotkeys m1 = [(kc, info1)] /\ on_press info1 = Some a /\
            on_release info1 = Some b /\
            ((f1 = [] /\ is_active info1 = is_active info) \/
             (f1 = [a] /\ is_active info = false /\ is_active info1 = true) \/
             (f1 = [b] /\ is_active info = true /\ is_active info1 = false))).
  { destruct ev as [k | k]; simpl in E1.
    - rewrite on_press_eq in E1. injection E1 as <- <-. simpl. rewrite Hh. simpl.
      unfold match_one.
      destruct (bool_decide (kc ⊆ _)); simpl;
        [destruct (is_active info) eqn:Ea; simpl |].
      + exists info. rewrite Ea. intuition auto.
      + exists (set_is_active true info). simpl. rewrite Hp. simpl.
        intuition auto.
      + exists info. intuition auto.
    - rewrite on_release_eq in E1. injection E1 as <- <-. simpl. rewrite Hh. simpl.
      unfold release_one.
      destruct (is_active info) eqn:Ea; simpl;
        [destruct (bool_decide (kc ⊆ _)); simpl |].
      + exists info. rewrite Ea. intuition auto.
      + exists (set_is_active false info). simpl. rewrite Hr. simpl.
        intuition auto.
      + exists info. rewrite Ea. intuition auto. }
  destruct Hstep as (info1 & Hh1 & Hp1 & Hr1 & Hcase).
  specialize (IH m1 kc info1 Hh1 Hp1 Hr1). rewrite E2 in IH. simpl in IH.
  destruct Hcase as [[-> Ha] | [(-> & Ha & Ha1) | (-> & Ha & Ha1)]].
  - rewrite <- Ha. exact IH.
  - rewrite Ha. rewrite Ha1 in IH. simpl. auto.
  - rewrite Ha. rewrite Ha1 in IH. simpl. auto.
Qed.

Lemma run_no_hotkeys (evs : list event) :
  forall m : HotkeyManager, hotkeys m = [] -> snd (run evs m) = [].
Proof.
  induction evs as [| ev evs IH]; intros m Hh; simpl; [reflexivity |].
  destruct (handle ev m) as [m1 f1] eqn:E1.
  destruct (run evs m1) as [m2 f2] eqn:E2. simpl.
  assert (hotkeys m1 = [] /\ f1 = []) as [Hh1 ->].
  { destruct ev; simpl in E1;
      [rewrite on_press_eq in E1 | rewrite on_release_eq in E1];
      injection E1 as <- <-; simpl; rewrite Hh; auto. }
  specialize (IH m1 Hh1). rewrite E2 in IH. exact IH.
Qed.

Lemma run_app (evs1 evs2 : list event) :
  forall m : HotkeyManager,
    run (evs1 ++ evs2) m
    = (fst (run evs2 (fst (run evs1 m))),
       snd (run evs1 m) ++ snd (run evs2 (fst (run evs1 m)))).
Proof.
  induction evs1 as [| ev evs1 IH]; intros m; cbn [app run].
  - cbn [fst snd app]. now destruct (run evs2 m).
  - destruct (handle ev m) as [m1 f1]. rewrite IH.
    destruct (run evs1 m1) as [m2 f2]. cbn [fst snd].
    destruct (run evs2 m2) as [m3 f3]. cbn [fst snd]. now rewrite app_assoc.
Qed.

(** Key presses on a manager with one registration whose state agrees
    with the keys down: the press callback is dispatched once if the
    combination was not down and is down at the end, and not at all
    otherwise. *)
Lemma run_presses_single (a : Callback) (ks : list key) :
  forall (m : HotkeyManager) (kc : gset key) (info : HotkeyInfo),
    hotkeys m = [(kc, info)] -> on_press info = Some a ->
    is_active info = bool_decide (kc ⊆ pressed_keys m) ->
    exists info' : HotkeyInfo,
      hotkeys (fst (run (map Press ks) m)) = [(kc, info')] /\
      on_release info' = on_release info /\
      pressed_keys (fst (run (map Press ks) m))
      = pressed_keys m ∪ list_to_set (_normalize_key <$> ks) /\
      is_active info'
      = bool_decide (kc ⊆ pressed_keys m ∪ list_to_set (_normalize_key <$> ks)) /\
      snd (run (map Press ks) m)
      = if negb (is_active info) && is_active info' then [a] else [].
Proof.
  induction ks as [| k ks IH]; intros m kc info Hh Hp Ha.
  - exists info. cbn [map run fst snd].
    change (_normalize_key <$> []) with (@nil key).
    rewrite list_to_set_nil, (right_id_L ∅ (∪)).
    repeat split; auto. now destruct (is_active info).
  - cbn [map run handle]. rewrite on_press_eq. cbv zeta.
    set (p' := pressed_keys m ∪ {[ _normalize_key k ]}).
    rewrite Hh. cbn [map flat_map]. rewrite app_nil_r.
    set (m1 := set_hotkeys _ (set_pressed p' m)).
    assert (H1 : exists info1 : HotkeyInfo,
      fst (match_one p' (kc, info)) = (kc, info1) /\
      on_press info1 = Some a /\ on_release info1 = on_release info /\
      is_active info1 = bool_decide (kc ⊆ p') /\
      snd (match_one p' (kc, info))
      = if negb (is_active info) && is_active info1 then [a] else []).
    { unfold match_one.
      destruct (bool_decide_reflect (kc ⊆ p')) as [Hs | Hs].
      - destruct (is_active info) eqn:Ei; cbn [negb fst snd].
        + exists info. rewrite Ei. auto.
        + exists (set_is_active true info). cbn. rewrite Hp. auto.
      - exists info. cbn [fst snd]. rewrite Ha.
        rewrite bool_decide_eq_false_2; [auto |].
        intros Hsub. apply Hs. subst p'.
        etrans; [exact Hsub | apply union_subseteq_l]. }
    destruct H1 as (info1 & E1 & Hp1 & Hr1 & Ha1 & Hf1).
    destruct (IH m1 kc info1) as (info' & Gh & Gr & Gp & Ga & Gf).
    { subst m1. cbn [hotkeys set_hotkeys set_pressed]. now rewrite E1. }
    { exact Hp1. }
    { subst m1. cbn [pressed_keys set_hotkeys set_pressed]. exact Ha1. }
    destruct (run (map Press ks) m1) as [m2 f2]. cbn [fst snd] in *.
    assert (Hset : pressed_keys m1 ∪ list_to_set (_normalize_key <$> ks)
                   = pressed_keys m ∪ list_to_set (_normalize_key <$> k :: ks)).
    { subst m1. cbn [pressed_keys set_hotkeys set_pressed]. subst p'.
      rewrite fmap_cons, list_to_set_cons. now rewrite (assoc_L (∪)). }
    rewrite Hset in Gp, Ga.
    exists info'. repeat split; auto; [congruence |].
    rewrite Hf1, Gf.
    destruct (is_active info) eqn:Ei; cbn [negb andb app].
    + assert (is_active info1 = true) as ->; [| reflexivity].
      rewrite Ha1. apply bool_decide_eq_true_2.
      symmetry in Ha. apply bool_decide_eq_true_1 in Ha.
      subst p'. etrans; [exact Ha | apply union_subseteq_l].
    + destruct (is_active info1) eqn:Ei1; cbn [negb andb app]; [| reflexivity].
      assert (is_active info' = true) as ->; [| reflexivity].
      rewrite Ga. apply bool_decide_eq_true_2.
      symmetry in Ha1. apply bool_decide_eq_true_1 in Ha1.
      rewrite <- Hset. subst m1. cbn [pressed_keys set_hotkeys set_pressed].
      etrans; [exact Ha1 | apply union_subseteq_l].
Qed.

(** X6. With one hotkey registered on a fresh manager, the callbacks
    dispatched over any sequence of key events alternate, press callback
    first: never two presses or two releases in a row. A string that
    does not parse registers nothing and no callback is ever dispatched.
    For a string that parses, pressing keys that cover the combination
    and then releasing one of its keys dispatches the press callback and
    then the release callback, once each. *)
Theorem callbacks_alternate {U : Unicode} (s : str) (a b : Callback)
    (evs : list event) :
  let m0 := fst (register_hotkey s (Some a) (Some b) init) in
  alternates a b (snd (run evs m0)) /\
  match parse_hotkey s with
  | None => hotkeys m0 = [] /\ snd (run evs m0) = []
  | Some keys =>
      forall (ks : list key) (k : key),
        keys ⊆ list_to_set (_normalize_key <$> ks) ->
        _normalize_key k ∈ keys ->
        snd (run (map Press ks ++ [Release k]) m0) = [a; b]
  end.
Proof.
  cbv zeta. unfold register_hotkey.
  destruct (parse_hotkey s) as [keys |]; cbn [fst].
  - split.
    { apply (run_single_alternates a b evs _ keys
               (mkInfo (Some a) (Some b) s false 0)); reflexivity. }
    intros ks k Hsub Hk.
    set (info := mkInfo (Some a) (Some b) s false 0).
    set (m0 := set_hotkeys (dict_set keys info (hotkeys init)) init).
    destruct (run_presses_single a ks m0 keys info)
      as (info' & Gh & Gr & Gp & Ga & Gf); [reflexivity | reflexivity | |].
    { cbn. symmetry. apply bool_decide_eq_false_2. intros H.
      apply (not_elem_of_empty (C := gset key) (_normalize_key k)).
      now apply H. }
    rewrite run_app. cbn [snd]. rewrite Gf.
    assert (Ei : is_active info' = true).
    { rewrite Ga. apply bool_decide_eq_true_2. cbn [pressed_keys m0 set_hotkeys init].
      now rewrite (left_id_L ∅ (∪)). }
    rewrite Ei. cbn [is_active info negb andb app]. f_equal.
    cbn [run handle]. rewrite on_release_eq. cbv zeta. cbn [fst snd].
    rewrite Gh. cbn [flat_map]. unfold release_one. rewrite Ei.
    rewrite bool_decide_eq_false_2.
    2:{ intros H. apply H in Hk. cbn [pressed_keys set_pressed] in Hk.
        apply elem_of_difference in Hk as [_ Hn]. apply Hn.
        now apply elem_of_singleton. }
    cbn [negb snd fire]. rewrite Gr. reflexivity.
  - split; [| split; [reflexivity |]];
      rewrite run_no_hotkeys; [exact I | reflexivity | reflexivity | reflexivity].
Qed.

Lemma release_one_idle (p kc : gset key) (info : HotkeyInfo) :
  is_active info = false -> release_one p (kc, info) = ((kc, info), []).
Proof. intros H. unfold release_one. now rewrite H. Qed.

Lemma release_items_idle (p : gset key) (d : list (gset key * HotkeyInfo)) :
  Forall (fun e => is_active (snd e) = false) d ->
  map (fun e => fst (release_one p e)) d = d /\
  flat_map (fun e => snd (release_one p e)) d = [].
Proof.
  induction 1 as [| [kc info] d Hi _ [IH1 IH2]]; [split; reflexivity |].
  cbn [map flat_map]. simpl in Hi. rewrite (release_one_idle p kc info Hi).
  cbn [fst snd app]. rewrite IH1, IH2. split; reflexivity.
Qed.

Lemma release_idle (k : key) (m : HotkeyManager) :
  all_idle m -> snd (_on_release k m) = [] /\ all_idle (fst (_on_release k m)).
Proof.
  unfold all_idle. rewrite on_release_eq. cbv zeta. intros H.
  destruct (release_items_idle (pressed_keys m ∖ {[ _normalize_key k ]}) _ H)
    as [H1 H2].
  cbn [fst snd]. rewrite H1, H2. split; [reflexivity | exact H].
Qed.

(** X7. [stop_listening] leaves every registration inactive, so key
    releases that arrive afterwards dispatch no callback. *)
Theorem releases_after_stop_fire_nothing (m : HotkeyManager) (ks : list key) :
  snd (run (map Release ks) (fst (fst (stop_listening m)))) = [].
Proof.
  assert (Hidle : all_idle (fst (fst (stop_listening m)))).
  { unfold stop_listening, all_idle; simpl.
    apply Forall_map. apply Forall_forall. reflexivity. }
  revert Hidle. generalize (fst (fst (stop_listening m))) as m0.
  induction ks as [| k ks IH]; intros m0 Hidle; simpl; [reflexivity |].
  destruct (release_idle k m0 Hidle) as [Hf Hi].
  destruct (_on_release k m0) as [m1 f1]. simpl in *. subst f1.
  specialize (IH m1 Hi). destruct (run (map Release ks) m1) as [m2 f2].
  simpl in *. exact IH.
Qed.

(** ** More on the cleanup pass *)

Lemma remove_loop_sublist {U : Unicode} (fw : gset str) (ws : list str) :
  forall (fuel i : nat) (cleaned : list str),
    exists kept : list str,
      remove_loop fuel fw ws i cleaned = cleaned ++ kept /\
      kept `sublist_of` drop i ws.
Proof.
  induction fuel as [| fuel IH]; intros i cleaned.
  - exists []. simpl. rewrite app_nil_r. split; [reflexivity | apply sublist_nil_l].
  - rewrite remove_loop_S. destruct (Nat.ltb_spec i (length ws)) as [Hlt | Hge].
    + destruct (filler_at fw ws i [3; 2; 1]%nat) as [n |] eqn:Ef.
      * destruct (IH (i + n)%nat cleaned) as (kept & -> & Hs).
        exists kept. split; [reflexivity |].
        rewrite <- drop_drop in Hs.
        etransitivity; [exact Hs | apply sublist_drop].
      * destruct (IH (i + 1)%nat (cleaned ++ [nth i ws []])) as (kept & -> & Hs).
        exists (nth i ws [] :: kept). split; [now rewrite <- app_assoc |].
        destruct (lookup_lt_is_Some_2 ws i Hlt) as [w Hw].
        rewrite (drop_S ws w i Hw).
        rewrite (nth_lookup_Some ws i [] w Hw).
        apply sublist_skip. now rewrite Nat.add_1_r in Hs.
    + exists []. rewrite app_nil_r. split; [reflexivity | apply sublist_nil_l].
Qed.

(** X8. The filler loop only drops whole words: what it keeps is a
    subsequence of the words, in their order, whatever the filler set;
    with an empty filler set it keeps every word. *)
Theorem filler_removal_keeps_whole_words {U : Unicode} (fw : gset str)
    (ws : list str) :
  remove_loop (length ws) fw ws 0 [] `sublist_of` ws /\
  (remove_loop (length ws) ∅ ws 0 [] = ws).
Proof.
  split.
  - destruct (remove_loop_sublist fw ws (length ws) 0 []) as (kept & -> & Hs).
    exact Hs.
  - assert (Hno : forall i lengths, filler_at ∅ ws i lengths = None).
    { intros i lengths. induction lengths as [| k l IH]; simpl; [reflexivity |].
      destruct (_ <=? _)%nat; [| exact IH].
      rewrite bool_decide_eq_false_2 by apply not_elem_of_empty. exact IH. }
    assert (Hgen : forall fuel i cleaned, (length ws - i <= fuel)%nat ->
              (i <= length ws)%nat ->
              remove_loop fuel ∅ ws i cleaned = cleaned ++ drop i ws).
    { induction fuel as [| fuel IH]; intros i cleaned Hf Hi.
      - simpl. rewrite drop_ge by lia. now rewrite app_nil_r.
      - rewrite remove_loop_S. destruct (Nat.ltb_spec i (length ws)) as [Hlt | Hge].
        + rewrite Hno. rewrite IH by lia.
          destruct (lookup_lt_is_Some_2 ws i Hlt) as [w Hw].
          rewrite (drop_S ws w i Hw), (nth_lookup_Some ws i [] w Hw).
          rewrite Nat.add_1_r, <- app_assoc. reflexivity.
        + rewrite drop_ge by lia. now rewrite app_nil_r. }
    rewrite Hgen by lia. reflexivity.
Qed.

Lemma closing_not_space (c : Z) : mem c CLOSING = true -> isspace c = false.
Proof.
  unfold mem, CLOSING. simpl. rewrite !orb_true_iff.
  intros H. repeat (destruct H as [H | H]; [apply Z.eqb_eq in H; subst c; reflexivity |]).
  discriminate.
Qed.

Lemma no_ws_pair_tail (a : Z) (r : str) :
  no_ws_pair (a :: r) = true -> no_ws_pair r = true.
Proof.
  simpl. destruct r as [| b r]; [reflexivity |].
  intros H. now apply andb_true_iff in H as [_ H].
Qed.

Lemma no_ws_pair_cons (a : Z) (r : str) :
  no_ws_pair (a :: r) =
    match r with
    | b :: _ => negb (isspace a && isspace b) && no_ws_pair r
    | [] => true
    end.
Proof. reflexivity. Qed.

Lemma no_ws_before_punct_cons (a : Z) (r : str) :
  no_ws_before_punct (a :: r) =
    match r with
    | b :: _ => negb (isspace a && mem b CLOSING) && no_ws_before_punct r
    | [] => true
    end.
Proof. reflexivity. Qed.

Lemma sub_spaces_no_pair (s : str) : no_ws_pair (sub_spaces s) = true.
Proof.
  induction s as [| c r IH]; [reflexivity |].
  cbn [sub_spaces]. destruct (isspace c) eqn:Ec.
  - destruct r as [| c' r']; [reflexivity |].
    destruct (isspace c') eqn:Ec'; [exact IH |].
    rewrite no_ws_pair_cons. cbn [sub_spaces] in *. rewrite Ec' in *.
    rewrite Ec'. rewrite andb_false_r. exact IH.
  - rewrite no_ws_pair_cons. destruct (sub_spaces r); [reflexivity |].
    rewrite Ec. exact IH.
Qed.

Lemma before_punct_head (b : Z) (r : str) :
  isspace b = false ->
  sub_space_before_punct (b :: r) = b :: sub_space_before_punct r.
Proof. intros H. cbn [sub_space_before_punct]. now rewrite H. Qed.

Lemma before_punct_no_pair (s : str) :
  no_ws_pair s = true -> no_ws_pair (sub_space_before_punct s) = true.
Proof.
  induction s as [| c r IH]; [reflexivity |]. intros H.
  pose proof (no_ws_pair_tail c r H) as Hr. specialize (IH Hr).
  cbn [sub_space_before_punct].
  destruct (isspace c && punct_follows r) eqn:Edrop; [exact IH |].
  rewrite no_ws_pair_cons.
  destruct (isspace c) eqn:Ec.
  - destruct r as [| b r']; [reflexivity |].
    rewrite no_ws_pair_cons, Ec in H.
    apply andb_true_iff in H as [Hb _]. apply negb_true_iff in Hb.
    simpl in Hb. rewrite before_punct_head in * by exact Hb.
    rewrite Hb, andb_false_r. exact IH.
  - destruct (sub_space_before_punct r); [reflexivity | exact IH].
Qed.

Lemma punct_follows_ws (b : Z) (r : str) :
  isspace b = true -> punct_follows (b :: r) = punct_follows r.
Proof. intros H. unfold punct_follows. simpl. now rewrite H. Qed.

Lemma punct_follows_nonws (b : Z) (r : str) :
  isspace b = false -> punct_follows (b :: r) = mem b CLOSING.
Proof. intros H. unfold punct_follows. simpl. now rewrite H. Qed.

Lemma before_punct_none_left (s : str) :
  no_ws_before_punct (sub_space_before_punct s) = true.
Proof.
  induction s as [| c r IH]; [reflexivity |].
  cbn [sub_space_before_punct].
  destruct (isspace c && punct_follows r) eqn:Edrop; [exact IH |].
  rewrite no_ws_before_punct_cons.
  destruct r as [| b r']; [reflexivity |].
  destruct (isspace c) eqn:Ec; simpl in Edrop.
  - destruct (isspace b) eqn:Eb.
    + assert (Hm : mem b CLOSING = false).
      { destruct (mem b CLOSING) eqn:Em; [| reflexivity].
        apply closing_not_space in Em. congruence. }
      rewrite punct_follows_ws in Edrop by exact Eb.
      cbn [sub_space_before_punct] in *. rewrite Eb, Edrop in *.
      cbn [andb] in *. rewrite Hm. exact IH.
    + rewrite punct_follows_nonws in Edrop by exact Eb.
      rewrite before_punct_head in * by exact Eb.
      rewrite Edrop, andb_false_r. exact IH.
  - destruct (sub_space_before_punct (b :: r')); [reflexivity | exact IH].
Qed.

Lemma sub_i_char (c : Z) (flag : bool) :
  (flag = true -> c = 105) ->
  isspace (if flag then 73 else c) = isspace c /\
  mem (if flag then 73 else c) CLOSING = mem c CLOSING.
Proof. destruct flag; [intros -> ; [split; reflexivity | reflexivity] | auto]. Qed.

Lemma sub_i_cons {U : Unicode} (prev : option Z) (c : Z) (r : str) :
  exists c' : Z,
    sub_i prev (c :: r) = c' :: sub_i (Some c) r /\
    isspace c' = isspace c /\ mem c' CLOSING = mem c CLOSING.
Proof.
  cbn [sub_i]. eexists. split; [reflexivity |].
  apply sub_i_char. intros H. apply andb_true_iff in H as [H _].
  apply andb_true_iff in H as [H _]. now apply Z.eqb_eq in H.
Qed.

Lemma sub_i_no_pair {U : Unicode} (s : str) :
  forall prev, no_ws_pair (sub_i prev s) = no_ws_pair s.
Proof.
  induction s as [| a r IH]; intros prev; [reflexivity |].
  destruct (sub_i_cons prev a r) as (a' & -> & Ha & _).
  rewrite !no_ws_pair_cons. destruct r as [| b r']; [reflexivity |].
  specialize (IH (Some a)).
  destruct (sub_i_cons (Some a) b r') as (b' & Eb & Hb & _).
  rewrite Eb in *. rewrite Ha, Hb, IH. reflexivity.
Qed.

Lemma sub_i_no_before_punct {U : Unicode} (s : str) :
  forall prev, no_ws_before_punct (sub_i prev s) = no_ws_before_punct s.
Proof.
  induction s as [| a r IH]; intros prev; [reflexivity |].
  destruct (sub_i_cons prev a r) as (a' & -> & Ha & _).
  rewrite !no_ws_before_punct_cons. destruct r as [| b r']; [reflexivity |].
  specialize (IH (Some a)).
  destruct (sub_i_cons (Some a) b r') as (b' & Eb & _ & Hb).
  rewrite Eb in *. rewrite Ha, Hb, IH. reflexivity.
Qed.

Lemma no_ws_pair_app (l1 l2 : str) :
  no_ws_pair (l1 ++ l2) = true -> no_ws_pair l1 = true /\ no_ws_pair l2 = true.
Proof.
  induction l1 as [| a l1 IH]; [auto |]. intros H.
  pose proof (no_ws_pair_tail a (l1 ++ l2) H) as Ht. destruct (IH Ht) as [H1 H2].
  split; [| exact H2].
  destruct l1 as [| b l1]; [reflexivity |].
  rewrite no_ws_pair_cons. simpl app in H. rewrite no_ws_pair_cons in H.
  apply andb_true_iff in H as [Hab _]. now rewrite Hab, H1.
Qed.

Lemma no_ws_before_punct_app (l1 l2 : str) :
  no_ws_before_punct (l1 ++ l2) = true ->
  no_ws_before_punct l1 = true /\ no_ws_before_punct l2 = true.
Proof.
  induction l1 as [| a l1 IH]; [auto |]. intros H.
  assert (Ht : no_ws_before_punct (l1 ++ l2) = true).
  { simpl app in H. rewrite no_ws_before_punct_cons in H.
    destruct (l1 ++ l2); [reflexivity |]. now apply andb_true_iff in H as [_ H]. }
  destruct (IH Ht) as [H1 H2]. split; [| exact H2].
  destruct l1 as [| b l1]; [reflexivity |].
  rewrite no_ws_before_punct_cons. simpl app in H.
  rewrite no_ws_before_punct_cons in H.
  apply andb_true_iff in H as [Hab _]. now rewrite Hab, H1.
Qed.

Lemma lstrip_by_split (p : Z -> bool) (s : str) :
  exists l1 : str, s = l1 ++ lstrip_by p s.
Proof.
  induction s as [| c r [l1 IH]]; [exists []; reflexivity |].
  simpl. destruct (p c); [| exists []; reflexivity].
  exists (c :: l1). simpl. now rewrite <- IH.
Qed.

Lemma lstrip_by_head (p : Z -> bool) (s : str) (c : Z) :
  head (lstrip_by p s) = Some c -> p c = false.
Proof.
  induction s as [| a r IH]; simpl; [discriminate |].
  destruct (p a) eqn:E; [exact IH |]. simpl. now intros [= <-].
Qed.

Lemma last_rev_head {A} (l : list A) : last (rev l) = head l.
Proof. destruct l as [| a l]; [reflexivity |]. simpl. apply last_snoc. Qed.

Lemma strip_split (s : str) :
  exists l1 l2 : str, s = l1 ++ strip s ++ l2.
Proof.
  unfold strip, rstrip_by.
  destruct (lstrip_by_split isspace s) as [l1 H1].
  destruct (lstrip_by_split isspace (rev (lstrip_by isspace s))) as [l2 H2].
  exists l1, (rev l2). rewrite <- rev_app_distr, <- H2, rev_involutive. exact H1.
Qed.

Lemma strip_ends (s : str) :
  (forall c, head (strip s) = Some c -> isspace c = false) /\
  (forall c, last (strip s) = Some c -> isspace c = false).
Proof.
  split; intros c H.
  - unfold strip, rstrip_by in H.
    destruct (lstrip_by_split isspace (rev (lstrip_by isspace s))) as [l2 H2].
    apply (f_equal (@rev Z)) in H2. rewrite rev_involutive, rev_app_distr in H2.
    apply (lstrip_by_head isspace s). rewrite H2.
    destruct (rev (lstrip_by isspace (rev (lstrip_by isspace s)))); [discriminate |].
    exact H.
  - unfold strip, rstrip_by in H. rewrite last_rev_head in H.
    now apply lstrip_by_head in H.
Qed.

Lemma strip_tidy (s : str) :
  no_ws_pair s = true -> no_ws_before_punct s = true -> tidy (strip s).
Proof.
  intros H1 H2. destruct (strip_split s) as (l1 & l2 & Hs).
  rewrite Hs in H1, H2.
  apply no_ws_pair_app in H1 as [_ H1]. apply no_ws_pair_app in H1 as [H1 _].
  apply no_ws_before_punct_app in H2 as [_ H2].
  apply no_ws_before_punct_app in H2 as [H2 _].
  destruct (strip_ends s) as [Hh Hl]. repeat split; assumption.
Qed.

Lemma tidy_nil : tidy [].
Proof. repeat split; intros c; discriminate. Qed.

Lemma improve_grammar_tidy {U : Unicode} (text : str) :
  tidy (improve_grammar text).
Proof.
  unfold improve_grammar. destruct text as [| c rest]; [apply tidy_nil |].
  cbv zeta. apply strip_tidy.
  - rewrite sub_i_no_pair. apply before_punct_no_pair, sub_spaces_no_pair.
  - rewrite sub_i_no_before_punct. apply before_punct_none_left.
Qed.

Lemma clean_text_tidy {U : Unicode} (remove_fillers : bool)
    (fw : gset str) (text : str) :
  tidy (clean_text remove_fillers fw text).
Proof.
  unfold clean_text. destruct text; [apply tidy_nil | apply improve_grammar_tidy].
Qed.

(** X9. Whatever the text and the case table, the result of
    [improve_grammar], and so of [clean_text], has no whitespace at
    either end, no two whitespace characters in a row and no whitespace
    right before one of the marks . ! ? , : ; *)
Theorem cleanup_output_is_tidy {U : Unicode} (remove_fillers : bool)
    (fw : gset str) (text : str) :
  tidy (improve_grammar text) /\ tidy (clean_text remove_fillers fw text).
Proof. split; [apply improve_grammar_tidy | apply clean_text_tidy]. Qed.

Lemma split_ws_blank (s : str) :
  forallb isspace s = true -> split_ws s = [].
Proof.
  unfold split_ws. induction s as [| c r IH]; [reflexivity |].
  simpl. intros H. apply andb_true_iff in H as [Hc Hr]. rewrite Hc. now apply IH.
Qed.

(** X10. A transcript made of whitespace only cleans to the empty text,
    with filler removal on or off. *)
Theorem blank_text_cleans_to_nothing {U : Unicode} (remove_fillers : bool)
    (fw : gset str) (text : str) :
  forallb isspace text = true -> clean_text remove_fillers fw text = [].
Proof.
  intros H. unfold clean_text. destruct text as [| c r]; [reflexivity |].
  rewrite (split_ws_blank _ H). destruct remove_fillers; reflexivity.
Qed.

Lemma blank_text_cleans_to_nothing_witness :
  forallb isspace (py "   ") = true /\
  @clean_text py_unicode true default_filler_words (py "   ") = [].
Proof.
  assert (H : forallb isspace (py "   ") = true) by (vm_compute; reflexivity).
  split; [exact H |].
  exact (@blank_text_cleans_to_nothing py_unicode true default_filler_words
           (py "   ") H).
Defined.

(** ** More on recording, processing and shutdown *)

Ltac loop_split tk s last0 mem start cfg H :=
  simpl in H;
  destruct (tk_stop tk) eqn:Estop; simpl in H;
  [| destruct (is_recording s) eqn:Erec; simpl in H;
     [destruct (Qgtb (tk_now tk - last0) 2 && negb (_check_device_available tk))
        eqn:Edue;
      [| destruct (tk_active tk) as [[|] | e] eqn:Eact;
         [destruct (tk_read tk) as [data | e] eqn:Eread;
          [destruct (Qgtb (inject_Z (mem + Z.of_nat (length data)))
                          (max_memory_mb cfg * 1024 * 1024)) eqn:Emem;
           [| destruct (Qgtb (tk_after tk - start) (inject_Z (record_seconds cfg)))
                eqn:Etime]
          | destruct (contains (py "Input overflowed") e) eqn:Eover]
         | | destruct (contains (py "Input overflowed") e) eqn:Eover]] |]].

Lemma record_loop_world (cfg : Config) (ticks : list Tick) :
  forall (start last0 : Q) (mem : Z) (s s' : VT) (why : LoopExit),
    record_loop cfg ticks start last0 mem s = (why, s') ->
    world s' = world s /\ stream s' = stream s /\
    (exists l, log s' = log s ++ l).
Proof.
  induction ticks as [| tk rest IH]; intros start last0 mem s s' why H.
  { injection H as <- <-. repeat split. exists []. now rewrite app_nil_r. }
  loop_split tk s last0 mem start cfg H;
    first
      [ injection H as <- <-; repeat split;
        first [ exists []; simpl; now rewrite app_nil_r
              | eexists; simpl; reflexivity ]
      | apply IH in H as (Hw & Hs & l & Hl); repeat split;
        [ rewrite Hw; reflexivity | rewrite Hs; reflexivity
        | eexists; rewrite Hl; simpl; rewrite <- ?app_assoc; reflexivity ] ].
Qed.

(** The frames the loop leaves are the frames it started with followed
    by the chunks of the rounds it went through, in order. *)
Lemma record_loop_frames (cfg : Config) (ticks : list Tick) :
  forall (start last0 : Q) (mem : Z) (s s' : VT) (why : LoopExit),
    record_loop cfg ticks start last0 mem s = (why, s') ->
    exists pre post : list Tick,
      ticks = pre ++ post /\
      audio_frames s' = audio_frames s ++ omap tick_chunk pre /\
      (why = Running -> post = []).
Proof.
  induction ticks as [| tk rest IH]; intros start last0 mem s s' why H.
  { injection H as <- <-. exists [], []. simpl. now rewrite app_nil_r. }
  loop_split tk s last0 mem start cfg H;
    first
      [ injection H as <- <-; exists [], (tk :: rest); simpl;
        rewrite app_nil_r; repeat split; discriminate
      | injection H as <- <-; exists [tk], rest; simpl;
        unfold tick_chunk; rewrite Eact, Eread; simpl;
        repeat split; discriminate
      | apply IH in H as (pre & post & -> & Hf & Hr);
        exists (tk :: pre), post; simpl;
        unfold tick_chunk at 1; rewrite Eact, ?Eread; simpl;
        rewrite Hf; simpl; rewrite <- ?app_assoc;
        repeat split; exact Hr ].
Qed.

(** The flag: only the loop test leaves with the flag cleared. *)
Lemma record_loop_flag (cfg : Config) (ticks : list Tick) :
  forall (start last0 : Q) (mem : Z) (s s' : VT) (why : LoopExit),
    record_loop cfg ticks start last0 mem s = (why, s') ->
    is_recording s = true ->
    (why = FlagCleared /\ is_recording s' = false) \/
    (why <> FlagCleared /\ is_recording s' = true).
Proof.
  induction ticks as [| tk rest IH]; intros start last0 mem s s' why H Hrec.
  { injection H as <- <-. right. split; [discriminate | exact Hrec]. }
  loop_split tk s last0 mem start cfg H;
    first
      [ congruence
      | injection H as <- <-; left; split; reflexivity
      | injection H as <- <-; right; split; [discriminate | exact Erec]
      | apply IH in H; [exact H | exact Erec] ].
Qed.

(** The loop left on the time limit: the last round read a chunk, which
    is kept, and the clock after that read is past the limit. *)
Lemma record_loop_time_limit (cfg : Config) (ticks : list Tick) :
  forall (start last0 : Q) (mem : Z) (s s' : VT),
    record_loop cfg ticks start last0 mem s = (TimeLimit, s') ->
    exists (pre : list Tick) (tk : Tick) (post : list Tick) (data : bytes),
      ticks = pre ++ tk :: post /\
      tk_read tk = Ok data /\
      audio_frames s' = audio_frames s ++ omap tick_chunk pre ++ [data] /\
      Qgtb (tk_after tk - start) (inject_Z (record_seconds cfg)) = true /\
      last (log s') = Some (INFO, py "Maximum recording time reached").
Proof.
  induction ticks as [| tk rest IH]; intros start last0 mem s s' H.
  { discriminate. }
  loop_split tk s last0 mem start cfg H; try discriminate;
    first
      [ injection H as <-; exists [], tk, rest, data; simpl;
        repeat split; auto; apply last_snoc
      | apply IH in H as (pre & tk' & post & d' & -> & Hr & Hf & Ht & Hl);
        exists (tk :: pre), tk', post, d'; simpl;
        unfold tick_chunk at 1; rewrite Eact, ?Eread; simpl;
        rewrite Hf; simpl; rewrite <- ?app_assoc;
        repeat split; auto ].
Qed.

(** The loop left on a stream error: some round raised, on the activity
    test or on the read, an error that does not mention an overflow. *)
Lemma record_loop_stream_error (cfg : Config) (ticks : list Tick) :
  forall (start last0 : Q) (mem : Z) (s s' : VT),
    record_loop cfg ticks start last0 mem s = (StreamError, s') ->
    exists (pre : list Tick) (tk : Tick) (post : list Tick) (e : str),
      ticks = pre ++ tk :: post /\
      (tk_active tk = Raise e \/ tk_active tk = Ok true /\ tk_read tk = Raise e) /\
      contains (py "Input overflowed") e = false /\
      audio_frames s' = audio_frames s ++ omap tick_chunk pre /\
      last (log s') = Some (ERROR, py "Error reading audio: " ++ e).
Proof.
  induction ticks as [| tk rest IH]; intros start last0 mem s s' H.
  { discriminate. }
  loop_split tk s last0 mem start cfg H; try discriminate;
    first
      [ injection H as <-; exists [], tk, rest, e; simpl;
        rewrite app_nil_r; repeat split; auto; apply last_snoc
      | apply IH in H as (pre & tk' & post & e' & -> & Hr & Ho & Hf & Hl);
        exists (tk :: pre), tk', post, e'; simpl;
        unfold tick_chunk at 1; rewrite Eact, ?Eread; simpl;
        rewrite Hf; simpl; rewrite <- ?app_assoc;
        repeat split; auto ].
Qed.

Lemma cleanup_stream_world (s : VT) :
  world (_cleanup_stream s) = world s /\
  is_recording (_cleanup_stream s) = is_recording s.
Proof. unfold _cleanup_stream. destruct (stream s); split; reflexivity. Qed.

(** [_record_audio] with the stream open, in full. *)
Lemma record_audio_open (cfg : Config) (t0 t1 : Q) (ticks : list Tick)
    (s s' : VT) (why : LoopExit) :
  _record_audio cfg (Ok ()) t0 t1 ticks s = (why, s') ->
  exists s0 s1 : VT,
    audio_frames s0 = [] /\ is_recording s0 = true /\
    stream s0 = Some InputStream /\ world s0 = world s /\
    (exists l, log s0 = log s ++ l) /\
    record_loop cfg ticks t0 t1 0 s0 = (why, s1) /\
    s' = (if decide (why = Running) then s1 else _cleanup_stream s1).
Proof.
  unfold _record_audio. intros H.
  match type of H with
  | context [record_loop cfg ticks t0 t1 0 ?x] =>
      exists x; destruct (record_loop cfg ticks t0 t1 0 x) as [w s1] eqn:E
  end.
  exists s1.
  destruct (cleanup_stream_world s) as [Hw _].
  repeat split; try reflexivity.
  - simpl. unfold world in *. simpl. exact Hw.
  - exists [(INFO, py "Recording...")]. simpl.
    now destruct (cleanup_stream_eq s) as (_ & -> & _).
  - destruct w; injection H as <- <-; reflexivity.
  - destruct w; injection H as <- <-; reflexivity.
Qed.

(** X11. A recording session, however it ends and whether or not the
    stream opens, leaves the files, the tracked temporary files, the
    typed texts, the request count and the hotkey manager untouched and
    only appends to the log; it closes the stream on every exit, and
    while the loop is still running the stream is open and the flag set. *)
Theorem recording_touches_only_the_recorder (cfg : Config)
    (open_result : result unit) (t0 t1 : Q) (ticks : list Tick) (s : VT) :
  let why := fst (_record_audio cfg open_result t0 t1 ticks s) in
  let s' := snd (_record_audio cfg open_result t0 t1 ticks s) in
  fs s' = fs s /\ temp_files s' = temp_files s /\ typed s' = typed s /\
  api_calls s' = api_calls s /\ hotkey_manager s' = hotkey_manager s /\
  (exists l, log s' = log s ++ l) /\
  (why <> Running -> stream s' = None) /\
  (why = Running -> stream s' = Some InputStream /\ is_recording s' = true).
Proof.
  cbv zeta.
  destruct (_record_audio cfg open_result t0 t1 ticks s) as [why s'] eqn:H.
  cbn [fst snd].
  assert (Hgoal : world s' = world s /\ (exists l, log s' = log s ++ l) /\
    (why <> Running -> stream s' = None) /\
    (why = Running -> stream s' = Some InputStream /\ is_recording s' = true)).
  { destruct open_result as [[] | e].
    - apply record_audio_open in H
        as (s0 & s1 & _ & Hr0 & Hs0 & Hw0 & (l0 & Hl0) & Hloop & ->).
      destruct (record_loop_world _ _ _ _ _ _ _ _ Hloop) as (Hw & Hs & l & Hl).
      destruct (record_loop_flag _ _ _ _ _ _ _ _ Hloop Hr0) as [[Hy Hf] | [Hy Hf]].
      + subst why. simpl.
        destruct (cleanup_stream_world s1) as [Hc _].
        destruct (cleanup_stream_eq s1) as (_ & Hcl & Hcs).
        repeat split; try congruence.
        exists (l0 ++ l). now rewrite Hcl, Hl, Hl0, app_assoc.
      + destruct (decide (why = Running)) as [-> | Hn].
        * repeat split; try congruence.
          exists (l0 ++ l). now rewrite Hl, Hl0, app_assoc.
        * destruct (cleanup_stream_world s1) as [Hc _].
          destruct (cleanup_stream_eq s1) as (_ & Hcl & Hcs).
          repeat split; try congruence; try contradiction.
          exists (l0 ++ l). now rewrite Hcl, Hl, Hl0, app_assoc.
    - unfold _record_audio in H. injection H as <- <-.
      destruct (cleanup_stream_world s) as [Hw _].
      destruct (cleanup_stream_eq s) as (_ & Hl & _).
      assert (HH : forall x, world (_cleanup_stream x) = world x /\
                log (_cleanup_stream x) = log x /\
                stream (_cleanup_stream x) = None).
      { intros x. destruct (cleanup_stream_world x) as [? _].
        destruct (cleanup_stream_eq x) as (_ & ? & ?). auto. }
      destruct (contains (py "Invalid sample rate") e);
        [| destruct (contains (py "Device unavailable") e)];
        match goal with
        | |- context [_cleanup_stream ?x] => destruct (HH x) as (Hc & Hcl & Hcs)
        end;
        (split; [rewrite Hc, <- Hw; reflexivity |]);
        (split; [rewrite Hcl; cbn [log logger]; rewrite Hl; eexists;
                 rewrite <- ?app_assoc; reflexivity |]);
        (split; [intros _; exact Hcs | discriminate]). }
  destruct Hgoal as (Hw & Hl & Hs & Hr). unfold world in Hw.
  injection Hw as -> -> -> -> ->. repeat split; auto; now apply Hr.
Qed.

Lemma record_loop_flag_cleared (cfg : Config) (ticks : list Tick) :
  forall (start last0 : Q) (mem : Z) (s s' : VT),
    record_loop cfg ticks start last0 mem s = (FlagCleared, s') ->
    is_recording s = true ->
    exists (pre : list Tick) (tk : Tick) (post : list Tick),
      ticks = pre ++ tk :: post /\ tk_stop tk = true /\
      Forall (fun t => tk_stop t = false) pre /\
      audio_frames s' = audio_frames s ++ omap tick_chunk pre.
Proof.
  induction ticks as [| tk rest IH]; intros start last0 mem s s' H Hrec.
  { discriminate. }
  loop_split tk s last0 mem start cfg H; try discriminate; try congruence;
    first
      [ injection H as <-; exists [], tk, rest; simpl;
        rewrite app_nil_r; repeat split; auto
      | apply IH in H as (pre & tk' & post & -> & Hs & Hall & Hf);
        [| exact Erec];
        exists (tk :: pre), tk', post; simpl;
        unfold tick_chunk at 1; rewrite Eact, ?Eread; simpl;
        rewrite Hf; simpl; rewrite <- ?app_assoc;
        repeat split; auto ].
Qed.

Lemma record_loop_stop_seen (cfg : Config) (ticks : list Tick) :
  forall (start last0 : Q) (mem : Z) (s s' : VT) (why : LoopExit),
    record_loop cfg ticks start last0 mem s = (why, s') ->
    Exists (fun t => tk_stop t = true) ticks -> why <> Running.
Proof.
  induction ticks as [| tk rest IH]; intros start last0 mem s s' why H Hex.
  { now apply Exists_nil in Hex. }
  loop_split tk s last0 mem start cfg H;
    first
      [ injection H as <- <-; discriminate
      | apply Exists_cons in Hex as [Hx | Hx];
        [congruence | now apply IH in H] ].
Qed.

(** X12. The session is left through the loop test only in a round whose
    test finds the flag cleared, the first such round: that round reads
    nothing, the frames are the chunks of the rounds before it, and
    [_record_audio] returns with the flag cleared and the stream closed.
    A round whose test finds the flag cleared is never passed: the loop
    has ended by then. However the session ended, [stop_recording]
    leaves the flag cleared and the stream closed, keeps the frames, and
    starts a processing run exactly when there are frames. *)
Theorem stop_seen_at_loop_test (cfg : Config) (t0 t1 : Q)
    (ticks : list Tick) (s : VT) :
  let why := fst (_record_audio cfg (Ok ()) t0 t1 ticks s) in
  let s' := snd (_record_audio cfg (Ok ()) t0 t1 ticks s) in
  (why = FlagCleared ->
   is_recording s' = false /\ stream s' = None /\
   exists (pre : list Tick) (tk : Tick) (post : list Tick),
     ticks = pre ++ tk :: post /\ tk_stop tk = true /\
     Forall (fun t => tk_stop t = false) pre /\
     audio_frames s' = omap tick_chunk pre) /\
  (Exists (fun t => tk_stop t = true) ticks -> why <> Running) /\
  is_recording (fst (stop_recording s')) = false /\
  stream (fst (stop_recording s')) = None /\
  audio_frames (fst (stop_recording s')) = audio_frames s' /\
  snd (stop_recording s')
  = match audio_frames s' with [] => false | _ => true end.
Proof.
  cbv zeta.
  destruct (stop_recording_rest (snd (_record_audio cfg (Ok ()) t0 t1 ticks s)))
    as (Hsr & Hss & _).
  destruct (stop_recording_eq (snd (_record_audio cfg (Ok ()) t0 t1 ticks s)))
    as [Hsf Hsp].
  destruct (_record_audio cfg (Ok ()) t0 t1 ticks s) as [why s'] eqn:H.
  cbn [fst snd] in *.
  apply record_audio_open in H
    as (s0 & s1 & Hf0 & Hr0 & _ & _ & _ & Hloop & ->).
  split; [| split; [| auto]].
  - intros ->. destruct (decide (FlagCleared = Running)); [discriminate |].
    destruct (cleanup_stream_world s1) as [_ Hc].
    destruct (cleanup_stream_eq s1) as (Hcf & _ & Hcs).
    rewrite Hc, Hcf.
    destruct (record_loop_flag _ _ _ _ _ _ _ _ Hloop Hr0) as [[_ Hf] | [Hy _]];
      [| contradiction].
    destruct (record_loop_flag_cleared _ _ _ _ _ _ _ Hloop Hr0)
      as (pre & tk & post & -> & Hs & Hall & Hfr).
    split; [exact Hf |]. split; [exact Hcs |].
    exists pre, tk, post. rewrite Hf0 in Hfr. auto.
  - intros Hex. now apply (record_loop_stop_seen _ _ _ _ _ _ _ _ Hloop).
Qed.

(** X13. Once the stream has opened, the frames of the session are the
    chunks read in an initial stretch of its rounds, in order: frames of
    an earlier session are dropped, a round that ended in the overflow
    handler adds nothing, and no chunk is added twice. *)
Theorem session_frames_are_its_chunks (cfg : Config) (t0 t1 : Q)
    (ticks : list Tick) (s : VT) :
  let why := fst (_record_audio cfg (Ok ()) t0 t1 ticks s) in
  let s' := snd (_record_audio cfg (Ok ()) t0 t1 ticks s) in
  exists pre post : list Tick,
    ticks = pre ++ post /\
    audio_frames s' = omap tick_chunk pre /\
    (why = Running -> post = []).
Proof.
  cbv zeta.
  destruct (_record_audio cfg (Ok ()) t0 t1 ticks s) as [why s'] eqn:H.
  cbn [fst snd].
  apply record_audio_open in H
    as (s0 & s1 & Hf0 & _ & _ & _ & _ & Hloop & ->).
  apply record_loop_frames in Hloop as (pre & post & -> & Hf & Hr).
  exists pre, post. rewrite Hf0 in Hf. repeat split; [| exact Hr].
  destruct (decide _); [exact Hf |].
  now destruct (cleanup_stream_eq s1) as (-> & _).
Qed.

(** X14. When the loop is left on the time limit, the clock read after
    the last chunk is past [record_seconds] from the start; that chunk
    is kept with those before it, the record is an info record, the
    stream is closed and [stop_recording] starts the processing. *)
Theorem time_limit_keeps_last_chunk (cfg : Config) (t0 t1 : Q)
    (ticks : list Tick) (s s' : VT) :
  _record_audio cfg (Ok ()) t0 t1 ticks s = (TimeLimit, s') ->
  (exists (pre : list Tick) (tk : Tick) (post : list Tick) (data : bytes),
      ticks = pre ++ tk :: post /\
      tk_read tk = Ok data /\
      audio_frames s' = omap tick_chunk pre ++ [data] /\
      (inject_Z (record_seconds cfg) < tk_after tk - t0)%Q) /\
  last (log s') = Some (INFO, py "Maximum recording time reached") /\
  stream s' = None /\
  snd (stop_recording s') = true.
Proof.
  intros H.
  apply record_audio_open in H
    as (s0 & s1 & Hf0 & _ & _ & _ & _ & Hloop & ->).
  apply record_loop_time_limit in Hloop
    as (pre & tk & post & data & -> & Hr & Hf & Ht & Hl).
  rewrite Hf0 in Hf. simpl in Hf. apply Qgtb_lt in Ht.
  destruct (decide _) as [? | _]; [discriminate |].
  destruct (cleanup_stream_eq s1) as (Ecf & Ecl & Ecs).
  split; [exists pre, tk, post, data; repeat split; auto; congruence |].
  split; [congruence |]. split; [exact Ecs |].
  destruct (stop_recording_eq (_cleanup_stream s1)) as [_ ->].
  rewrite Ecf, Hf. now destruct (omap tick_chunk pre).
Qed.

(** X15. The loop is left on a stream error only by an exception, raised
    by the activity test or by the read, whose text does not mention an
    input overflow; the frames are the chunks of the rounds before it,
    the error is logged last and the stream is closed. *)
Theorem stream_error_is_not_an_overflow (cfg : Config) (t0 t1 : Q)
    (ticks : list Tick) (s s' : VT) :
  _record_audio cfg (Ok ()) t0 t1 ticks s = (StreamError, s') ->
  exists (pre : list Tick) (tk : Tick) (post : list Tick) (e : str),
    ticks = pre ++ tk :: post /\
    (tk_active tk = Raise e \/ tk_active tk = Ok true /\ tk_read tk = Raise e) /\
    contains (py "Input overflowed") e = false /\
    audio_frames s' = omap tick_chunk pre /\
    last (log s') = Some (ERROR, py "Error reading audio: " ++ e) /\
    stream s' = None.
Proof.
  intros H.
  apply record_audio_open in H
    as (s0 & s1 & Hf0 & _ & _ & _ & _ & Hloop & ->).
  apply record_loop_stream_error in Hloop
    as (pre & tk & post & e & -> & Hr & Ho & Hf & Hl).
  rewrite Hf0 in Hf. simpl in Hf.
  destruct (decide _) as [? | _]; [discriminate |].
  destruct (cleanup_stream_eq s1) as (Ecf & Ecl & Ecs).
  exists pre, tk, post, e. repeat split; auto; congruence.
Qed.

(** X16. When the stream fails to open, the frames of the previous
    session are still in [audio_frames] (they are reset only after the
    open), the flag is as it was and the stream is closed; so a release
    that follows writes those old frames to a file again. *)
Theorem failed_open_keeps_old_frames (cfg : Config) (e : str) (t0 t1 : Q)
    (ticks : list Tick) (s : VT) :
  let s' := snd (_record_audio cfg (Raise e) t0 t1 ticks s) in
  fst (_record_audio cfg (Raise e) t0 t1 ticks s) = OpenFailed /\
  audio_frames s' = audio_frames s /\
  is_recording s' = is_recording s /\
  stream s' = None /\
  (audio_frames s <> [] ->
   snd (stop_recording s') = true /\
   forall name : string,
     fs (snd (save_audio_to_file cfg (Ok name) (Ok ()) (fst (stop_recording s'))))
       !! name = Some (wav_of cfg (audio_frames s))).
Proof.
  cbv zeta. unfold _record_audio. cbn [fst snd].
  assert (HH : forall x, audio_frames (_cleanup_stream x) = audio_frames x /\
            is_recording (_cleanup_stream x) = is_recording x /\
            stream (_cleanup_stream x) = None).
  { intros x. destruct (cleanup_stream_world x) as [_ ?].
    destruct (cleanup_stream_eq x) as (? & _ & ?). auto. }
  destruct (HH s) as (Hf & Hr & _).
  match goal with
  | |- context [stream (_cleanup_stream ?x)] =>
      set (s' := _cleanup_stream x);
      assert (Hs' : audio_frames s' = audio_frames s /\
                    is_recording s' = is_recording s /\ stream s' = None)
  end.
  { subst s'.
    destruct (contains (py "Invalid sample rate") e);
      [| destruct (contains (py "Device unavailable") e)];
      match goal with
      | |- context [_cleanup_stream ?x] => destruct (HH x) as (-> & -> & ->)
      end; cbn [audio_frames is_recording logger]; auto. }
  destruct Hs' as (Hf' & Hr' & Hst').
  split; [reflexivity |]. split; [exact Hf' |]. split; [exact Hr' |].
  split; [exact Hst' |]. intros Hne.
  destruct (stop_recording_eq s') as [Ef2 Es2].
  split.
  - rewrite Es2, Hf'. destruct (audio_frames s); [contradiction | reflexivity].
  - intros name. rewrite <- Hf', <- Ef2.
    apply save_audio_written. now rewrite Ef2, Hf'.
Qed.

Lemma time_limit_keeps_last_chunk_witness :
  _record_audio cfg0 (Ok ()) 0 0 [tick_ok; tick_late] vt0
    = (TimeLimit, snd session_timed) /\
  stream (snd session_timed) = None /\
  snd (stop_recording (snd session_timed)) = true.
Proof.
  assert (H : _record_audio cfg0 (Ok ()) 0 0 [tick_ok; tick_late] vt0
              = (TimeLimit, snd session_timed)) by (vm_compute; reflexivity).
  destruct (time_limit_keeps_last_chunk cfg0 0 0 [tick_ok; tick_late] vt0
              (snd session_timed) H) as (_ & _ & Hs & Hp).
  split; [exact H |]. split; [exact Hs | exact Hp].
Defined.

Lemma stream_error_is_not_an_overflow_witness :
  _record_audio cfg0 (Ok ()) 0 0 [tick_ok; tick_broken] vt0
    = (StreamError, snd session_broken) /\
  exists (pre : list Tick) (tk : Tick) (post : list Tick) (e : str),
    [tick_ok; tick_broken] = pre ++ tk :: post /\
    contains (py "Input overflowed") e = false /\
    audio_frames (snd session_broken) = omap tick_chunk pre.
Proof.
  assert (H : _record_audio cfg0 (Ok ()) 0 0 [tick_ok; tick_broken] vt0
              = (StreamError, snd session_broken)) by (vm_compute; reflexivity).
  destruct (stream_error_is_not_an_overflow cfg0 0 0 [tick_ok; tick_broken] vt0
              (snd session_broken) H)
    as (pre & tk & post & e & Ht & _ & Ho & Hf & _).
  split; [exact H |]. exists pre, tk, post, e. auto.
Defined.

Lemma transcribe_once_rest (backend : Backend) (path : string) (s : VT) :
  rest_of (snd (transcribe_once backend path s)) = rest_of s /\
  (api_calls s <= api_calls (snd (transcribe_once backend path s)))%nat.
Proof.
  unfold transcribe_once. destruct (fs s !! path); [| split; [reflexivity | simpl; lia]].
  destruct (backend _ _); split; try reflexivity; simpl; lia.
Qed.

Lemma retry_rest (n : nat) (body : VT -> result str * VT) :
  (forall s, rest_of (snd (body s)) = rest_of s /\
             (api_calls s <= api_calls (snd (body s)))%nat) ->
  forall s, rest_of (snd (retry n body s)) = rest_of s /\
            (api_calls s <= api_calls (snd (retry n body s)))%nat.
Proof.
  intros Hb. induction n as [| n IH]; intros s; simpl; [split; [reflexivity | lia] |].
  destruct (Hb s) as [Hr Hc]. destruct (body s) as [[t | e] s1]; simpl in *;
    [split; [exact Hr | exact Hc] |].
  destruct (IH s1) as [Hr1 Hc1]. split; [congruence | lia].
Qed.

Lemma transcribe_audio_rest (backend : Backend) (path : string) (s : VT) :
  rest_of (snd (transcribe_audio backend path s)) = rest_of s /\
  (api_calls s <= api_calls (snd (transcribe_audio backend path s)) <= api_calls s + 3)%nat.
Proof.
  destruct (retry_rest 3 _ (transcribe_once_rest backend path) s) as [Hr Hc].
  split; [exact Hr |]. split; [exact Hc |].
  apply retry_calls, transcribe_once_calls.
Qed.

Lemma save_audio_rest (cfg : Config) (tmp : result string) (write : result unit)
    (s : VT) :
  let s1 := snd (save_audio_to_file cfg tmp write s) in
  is_recording s1 = is_recording s /\ audio_frames s1 = audio_frames s /\
  stream s1 = stream s /\ typed s1 = typed s /\ api_calls s1 = api_calls s.
Proof.
  unfold save_audio_to_file. destruct (audio_frames s) eqn:E; [simpl; auto |].
  destruct tmp as [name | e]; [| simpl; auto].
  destruct write as [u | e]; [simpl; auto |].
  cbn [snd]. destruct (bool_decide _); [| simpl; auto].
  cbn [os_remove logger set_fs set_temp_files].
  destruct (os_remove s name); simpl; auto.
Qed.

(** X17. A processing run, whatever the file system and the backend
    answer, types nothing or one text, which is then non-empty and tidy;
    it makes at most three requests and leaves the frames, the flag and
    the stream as they were. *)
Theorem processing_types_at_most_once {U : Unicode} (cfg : Config)
    (tmp : result string) (write : result unit) (backend : Backend) (s : VT) :
  let s' := _process_audio cfg tmp write backend s in
  (typed s' = typed s \/
   exists t : str, t <> [] /\ tidy t /\ typed s' = typed s ++ [t]) /\
  (api_calls s <= api_calls s' <= api_calls s + 3)%nat /\
  audio_frames s' = audio_frames s /\
  is_recording s' = is_recording s /\
  stream s' = stream s.
Proof.
  cbv zeta. unfold _process_audio.
  pose proof (save_audio_rest cfg tmp write s) as Hsave. cbv zeta in Hsave.
  destruct (save_audio_to_file cfg tmp write s) as [[[name |] | e] s1];
    cbn [snd] in Hsave; destruct Hsave as (Hr & Hf & Hs & Ht & Hc);
    try (cbn [typed api_calls audio_frames is_recording stream logger];
         rewrite Hr, Hf, Hs, Ht, Hc; repeat split; auto; lia).
  match goal with
  | |- context [transcribe_audio backend name ?x] =>
      destruct (transcribe_audio_rest backend name x) as [Hrest Hcalls];
      destruct (transcribe_audio backend name x) as [[text | e] s2]
  end; cbn [snd] in Hrest, Hcalls; unfold rest_of in Hrest;
    cbn [typed api_calls audio_frames is_recording stream logger
         temp_files hotkey_manager fs] in Hrest, Hcalls;
    injection Hrest as Hr2 Hf2 Hs2 _ _ _ Ht2.
  - destruct text as [| c text].
    + cbn [typed api_calls audio_frames is_recording stream logger].
      repeat split; try congruence; try lia. left. congruence.
    + unfold clean_text_logged.
      pose proof (clean_text_tidy (remove_fillers cfg) (filler_words cfg)
                    (c :: text)) as Htidy.
      destruct (clean_text (remove_fillers cfg) (filler_words cfg) (c :: text))
        as [| c' t'] eqn:Eclean.
      * cbn [typed api_calls audio_frames is_recording stream logger].
        repeat split; try congruence; try lia. left. congruence.
      * unfold type_text.
        cbn [typed api_calls audio_frames is_recording stream logger set_typed].
        repeat split; try congruence; try lia.
        right. exists (c' :: t'). repeat split; try discriminate; try apply Htidy.
        congruence.
  - cbn [typed api_calls audio_frames is_recording stream logger].
    repeat split; try congruence; try lia. left. congruence.
Qed.

(** X18. A release with no frame recorded creates no file, makes no
    request and types nothing: it clears the flag, closes the stream and
    logs one warning; a processing run on no frame only logs that saving
    failed. *)
Theorem release_without_frames_does_nothing {U : Unicode} (cfg : Config)
    (tmp : result string) (write : result unit) (backend : Backend) (s : VT) :
  audio_frames s = [] ->
  let s' := release cfg tmp write backend s in
  fs s' = fs s /\ temp_files s' = temp_files s /\ typed s' = typed s /\
  api_calls s' = api_calls s /\ is_recording s' = false /\ stream s' = None /\
  log s' = log s ++ [(WARNING, py "No audio data recorded")] /\
  _process_audio cfg tmp write backend s
    = logger ERROR (py "Failed to save audio file") s.
Proof.
  intros He. cbv zeta. unfold release, stop_recording, _process_audio,
    save_audio_to_file, _cleanup_stream.
  cbn [stream set_is_recording audio_frames]. rewrite He.
  destruct (stream s) eqn:Es; cbn; rewrite ?He, ?Es; repeat split;
    cbn [stream logger set_is_recording set_stream]; try reflexivity; exact Es.
Qed.

Lemma release_without_frames_does_nothing_witness :
  audio_frames vt0 = [] /\
  typed (release cfg0 (Ok "tmp.wav"%string) (Ok ()) backend_hello vt0) = typed vt0 /\
  api_calls (release cfg0 (Ok "tmp.wav"%string) (Ok ()) backend_hello vt0)
    = api_calls vt0.
Proof.
  assert (He : audio_frames vt0 = []) by reflexivity.
  destruct (release_without_frames_does_nothing cfg0 (Ok "tmp.wav"%string)
              (Ok ()) backend_hello vt0 He) as (_ & _ & Ht & Hc & _).
  split; [exact He |]. split; [exact Ht | exact Hc].
Defined.

Ltac tf_solve :=
  solve [ reflexivity
        | apply elem_of_union_r, elem_of_singleton; reflexivity
        | apply union_subseteq_l ].

(** X19. A processing run changes the file system at the path of its own
    temporary file only and adds at most that name to [temp_files]; with
    frames present the name is tracked even when writing fails. The file
    then holds the waveform when the writing worked; when it failed, the
    file is gone if [os.remove] answered and is still there if it raised.
    When no temporary file can be created, nothing is written, requested
    or typed. *)
Theorem processing_touches_only_its_file {U : Unicode} (cfg : Config)
    (tmp : result string) (write : result unit) (backend : Backend) (s : VT) :
  let s' := _process_audio cfg tmp write backend s in
  match tmp with
  | Ok name =>
      (forall q : string, q <> name -> fs s' !! q = fs s !! q) /\
      temp_files s ⊆ temp_files s' /\ temp_files s' ⊆ temp_files s ∪ {[ name ]} /\
      (audio_frames s <> [] ->
       name ∈ temp_files s' /\
       match write, os_remove s name with
       | Ok _, _ => fs s' !! name = Some (wav_of cfg (audio_frames s))
       | Raise _, Ok _ => fs s' !! name = None
       | Raise _, Raise _ => is_Some (fs s' !! name)
       end)
  | Raise e =>
      fs s' = fs s /\ temp_files s' = temp_files s /\
      typed s' = typed s /\ api_calls s' = api_calls s
  end.
Proof.
  cbv zeta. unfold _process_audio, save_audio_to_file.
  destruct (audio_frames s) as [| fr frs] eqn:E.
  { destruct tmp as [name | e]; cbn; repeat split; auto; try tf_solve;
      try contradiction. }
  destruct tmp as [name | e]; [| cbn; auto].
  destruct write as [u | e].
  - cbn [fst snd].
    match goal with
    | |- context [transcribe_audio backend name ?x] =>
        pose proof (transcribe_audio_files backend name x) as Ht;
        destruct (transcribe_audio backend name x) as [[t | e] s1]
    end; cbn [snd] in Ht; unfold files_of in Ht;
      cbn [fs temp_files logger set_fs set_temp_files audio_frames] in Ht;
      injection Ht as Hfs Htf.
    all: assert (Hout : forall s2, fs s2 = fs s1 -> temp_files s2 = temp_files s1 ->
      (forall q : string, q <> name -> fs s2 !! q = fs s !! q) /\
      temp_files s ⊆ temp_files s2 /\ temp_files s2 ⊆ temp_files s ∪ {[ name ]} /\
      (fr :: frs <> [] -> name ∈ temp_files s2 /\
         fs s2 !! name = Some (wav_of cfg (fr :: frs))));
      [ intros s2 -> ->; rewrite Hfs, Htf; split;
        [ intros q Hq; now rewrite !lookup_insert_ne by congruence
        | split; [tf_solve | split; [tf_solve |]]; intros _;
          split; [tf_solve |]; rewrite lookup_insert_eq, E; reflexivity ] |].
    + destruct t as [| c t]; [apply Hout; reflexivity |].
      unfold clean_text_logged.
      destruct (clean_text _ _ _); apply Hout; reflexivity.
    + apply Hout; reflexivity.
  - cbn [fst snd fs temp_files logger set_fs set_temp_files os_remove].
    rewrite lookup_insert_eq. rewrite bool_decide_eq_true_2 by eauto.
    destruct (os_remove s name) as [u | e'];
      cbn [fst snd fs temp_files logger set_fs set_temp_files];
      (split; [| split; [tf_solve | split; [tf_solve |]]]).
    + intros q Hq. rewrite lookup_delete_ne by congruence.
      now rewrite lookup_insert_ne by congruence.
    + intros _. split; [tf_solve | apply lookup_delete_eq].
    + intros q Hq. now rewrite lookup_insert_ne by congruence.
    + intros _. split; [tf_solve | eexists; apply lookup_insert_eq].
Qed.

Lemma fold_remove_log (l : list string) :
  forall (s : VT) (x : Level * str),
    x ∈ log s -> x ∈ log (fold_left remove_if_exists l s).
Proof.
  induction l as [| q l IH]; intros s x Hx; cbn [fold_left]; [exact Hx |].
  apply IH. unfold remove_if_exists. destruct (bool_decide _); [| exact Hx].
  destruct (os_remove s q); cbn [log logger set_fs]; [exact Hx |].
  apply elem_of_app. now left.
Qed.

(** Each tracked file that is there and that [os.remove] refuses gets
    its warning. *)
Lemma fold_remove_warns (l : list string) :
  forall (s : VT) (p : string) (e : str),
    p ∈ l -> is_Some (fs s !! p) -> os_remove s p = Raise e ->
    (WARNING, py "Failed to remove temporary file " ++ py p ++ py ": " ++ e)
      ∈ log (fold_left remove_if_exists l s).
Proof.
  induction l as [| q l IH]; intros s p e Hin Hsome Hrm; [inversion Hin |].
  cbn [fold_left]. destruct (decide (p = q)) as [<- | Hne].
  - apply fold_remove_log. unfold remove_if_exists.
    rewrite bool_decide_eq_true_2 by exact Hsome. rewrite Hrm.
    cbn [log logger]. apply elem_of_app. right. apply list_elem_of_singleton.
    reflexivity.
  - apply elem_of_cons in Hin as [-> | Hin]; [contradiction |].
    apply IH; [exact Hin | |].
    + rewrite remove_if_exists_lookup.
      now rewrite bool_decide_eq_false_2 by exact Hne.
    + destruct (remove_if_exists_rest s q) as (_ & _ & _ & _ & _ & _ & _ & ->).
      exact Hrm.
Qed.

(** What [cleanup] leaves besides the files. *)
Lemma cleanup_rest (listener_stop terminate : result unit) (s : VT) :
  let s' := fst (cleanup listener_stop terminate s) in
  temp_files s' = temp_files s /\ is_recording s' = false /\
  typed s' = typed s /\ api_calls s' = api_calls s /\
  os_remove s' = os_remove s /\
  reaches_removal listener_stop terminate s'
  = reaches_removal listener_stop terminate s /\
  (listener (hotkey_manager s) = None \/ listener_stop = Ok () ->
   stream s' = None /\ listener (hotkey_manager s') = None /\
   is_listening (hotkey_manager s') = false) /\
  snd (cleanup listener_stop terminate s)
  = is_recording s && match audio_frames s with [] => false | _ => true end /\
  (reaches_removal listener_stop terminate s = false ->
   exists e : str,
     last (log s') = Some (ERROR, py "Error during cleanup: " ++ e)) /\
  (reaches_removal listener_stop terminate s = true ->
   forall (p : string) (e : str),
     p ∈ temp_files s -> is_Some (fs s !! p) -> os_remove s p = Raise e ->
     (WARNING, py "Failed to remove temporary file " ++ py p ++ py ": " ++ e)
       ∈ log s').
Proof.
  cbv zeta. unfold cleanup, reaches_removal.
  assert (Hsr : let s1 := fst (if is_recording s then stop_recording s
                               else (s, false)) in
            is_recording s1 = false /\ fs s1 = fs s /\
            temp_files s1 = temp_files s /\ typed s1 = typed s /\
            api_calls s1 = api_calls s /\
            hotkey_manager s1 = hotkey_manager s /\
            os_remove s1 = os_remove s /\
            snd (if is_recording s then stop_recording s else (s, false))
            = is_recording s &&
              match audio_frames s with [] => false | _ => true end).
  { cbv zeta. destruct (is_recording s) eqn:Er; [| cbn; auto 10].
    destruct (stop_recording_rest s) as (? & ? & ? & ? & ? & ? & ? & ?).
    destruct (stop_recording_eq s) as [_ ?]. auto 10. }
  cbv zeta in Hsr.
  destruct (if is_recording s then stop_recording s else (s, false))
    as [s1 started].
  cbn [fst snd] in Hsr.
  destruct Hsr as (Hr & Hfs & Htf & Hty & Hac & Hhm & Hrm & Hst).
  rewrite Hhm. unfold Hotkey.stop_listening. cbv zeta.
  set (m' := mkManager None false ∅ _ _).
  assert (Hc : let s2 := _cleanup_stream (set_hotkey_manager m' s1) in
    is_recording s2 = false /\ fs s2 = fs s /\ temp_files s2 = temp_files s /\
    typed s2 = typed s /\ api_calls s2 = api_calls s /\
    hotkey_manager s2 = m' /\ os_remove s2 = os_remove s /\ stream s2 = None).
  { cbv zeta. unfold _cleanup_stream. cbn [stream set_hotkey_manager].
    destruct (stream s1) eqn:Es; cbn; rewrite ?Es; auto 10. }
  cbv zeta in Hc.
  set (s2 := _cleanup_stream (set_hotkey_manager m' s1)) in *.
  destruct Hc as (C1 & C2 & C3 & C4 & C5 & C6 & C7 & C8).
  pose proof (fold_remove_rest (elements (temp_files s2)) s2) as F.
  cbv zeta in F. destruct F as (F1 & _ & F3 & F4 & F5 & F6 & F7 & F8).
  pose proof (fold_remove_warns (elements (temp_files s2)) s2) as W.
  assert (Hl : listener m' = None /\ is_listening m' = false) by (split; reflexivity).
  destruct Hl as [Hl1 Hl2].
  clearbody s2. clearbody m'.
  set (s3 := fold_left remove_if_exists (elements (temp_files s2)) s2) in *.
  clearbody s3.
  assert (Hw : forall (p : string) (e : str),
     p ∈ temp_files s -> is_Some (fs s !! p) -> os_remove s p = Raise e ->
     (WARNING, py "Failed to remove temporary file " ++ py p ++ py ": " ++ e)
       ∈ log s3).
  { intros p e Hin Hsome Hre. apply W.
    - apply elem_of_elements. now rewrite C3.
    - now rewrite C2.
    - now rewrite C7. }
  clear W.
  destruct (listener (hotkey_manager s)) as [l |] eqn:El;
    [destruct listener_stop as [[] | el] |];
    destruct terminate as [[] | et];
    cbn [fst snd temp_files is_recording typed api_calls os_remove
         hotkey_manager stream logger log];
    rewrite ?El, ?F1, ?F3, ?F4, ?F5, ?F6, ?F7, ?F8, ?C6, ?Hhm, ?El, ?Hl1, ?Hl2;
    repeat match goal with
           | |- _ /\ _ => split
           end;
    try assumption; try reflexivity; try discriminate;
    try (intros _; repeat split; assumption);
    try (intros _; eexists; apply last_snoc);
    try (intros [H | H]; discriminate).
Qed.

(** X20. [cleanup] reaches its removal loop when neither the stop of
    the listener nor [terminate] raises. It then removes the files whose
    names are in [temp_files] and for which [os.remove] answers; a
    tracked file for which it raises stays and gets a warning; no other
    file changes. When the loop is not reached no file changes and the
    error is logged last. Either way it keeps the set itself, leaves the
    flag cleared, types nothing and makes no request; unless the stop of
    the listener raised, the stream is closed and the listener stopped;
    it starts a processing run exactly when a recording with frames was
    in progress; a second [cleanup] with the same answers changes no
    file. *)
Theorem cleanup_removes_exactly_tracked (listener_stop terminate : result unit)
    (s : VT) :
  let s' := fst (cleanup listener_stop terminate s) in
  (forall p : string,
     fs s' !! p
     = if reaches_removal listener_stop terminate s
          && bool_decide (p ∈ temp_files s)
       then match os_remove s p with Ok _ => None | Raise _ => fs s !! p end
       else fs s !! p) /\
  (reaches_removal listener_stop terminate s = true ->
   forall (p : string) (e : str),
     p ∈ temp_files s -> is_Some (fs s !! p) -> os_remove s p = Raise e ->
     (WARNING, py "Failed to remove temporary file " ++ py p ++ py ": " ++ e)
       ∈ log s') /\
  (reaches_removal listener_stop terminate s = false ->
   fs s' = fs s /\
   exists e : str,
     last (log s') = Some (ERROR, py "Error during cleanup: " ++ e)) /\
  temp_files s' = temp_files s /\ is_recording s' = false /\
  typed s' = typed s /\ api_calls s' = api_calls s /\
  (listener (hotkey_manager s) = None \/ listener_stop = Ok () ->
   stream s' = None /\ listener (hotkey_manager s') = None /\
   is_listening (hotkey_manager s') = false) /\
  snd (cleanup listener_stop terminate s)
    = is_recording s && match audio_frames s with [] => false | _ => true end /\
  fs (fst (cleanup listener_stop terminate s')) = fs s'.
Proof.
  cbv zeta.
  destruct (cleanup_rest listener_stop terminate s)
    as (Htf & Hr & Hty & Hac & Hrm & Hreach & Hstop & Hst & Herr & Hwarn).
  split; [intros p; apply cleanup_lookup |].
  split; [exact Hwarn |].
  split.
  { intros Hn. split; [| now apply Herr].
    apply map_eq. intros p. rewrite cleanup_lookup, Hn. reflexivity. }
  repeat (split; [assumption |]).
  apply map_eq. intros p.
  rewrite cleanup_lookup, Hreach, Htf, Hrm, cleanup_lookup.
  destruct (reaches_removal listener_stop terminate s
            && bool_decide (p ∈ temp_files s)); [| reflexivity].
  now destruct (os_remove s p).
Qed.

Lemma retry_first_answer (backend : Backend) (path : string) (f : file)
    (text : str) (k : nat) :
  forall (n : nat) (s : VT),
    (k < n)%nat ->
    fs s !! path = Some f ->
    (forall j, (j < k)%nat -> fails backend (api_calls s + j)) ->
    answers backend (api_calls s + k) text ->
    let r := retry n (transcribe_once backend path) s in
    fst r = Ok text /\
    api_calls (snd r) = (api_calls s + k + 1)%nat /\
    last (log (snd r)) = Some (INFO, py "Raw transcription: '" ++ text ++ py "'").
Proof.
  induction k as [| k IH]; intros n s Hk Hf Hfail Hans; cbv zeta;
    (destruct n as [| n]; [lia |]); cbn [retry].
  - rewrite Nat.add_0_r in Hans.
    unfold transcribe_once. rewrite Hf, (Hans f). cbn.
    repeat split; [lia | apply last_snoc].
  - assert (H0 : fails backend (api_calls s)).
    { rewrite <- (Nat.add_0_r (api_calls s)). apply Hfail. lia. }
    destruct (transcribe_once_fails backend path s f Hf H0)
      as (e1 & s1 & -> & Hc1 & Hf1 & _).
    specialize (IH n s1). cbv zeta in IH.
    rewrite Hc1 in IH.
    replace (S (api_calls s) + k + 1)%nat with (api_calls s + S k + 1)%nat in IH by lia.
    apply IH.
    + lia.
    + now rewrite Hf1.
    + intros j Hj. replace (S (api_calls s) + j)%nat with (api_calls s + S j)%nat by lia.
      apply Hfail. lia.
    + replace (S (api_calls s) + k)%nat with (api_calls s + S k)%nat by lia.
      exact Hans.
Qed.

(** X21. With the audio file in place, if the backend raises on the
    first [k] requests ([k] below three) and answers the next, the call
    returns that answer after exactly [k + 1] requests, its last log
    record being the raw transcription. *)
Theorem transcription_stops_at_first_answer (backend : Backend) (path : string)
    (s : VT) (f : file) (text : str) (k : nat) :
  fs s !! path = Some f ->
  (k < 3)%nat ->
  (forall j, (j < k)%nat -> fails backend (api_calls s + j)) ->
  answers backend (api_calls s + k) text ->
  fst (transcribe_audio backend path s) = Ok text /\
  api_calls (snd (transcribe_audio backend path s)) = (api_calls s + k + 1)%nat /\
  last (log (snd (transcribe_audio backend path s)))
    = Some (INFO, py "Raw transcription: '" ++ text ++ py "'").
Proof.
  intros Hf Hk Hfail Hans.
  exact (retry_first_answer backend path f text k 3 s Hk Hf Hfail Hans).
Qed.

Lemma transcription_stops_at_first_answer_witness :
  fst (transcribe_audio backend_hello "tmp.wav" vt_saved) = Ok (py "uh hello world") /\
  api_calls (snd (transcribe_audio backend_hello "tmp.wav" vt_saved)) = 1%nat.
Proof.
  assert (Hf : fs vt_saved !! "tmp.wav"%string = Some (wav_of cfg0 [chunk0]))
    by (vm_compute; reflexivity).
  assert (Hk : (0 < 3)%nat) by lia.
  assert (Hfail : forall j, (j < 0)%nat -> fails backend_hello (api_calls vt_saved + j))
    by (intros j Hj; lia).
  assert (Hans : answers backend_hello (api_calls vt_saved + 0) (py "uh hello world"))
    by (intros f; reflexivity).
  destruct (transcription_stops_at_first_answer backend_hello "tmp.wav" vt_saved
              _ _ 0%nat Hf Hk Hfail Hans) as (Hr & Hc & _).
  split; [exact Hr | exact Hc].
Defined.

Lemma transcribe_once_missing (backend : Backend) (path : string) (s : VT) :
  fs s !! path = None ->
  transcribe_once backend path s
  = (Raise (py "No such file or directory"),
     logger ERROR (py "Error during transcription: "
                   ++ py "No such file or directory") s).
Proof. intros Hf. unfold transcribe_once. now rewrite Hf. Qed.

(** X22. When the audio file is not there, the call fails on each of its
    three attempts without sending a request: it raises after three
    error records, and types nothing. *)
Theorem missing_file_makes_no_request (backend : Backend)
    (path : string) (s : VT) :
  fs s !! path = None ->
  let r := transcribe_audio backend path s in
  fst r = Raise (py "RetryError") /\
  api_calls (snd r) = api_calls s /\
  typed (snd r) = typed s /\
  length (log (snd r)) = (length (log s) + 3)%nat /\
  Forall (fun rec => fst rec = ERROR) (drop (length (log s)) (log (snd r))).
Proof.
  intros Hf. cbv zeta. unfold transcribe_audio. cbn [retry].
  rewrite (transcribe_once_missing backend path s Hf).
  rewrite (transcribe_once_missing backend path (logger _ _ s) Hf).
  rewrite (transcribe_once_missing backend path (logger _ _ (logger _ _ s)) Hf).
  cbn [fst snd api_calls typed log logger].
  repeat split.
  - rewrite !length_app. cbn [length]. lia.
  - rewrite <- !app_assoc. rewrite drop_app_length. cbn [app].
    repeat constructor.
Qed.

Lemma missing_file_makes_no_request_witness :
  fs vt0 !! "tmp.wav"%string = None /\
  fst (transcribe_audio backend_hello "tmp.wav" vt0) = Raise (py "RetryError") /\
  api_calls (snd (transcribe_audio backend_hello "tmp.wav" vt0)) = api_calls vt0.
Proof.
  assert (Hf : fs vt0 !! "tmp.wav"%string = None) by (vm_compute; reflexivity).
  destruct (missing_file_makes_no_request backend_hello "tmp.wav" vt0 Hf)
    as (Hr & Hc & _).
  split; [exact Hf |]. split; [exact Hr | exact Hc].
Defined.

(** ** Start-up *)

Lemma find_input_spec (h : AudioHost) (n : nat) :
  forall i : nat,
    match find_input (device_info h) i n with
    | Some (k, name) =>
        (i <= k < i + n)%nat /\ usable h k = true /\
        (forall j, (i <= j < k)%nat -> usable h j = false)
    | None => forall j, (i <= j < i + n)%nat -> usable h j = false
    end.
Proof.
  induction n as [| n IH]; intros i; cbn [find_input]; [intros j Hj; lia |].
  specialize (IH (S i)).
  assert (Hstep : usable h i = false ->
    match find_input (device_info h) (S i) n with
    | Some (k, name) =>
        (i <= k < i + S n)%nat /\ usable h k = true /\
        (forall j, (i <= j < k)%nat -> usable h j = false)
    | None => forall j, (i <= j < i + S n)%nat -> usable h j = false
    end).
  { intros Hi. destruct (find_input (device_info h) (S i) n) as [[k name] |].
    - destruct IH as (Hk & Hu & Hlow). split; [lia |]. split; [exact Hu |].
      intros j Hj. destruct (Nat.eq_dec j i) as [-> | Hne]; [exact Hi |].
      apply Hlow. lia.
    - intros j Hj. destruct (Nat.eq_dec j i) as [-> | Hne]; [exact Hi |].
      apply IH. lia. }
  unfold usable in Hstep at 1.
  destruct (device_info h i) as [d | e] eqn:Ed; [| now apply Hstep].
  destruct (maxInputChannels d >? 0) eqn:Ec; [| now apply Hstep].
  split; [lia |]. split; [unfold usable; now rewrite Ed |].
  intros j Hj. lia.
Qed.

(** X23. [get_input_device] returns the index of the default input
    device when PyAudio names one; otherwise the lowest index below the
    device count whose device answers and reports an input channel;
    [None] when PyAudio cannot be created or no device qualifies; and it
    raises only when the device count itself cannot be read. *)
Theorem input_device_choice (h : AudioHost) :
  match fst (get_input_device h) with
  | Ok (Some idx) =>
      (exists name, default_input h = Ok (name, idx)) \/
      (exists (e : str) (n k : nat),
         default_input h = Raise e /\ device_count h = Ok n /\
         idx = Z.of_nat k /\ (k < n)%nat /\ usable h k = true /\
         forall j, (j < k)%nat -> usable h j = false)
  | Ok None =>
      (exists e, pa_new h = Raise e) \/
      (exists (e : str) (n : nat),
         default_input h = Raise e /\ device_count h = Ok n /\
         forall j, (j < n)%nat -> usable h j = false)
  | Raise e =>
      pa_new h = Ok () /\ (exists e0, default_input h = Raise e0) /\
      device_count h = Raise e
  end.
Proof.
  unfold get_input_device.
  destruct (pa_new h) as [[] | e0]; [| cbn; left; eauto].
  destruct (default_input h) as [[name index] | e1]; [cbn; left; eauto |].
  destruct (device_count h) as [n | e2]; [| cbn; eauto].
  pose proof (find_input_spec h n 0%nat) as Hspec.
  destruct (find_input (device_info h) 0 n) as [[k name] |]; cbn.
  - destruct Hspec as (Hk & Hu & Hlow). right. exists e1, n, k.
    repeat split; auto; try lia. intros j Hj. apply Hlow. lia.
  - right. exists e1, n. repeat split; auto. intros j Hj. apply Hspec. lia.
Qed.







Example audio_init_second_round :
  fst (_initialize_audio attempts_second init0) = Ok () /\
  input_device_index (snd (_initialize_audio attempts_second init0)) = Some 1 /\
  sleeps (snd (_initialize_audio attempts_second init0)) = 1%nat /\
  terminations (snd (_initialize_audio attempts_second init0)) = 1%nat.
Proof. vm_compute. repeat split. Qed.

(** X25. Where the token [alt] parses to the Alt key, [_setup_hotkey]
    never raises: it keeps a hotkey string that validates and replaces
    any other by [alt], registers the start and stop callbacks under a
    combination of one to four keys, and logs no error record (the
    second registration attempt is never reached). *)
Theorem setup_hotkey_falls_back_to_alt {U : Unicode} (hotkey_string : str)
    (start_recording stop_recording : Callback) (m : HotkeyManager) :
  parse_hotkey (py "alt") = Some {[ Key "alt" ]} ->
  let r := _setup_hotkey hotkey_string start_recording stop_recording m in
  let hs' := fst (fst (snd r)) in
  let m' := snd (fst (snd r)) in
  let l := snd (snd r) in
  fst r = Ok () /\
  hs' = (if fst (validate_hotkey hotkey_string) then hotkey_string else py "alt") /\
  (exists keys : gset key,
     parse_hotkey hs' = Some keys /\ (1 <= size keys <= 4)%nat /\
     dict_lookup keys (hotkeys m')
       = Some (mkInfo (Some start_recording) (Some stop_recording) hs' false 0)) /\
  length l = (if fst (validate_hotkey hotkey_string) then 0 else 2)%nat /\
  Forall (fun rec => fst rec <> ERROR) l.
Proof.
  intros Halt. cbv zeta. unfold _setup_hotkey.
  assert (Hvalid : forall s keys, parse_hotkey s = Some keys ->
            fst (validate_hotkey s) = true -> (1 <= size keys <= 4)%nat).
  { intros s keys Hp. unfold validate_hotkey. rewrite Hp.
    destruct (bool_decide (s = [])); [discriminate |].
    destruct (Nat.eqb_spec (size keys) 0); [discriminate |].
    destruct (Nat.ltb_spec 4 (size keys)); [discriminate |]. intros _. lia. }
  assert (Hsome : forall s, fst (validate_hotkey s) = true ->
            exists keys, parse_hotkey s = Some keys).
  { intros s. unfold validate_hotkey.
    destruct (bool_decide (s = [])); [discriminate |].
    destruct (parse_hotkey s) as [keys |]; [eauto | discriminate]. }
  destruct (validate_hotkey hotkey_string) as [is_valid error_msg] eqn:Ev.
  assert (Hv : fst (validate_hotkey hotkey_string) = is_valid) by now rewrite Ev.
  cbn [fst]. destruct is_valid; cbn [negb].
  - destruct (Hsome _ Hv) as [keys Hp].
    unfold register_hotkey. rewrite Hp. cbn [negb fst snd].
    split; [reflexivity |]. split; [reflexivity |].
    split; [| split; [reflexivity | constructor]].
    exists keys. split; [exact Hp |]. split; [now apply (Hvalid hotkey_string) |].
    cbn [hotkeys set_hotkeys]. apply dict_lookup_set.
  - unfold register_hotkey. rewrite Halt. cbn [negb fst snd].
    split; [reflexivity |]. split; [reflexivity |].
    split; [| split; [reflexivity | repeat constructor; discriminate]].
    exists {[ Key "alt" ]}. split; [exact Halt |].
    split; [rewrite size_singleton; lia |].
    cbn [hotkeys set_hotkeys]. apply dict_lookup_set.
Qed.

Lemma setup_hotkey_falls_back_to_alt_witness :
  @parse_hotkey py_unicode (py "alt") = Some {[ Key "alt" ]} /\
  fst (@_setup_hotkey py_unicode five_keys 1%nat 2%nat init) = Ok () /\
  fst (fst (snd (@_setup_hotkey py_unicode five_keys 1%nat 2%nat init)))
    = (if fst (@validate_hotkey py_unicode five_keys) then five_keys else py "alt").
Proof.
  assert (Halt : @parse_hotkey py_unicode (py "alt") = Some {[ Key "alt" ]})
    by (vm_compute; reflexivity).
  destruct (@setup_hotkey_falls_back_to_alt py_unicode five_keys 1%nat 2%nat init
              Halt) as (Hr & Hs & _).
  split; [exact Halt |]. split; [exact Hr | exact Hs].
Defined.

(** ** Text injection *)

Import Typing.

Lemma char_by_char_spec (d : Desktop) (text : str) :
  forall i : nat,
    Forall (fun a => uses_clipboard a = false) (fst (char_by_char d i text)) /\
    (length (fst (char_by_char d i text)) + length (snd (char_by_char d i text))
     = length text)%nat /\
    ((forall j, write_char d j = Ok ()) -> isascii text = true ->
     flat_map on_screen (fst (char_by_char d i text)) = text).
Proof.
  induction text as [| c rest IH]; intros i; cbn [char_by_char].
  { repeat split; constructor. }
  destruct (IH (S i)) as (Hc & Hl & Hs).
  destruct (char_by_char d (S i) rest) as [acts l]. cbn [fst snd] in *.
  destruct (write_char d i) as [[] | e] eqn:Ew; cbn [fst snd length].
  - split; [constructor; [now destruct (c <? 128) | exact Hc] |].
    split; [lia |]. intros Hall Ha. cbn [isascii forallb] in Ha.
    apply andb_true_iff in Ha as [Hc1 Hr]. rewrite Hc1.
    cbn [flat_map on_screen app]. now rewrite (Hs Hall Hr).
  - split; [exact Hc |]. split; [lia |]. intros Hall _.
    rewrite Hall in Ew. discriminate.
Qed.

Lemma fallback_actions {U : Unicode} (d : Desktop) (text : str)
    (acts : list Action) (l : list (Level * str)) :
  fst (fallback d text acts l) = acts ++ fst (char_by_char d 0 text).
Proof. unfold fallback. now destruct (char_by_char d 0 text). Qed.

Lemma after_clipboard_actions {U : Unicode} (tm : str) (d : Desktop)
    (text : str) (acts : list Action) (l : list (Level * str)) :
  exists more : list Action,
    fst (after_clipboard tm d text acts l) = acts ++ more /\
    Forall (fun a => uses_clipboard a = false) more.
Proof.
  destruct (char_by_char_spec d text 0) as (Hc & _).
  unfold after_clipboard, direct.
  destruct (bool_decide (tm = py "direct")).
  - destruct (write d) as [| n e].
    + exists [WriteText text]. split; [reflexivity | repeat constructor].
    + rewrite fallback_actions. rewrite <- app_assoc.
      eexists. split; [reflexivity |]. constructor; [reflexivity | exact Hc].
  - rewrite fallback_actions. eauto.
Qed.

Lemma no_clipboard_no_paste (acts : list Action) :
  Forall (fun a => uses_clipboard a = false) acts ->
  (PasteHotkey ∉ acts) /\ existsb uses_clipboard acts = false.
Proof.
  induction 1 as [| a acts Ha _ [IH1 IH2]]; [split; [apply not_elem_of_nil | reflexivity] |].
  split.
  - intros [Heq | Hin]%elem_of_cons; [subst a; discriminate | contradiction].
  - cbn [existsb]. now rewrite Ha, IH2.
Qed.

(** X26. [type_text] settles on the clipboard exactly when the method is
    [clipboard], or [auto] with a text that is not all ASCII; it touches
    the clipboard only then; and the paste is sent exactly when, on top
    of that, the interval reads, pyperclip imports, the copy and the
    paste work, in which case the copy and the paste are all it asks of
    the desktop. *)
Theorem clipboard_only_when_chosen {U : Unicode} (typing_method : str)
    (d : Desktop) (text : str) :
  let acts := fst (type_text typing_method d text) in
  (chosen_method typing_method text = py "clipboard" <->
   lower typing_method = py "clipboard" \/
   lower typing_method = py "auto" /\ isascii text = false) /\
  (existsb uses_clipboard acts = true ->
   chosen_method typing_method text = py "clipboard") /\
  (PasteHotkey ∈ acts <->
   chosen_method typing_method text = py "clipboard" /\
   interval d = Ok () /\ pyperclip d = Ok () /\ copy d = Ok () /\
   paste d = Ok ()) /\
  (PasteHotkey ∈ acts -> acts = [Copy text; PasteHotkey]).
Proof.
  cbv zeta.
  assert (Hchosen : chosen_method typing_method text = py "clipboard" <->
            lower typing_method = py "clipboard" \/
            lower typing_method = py "auto" /\ isascii text = false).
  { unfold chosen_method. cbv zeta.
    destruct (bool_decide_reflect (lower typing_method = py "auto")) as [Ha | Ha].
    - rewrite Ha. destruct (isascii text); cbn [negb]; split.
      + intros H. vm_compute in H. discriminate.
      + intros [H | [_ H]]; [vm_compute in H |]; discriminate.
      + auto.
      + reflexivity.
    - split; [auto | intros [H | [H _]]; [exact H | contradiction]]. }
  split; [exact Hchosen |].
  unfold type_text.
  destruct (interval d) as [[] | e].
  2:{ cbn [fst]. split; [discriminate |]. split; [| intros H; inversion H].
      split; [intros H; inversion H | intros (_ & H & _); discriminate]. }
  fold (chosen_method typing_method text).
  assert (Hpair : forall l1 l2 l3 : list (Level * str),
    (if bool_decide (lower typing_method = py "auto")
     then if negb (isascii text) then (py "clipboard", l1) else (py "direct", l2)
     else (lower typing_method, l3))
    = (chosen_method typing_method text,
       if bool_decide (lower typing_method = py "auto")
       then if negb (isascii text) then l1 else l2 else l3)).
  { intros l1 l2 l3. unfold chosen_method. cbv zeta.
    destruct (bool_decide _); [destruct (negb _) |]; reflexivity. }
  cbv zeta. rewrite Hpair.
  set (cm := chosen_method typing_method text) in *.
  destruct (bool_decide_reflect (cm = py "clipboard")) as [Hcm | Hcm].
  - assert (Hfail : forall (acts : list Action) (l : list (Level * str)),
      PasteHotkey ∉ acts ->
      PasteHotkey ∉ fst (after_clipboard (py "direct") d text acts l)).
    { intros acts l Hn.
      destruct (after_clipboard_actions (py "direct") d text acts l)
        as (more & -> & Hmore).
      destruct (no_clipboard_no_paste more Hmore) as [Hp _].
      intros [H | H]%elem_of_app; contradiction. }
    assert (Hcopy : PasteHotkey ∉ [Copy text]).
    { intros [H | H]%elem_of_cons; [discriminate | inversion H]. }
    split; [intros _; exact Hcm |].
    destruct (pyperclip d) as [[] | e1];
      [destruct (copy d) as [[] | e2]; [destruct (paste d) as [[] | e3] |] |].
    + cbn [fst]. split; [| reflexivity].
      split; [auto 10 |]. intros _. apply elem_of_cons. right. apply elem_of_cons. now left.
    + split; [| intros H; exfalso; revert H; apply Hfail; exact Hcopy].
      split; [intros H; exfalso; revert H; apply Hfail; exact Hcopy
             | intros (_ & _ & _ & _ & H); discriminate].
    + split; [| intros H; exfalso; revert H; apply Hfail; apply not_elem_of_nil].
      split; [intros H; exfalso; revert H; apply Hfail; apply not_elem_of_nil
             | intros (_ & _ & _ & H & _); discriminate].
    + split; [| intros H; exfalso; revert H; apply Hfail; apply not_elem_of_nil].
      split; [intros H; exfalso; revert H; apply Hfail; apply not_elem_of_nil
             | intros (_ & _ & H & _); discriminate].
  - match goal with
    | |- context [after_clipboard cm d text [] ?l] =>
        destruct (after_clipboard_actions cm d text [] l) as (more & Hm & Hmore)
    end.
    rewrite Hm. cbn [app].
    destruct (no_clipboard_no_paste more Hmore) as [Hp He].
    split; [rewrite He; discriminate |].
    split; [| intros H; contradiction].
    split; [intros H; contradiction | intros (H & _); contradiction].
Qed.

(** X27. With the direct method chosen, a whole-text write that raises
    after some characters is followed by the character-by-character pass
    over the whole text: the actions are that write and at most one per
    character, none on the clipboard; when every character can then be
    typed and the text is ASCII, the screen holds the characters already
    written followed by the whole text. *)
Theorem failed_direct_write_retypes_whole_text {U : Unicode}
    (typing_method : str) (d : Desktop) (text : str) (n : nat) (e : str) :
  interval d = Ok () ->
  chosen_method typing_method text = py "direct" ->
  write d = WriteRaised n e ->
  let acts := fst (type_text typing_method d text) in
  (exists chars : list Action,
     acts = WriteText (take n text) :: chars /\
     (length chars <= length text)%nat /\
     Forall (fun a => uses_clipboard a = false) chars) /\
  ((forall j, write_char d j = Ok ()) -> isascii text = true ->
   flat_map on_screen acts = take n text ++ text).
Proof.
  intros Hi Hcm Hw. cbv zeta. unfold type_text. rewrite Hi.
  assert (Hpair : forall l1 l2 l3 : list (Level * str),
    (if bool_decide (lower typing_method = py "auto")
     then if negb (isascii text) then (py "clipboard", l1) else (py "direct", l2)
     else (lower typing_method, l3))
    = (chosen_method typing_method text,
       if bool_decide (lower typing_method = py "auto")
       then if negb (isascii text) then l1 else l2 else l3)).
  { intros l1 l2 l3. unfold chosen_method. cbv zeta.
    destruct (bool_decide _); [destruct (negb _) |]; reflexivity. }
  cbv zeta. rewrite Hpair, Hcm.
  rewrite bool_decide_eq_false_2 by (intros H; vm_compute in H; discriminate).
  unfold after_clipboard. rewrite bool_decide_eq_true_2 by reflexivity.
  unfold direct. rewrite Hw. rewrite fallback_actions. cbn [app].
  destruct (char_by_char_spec d text 0) as (Hc & Hl & Hs).
  split.
  - eexists. split; [reflexivity |]. split; [lia | exact Hc].
  - intros Hall Ha. cbn [flat_map on_screen]. now rewrite (Hs Hall Ha).
Qed.

Lemma failed_direct_write_retypes_whole_text_witness :
  interval desktop_stuck = Ok () /\
  @chosen_method py_unicode (py "direct") (py "hello") = py "direct" /\
  flat_map on_screen
    (fst (@type_text py_unicode (py "direct") desktop_stuck (py "hello")))
  = py "hehello".
Proof.
  assert (Hi : interval desktop_stuck = Ok ()) by reflexivity.
  assert (Hcm : @chosen_method py_unicode (py "direct") (py "hello") = py "direct")
    by (vm_compute; reflexivity).
  assert (Hw : write desktop_stuck = WriteRaised 2 (py "fail-safe")) by reflexivity.
  destruct (@failed_direct_write_retypes_whole_text py_unicode (py "direct")
              desktop_stuck (py "hello") 2%nat (py "fail-safe") Hi Hcm Hw)
    as [_ Hscreen].
  split; [exact Hi |]. split; [exact Hcm |].
  rewrite Hscreen; [reflexivity | intros j; reflexivity | reflexivity].
Defined.

(** ** The service installer *)

Import Installer.

Lemma run_returned (h : Host) (c : Cmd) (check : bool) (w : World) (code : Z) :
  answer h c = Returned code ->
  run h c check w
  = (if check && negb (code =? 0) then inr CalledProcessError else inl code,
     mkWorld (service_file w) (trace w ++ [c])).
Proof.
  intros Ha. unfold run. rewrite Ha. now destruct (check && negb (code =? 0)).
Qed.

Lemma code_of_returned (h : Host) (c : Cmd) :
  all_return h -> answer h c = Returned (code_of h c).
Proof. intros Hall. unfold code_of. destruct (Hall c) as [code ->]. reflexivity. Qed.

Lemma probe_returns (h : Host) (service : string) (w : World) :
  all_return h ->
  probe h service w
  = (inl (), mkWorld (service_file w) (trace w ++ [ShowLoadState service])).
Proof.
  intros Hall. unfold probe.
  now rewrite (run_returned h _ false w _ (code_of_returned h _ Hall)).
Qed.

Lemma import_environment_returns (h : Host) (vars : list string) :
  all_return h ->
  forall w : World,
    exists imports : list Cmd,
      forallb is_import imports = true /\
      import_environment h vars w
      = (inl (), mkWorld (service_file w) (trace w ++ imports)).
Proof.
  intros Hall. induction vars as [| var rest IH]; intros w; cbn [import_environment].
  - exists []. split; [reflexivity |]. unfold ret. rewrite app_nil_r.
    now destruct w.
  - unfold bind at 1. destruct (in_environ (environ h) var).
    + unfold bind at 1.
      rewrite (run_returned h _ false w _ (code_of_returned h _ Hall)).
      cbn [andb]. unfold ret at 1.
      destruct (IH (mkWorld (service_file w)
                            (trace w ++ [ImportEnvironment var])))
        as (imports & Hi & ->).
      exists (ImportEnvironment var :: imports). cbn [forallb is_import andb].
      split; [exact Hi |]. cbn [service_file trace].
      now rewrite <- app_assoc.
    + unfold ret at 1. apply IH.
Qed.

Lemma start_service_returns (h : Host) (w : World) :
  all_return h ->
  start_service h w
  = (inl (),
     mkWorld (service_file w)
       (trace w ++ Start :: (if code_of h Start =? 0 then [IsActive] else []))).
Proof.
  intros Hall. unfold start_service, bind.
  rewrite (run_returned h Start true w _ (code_of_returned h _ Hall)).
  cbn [andb]. destruct (code_of h Start =? 0); cbn [negb].
  - rewrite (run_returned h IsActive false _ _ (code_of_returned h _ Hall)).
    cbn [andb ret service_file trace]. unfold ret. now rewrite <- app_assoc.
  - reflexivity.
Qed.

Lemma install_service_returns (h : Host) (w : World) :
  can_write h = true -> all_return h ->
  exists imports : list Cmd,
    forallb is_import imports = true /\
    install_service h w
    = (if code_of h DaemonReload =? 0
       then if code_of h Enable =? 0 then inl () else inr CalledProcessError
       else inr CalledProcessError,
       mkWorld (Some (generate_service_content h))
         (trace w ++ DaemonReload ::
            (if code_of h DaemonReload =? 0 then
               imports ++ Enable ::
                 (if code_of h Enable =? 0 then
                    Start :: (if code_of h Start =? 0 then [IsActive] else [])
                  else [])
             else []))).
Proof.
  intros Hw Hall. unfold install_service.
  unfold bind at 1. unfold write_service. rewrite Hw.
  unfold bind at 1.
  rewrite (run_returned h DaemonReload true _ _ (code_of_returned h _ Hall)).
  cbn [andb service_file trace].
  destruct (code_of h DaemonReload =? 0); cbn [negb];
    [| exists []; split; reflexivity].
  unfold bind at 1.
  match goal with
  | |- context [import_environment h ?vars ?w0] =>
      destruct (import_environment_returns h vars Hall w0) as (imports & Hi & ->)
  end.
  exists imports. split; [exact Hi |]. cbn [service_file trace].
  unfold bind at 1.
  rewrite (run_returned h Enable true _ _ (code_of_returned h _ Hall)).
  cbn [andb service_file trace].
  destruct (code_of h Enable =? 0); cbn [negb].
  - rewrite (start_service_returns h _ Hall). cbn [service_file trace].
    f_equal. f_equal. rewrite <- !app_assoc. reflexivity.
  - f_equal. f_equal. rewrite <- !app_assoc. reflexivity.
Qed.

(** With [--force], on a host without the script and without any Python,
    the install goes through: the unit file is written with no
    interpreter in [ExecStart], and the exit code is 0. *)
Example forced_install_without_script :
  main host_bare Install true world0
  = (0, mkWorld (Some (mkService (None, "/opt/wispr/voice_transcriber.py"%string)
                                 (detect_session_type host_bare)))
                [DaemonReload; Enable; Start; IsActive]) /\
  main host_bare Install false world0 = (1, world0).
Proof. split; vm_compute; reflexivity. Qed.

(** X28. Without [--force], an install on a host that fails one of the
    requirement tests exits with code 1 having run no command and
    written no file; when the script is there and no Python is found at
    all, it does so even with [--force]. So the unit file changes under
    a plain install only when the requirements are met. When the script
    is missing, [--force] passes over the requirement tests, whatever
    the state of Python: if the groups are known, the unit file can be
    written and every command returns, the unit file is written, and the
    exit code is 0 exactly when the reload and the enable returned 0. *)
Theorem install_refused_without_force (h : Host) (w : World) :
  (requirements_met h = false -> main h Install false w = (1, w)) /\
  (script_exists h = true -> python_path h = None ->
   forall force : bool, main h Install force w = (1, w)) /\
  (service_file (snd (main h Install false w)) <> service_file w ->
   requirements_met h = true) /\
  (script_exists h = false -> groups_known h = true ->
   can_write h = true -> all_return h ->
   fst (main h Install true w)
     = (if (code_of h DaemonReload =? 0) && (code_of h Enable =? 0) then 0 else 1) /\
   service_file (snd (main h Install true w))
     = Some (generate_service_content h)).
Proof.
  assert (H1 : requirements_met h = false -> main h Install false w = (1, w)).
  { unfold requirements_met, main, dispatch, check_requirements, bind, ret, raise.
    destruct (script_exists h); cbn [negb andb]; [| reflexivity].
    destruct (python_path h) as [p |]; [| reflexivity].
    rewrite bool_decide_eq_true_2 by eauto. cbn [andb].
    destruct (python_exists h); cbn [negb andb]; [| reflexivity].
    destruct (systemctl h); cbn [negb andb]; [discriminate | reflexivity]. }
  split; [exact H1 |]. split; [| split].
  - intros Hs Hp force.
    unfold main, dispatch, check_requirements, bind, raise. rewrite Hs, Hp.
    reflexivity.
  - intros Hne. destruct (requirements_met h) eqn:E; [reflexivity |].
    rewrite (H1 eq_refl) in Hne. contradiction.
  - intros Hs Hg Hw Hall.
    assert (Hmain : exists t : list Cmd,
      main h Install true w
      = ((if (code_of h DaemonReload =? 0) && (code_of h Enable =? 0)
          then 0 else 1),
         mkWorld (Some (generate_service_content h)) t)).
    { unfold main, dispatch, check_requirements, check_user_groups.
      rewrite Hs, Hg. cbn [negb].
      unfold bind at 1. unfold ret at 1. cbn [negb andb].
      unfold bind at 1. unfold ret at 1. cbn [negb andb].
      destruct (install_service_returns h w Hw Hall) as (imports & _ & ->).
      destruct (code_of h DaemonReload =? 0); [destruct (code_of h Enable =? 0) |];
        eexists; reflexivity. }
    destruct Hmain as [t ->]. split; reflexivity.
Qed.

(** X29. On a host where the unit file can be written and every command
    returns, [install_service] writes the file and reloads the daemon
    first; it imports environment variables and enables the service only
    after a reload that returned 0, starts it only after an enable that
    returned 0, and asks for the state only after a start that returned
    0. It returns normally exactly when the reload and the enable
    returned 0: a failed start is tolerated, and [main] then exits with
    0. *)
Theorem install_tolerates_failed_start (h : Host) (force : bool) (w : World) :
  can_write h = true -> all_return h ->
  let r := install_service h w in
  service_file (snd r) = Some (generate_service_content h) /\
  (fst r = inl () <-> code_of h DaemonReload = 0 /\ code_of h Enable = 0) /\
  (exists imports : list Cmd,
     forallb is_import imports = true /\
     trace (snd r)
     = trace w ++ DaemonReload ::
         (if code_of h DaemonReload =? 0 then
            imports ++ Enable ::
              (if code_of h Enable =? 0 then
                 Start :: (if code_of h Start =? 0 then [IsActive] else [])
               else [])
          else [])) /\
  (requirements_met h = true -> groups_known h = true ->
   fst (main h Install force w)
     = (if (code_of h DaemonReload =? 0) && (code_of h Enable =? 0) then 0 else 1) /\
   service_file (snd (main h Install force w))
     = Some (generate_service_content h)).
Proof.
  intros Hw Hall. cbv zeta.
  destruct (install_service_returns h w Hw Hall) as (imports & Hi & Hr).
  split; [now rewrite Hr |]. split; [| split].
  - rewrite Hr. cbn [fst].
    destruct (Z.eqb_spec (code_of h DaemonReload) 0) as [-> | Hn];
      [destruct (Z.eqb_spec (code_of h Enable) 0) as [-> | Hn] |];
      split; auto; try discriminate; intros [? ?]; contradiction.
  - exists imports. split; [exact Hi |]. now rewrite Hr.
  - intros Hreq Hg. unfold requirements_met in Hreq.
    apply andb_true_iff in Hreq as [Hreq Hsys].
    apply andb_true_iff in Hreq as [Hreq Hpy].
    apply andb_true_iff in Hreq as [Hscr Hsome].
    apply bool_decide_eq_true_1 in Hsome. destruct Hsome as [p Hp].
    assert (Hmain : exists t : list Cmd,
      main h Install force w
      = ((if (code_of h DaemonReload =? 0) && (code_of h Enable =? 0)
          then 0 else 1),
         mkWorld (Some (generate_service_content h)) t)).
    { unfold main, dispatch, check_requirements, check_user_groups.
      rewrite Hscr, Hp, Hpy, Hsys, Hg. cbn [negb].
      unfold bind at 1. unfold bind at 1. rewrite (probe_returns h _ w Hall).
      unfold bind at 1. rewrite (probe_returns h _ _ Hall).
      unfold bind at 1. rewrite (probe_returns h _ _ Hall).
      unfold ret at 1. cbn [negb andb]. unfold bind at 1. unfold ret at 1.
      cbn [negb andb].
      match goal with
      | |- context [install_service h ?w0] =>
          destruct (install_service_returns h w0 Hw Hall) as (imports' & _ & ->)
      end.
      destruct (code_of h DaemonReload =? 0); [destruct (code_of h Enable =? 0) |];
        eexists; reflexivity. }
    destruct Hmain as [t ->]. split; reflexivity.
Qed.

Lemma host_nostart_returns : all_return host_nostart.
Proof. intros c. destruct c; eexists; reflexivity. Qed.

Lemma install_tolerates_failed_start_witness :
  can_write host_nostart = true /\
  fst (install_service host_nostart world0) = inl () /\
  fst (main host_nostart Install false world0) = 0.
Proof.
  assert (Hw : can_write host_nostart = true) by reflexivity.
  destruct (install_tolerates_failed_start host_nostart false world0 Hw
              host_nostart_returns) as (_ & Hok & _ & Hmain).
  split; [exact Hw |]. split.
  - apply Hok. split; reflexivity.
  - destruct Hmain as [Hcode _]; [reflexivity | reflexivity |]. exact Hcode.
Defined.

(** X30. On a host where the unit file can be removed and every command
    returns, an uninstall runs stop, disable and daemon-reload in that
    order, whatever the first two return, and leaves no unit file; the
    exit code is 0 exactly when the reload returned 0. *)
Theorem uninstall_removes_service_file (h : Host) (force : bool) (w : World) :
  can_write h = true -> all_return h ->
  main h Uninstall force w
  = ((if code_of h DaemonReload =? 0 then 0 else 1),
     mkWorld None (trace w ++ [Stop; Disable; DaemonReload])).
Proof.
  intros Hw Hall. unfold main, dispatch, uninstall_service.
  unfold bind at 1.
  rewrite (run_returned h Stop false w _ (code_of_returned h _ Hall)).
  cbn [andb]. unfold bind at 1.
  rewrite (run_returned h Disable false _ _ (code_of_returned h _ Hall)).
  cbn [andb service_file trace]. unfold bind at 1.
  unfold remove_service. cbn [service_file trace]. rewrite Hw.
  assert (Hrm : (match service_file w with
                 | Some _ => (inl (), mkWorld None ((trace w ++ [Stop]) ++ [Disable]))
                 | None => (inl (), mkWorld (service_file w)
                                      ((trace w ++ [Stop]) ++ [Disable]))
                 end : (unit + Exn) * World)
                = (inl (), mkWorld None ((trace w ++ [Stop]) ++ [Disable]))).
  { destruct (service_file w); reflexivity. }
  rewrite Hrm. unfold bind at 1.
  rewrite (run_returned h DaemonReload true _ _ (code_of_returned h _ Hall)).
  cbn [andb service_file trace]. rewrite <- !app_assoc. cbn [app].
  destruct (code_of h DaemonReload =? 0); reflexivity.
Qed.

Lemma uninstall_removes_service_file_witness :
  can_write host_nostart = true /\
  main host_nostart Uninstall false
       (mkWorld (Some (generate_service_content host_nostart)) [])
  = (0, mkWorld None [Stop; Disable; DaemonReload]).
Proof.
  assert (Hw : can_write host_nostart = true) by reflexivity.
  split; [exact Hw |].
  exact (uninstall_removes_service_file host_nostart false
           (mkWorld (Some (generate_service_content host_nostart)) [])
           Hw host_nostart_returns).
Defined.
